(** * Curiata CargoOps: the inventory ledger of [src/src/App.jsx]

    A shallow embedding of the parts of the single-file React application
    that carry behaviour: the CSV export helpers, the seed generator, the
    local-storage document ([getDB]/[setDB]), sign-in and invitation, the
    receipt and dispatch [save] handlers and the movement history of the
    inventory drawer; the session, the hash router and the role guards; the
    figures of the dashboard and of the inventory page; the vehicle cards,
    the trip history and the trips the transport page generates.

    Conventions of the embedding.
    - JavaScript numbers are taken in exact arithmetic: counts
      ([quantity], [qty_packed]) are integers ([Z]) and weights are
      rationals ([Q], compared with [==]).  [NaN] and the rounding of IEEE
      doubles are outside the model; so of the weight the [save] handlers
      keep and of the bars of the fuel chart the statements give the
      operations of the code in their order, and the sign, and no closed
      sum.
    - An ISO date string is represented by the instant it denotes, in
      milliseconds since the epoch ([Z]); [new Date(s)] is the identity on
      that representation.  What [setDate], [setHours] and [setMinutes] make
      of an instant depends on the time zone of the host: the local calendar
      is a parameter ([calendar]), and a length in milliseconds is stated
      only for a host without daylight saving ([fixed_offset]).
    - [Math.random()] is a stream of samples in the unit interval that
      the code consumes from left to right. *)

From Stdlib Require Import Ascii ZArith QArith Qabs Qround Qminmax Lia Lqa.
From stdpp Require Import base option list sorting strings pretty gmap.

Local Open Scope Z_scope.

#[local] Arguments Qplus : simpl never.
#[local] Arguments Qminus : simpl never.
#[local] Arguments Qmult : simpl never.
#[local] Arguments Qopp : simpl never.
#[local] Arguments Qle : simpl never.
#[local] Arguments Qlt : simpl never.
#[local] Arguments Qeq : simpl never.
#[local] Arguments Qmax : simpl never.
#[local] Arguments Z.max : simpl never.
#[local] Arguments Qfloor : simpl never.
#[local] Arguments Qabs : simpl never.
#[local] Arguments inject_Z : simpl never.
#[local] Arguments String.append !_ _ / : simpl nomatch.

(** ** Data model *)

(** [enumBadge]: the five inventory statuses. *)
Inductive status : Type :=
  | Bonded
  | FAK
  | OnSite
  | InTransit
  | Dispatched.

Global Instance status_eq_dec : EqDecision status.
Proof. solve_decision. Defined.

(** [tripBadge]: the three trip statuses. *)
Inductive trip_status : Type :=
  | Idle
  | Active
  | Completed.

(** A row of [warehouse_receipts]. *)
Record receipt : Type := mk_receipt {
  r_id : string;
  r_cargo_id : string;
  date_in : Z;
  indent_number : string;
  quantity : Z;
  marks_numbers : string;
  weight_kg : Q;
  total_qty : Z;
  r_vehicle_reg : string;
  r_driver_name : string;
  expiry_date : Z;
  inspection_date : Z;
  comments : string;
  label_printed : bool
}.

(** A row of [dispatches]. *)
Record dispatch : Type := mk_dispatch {
  d_id : string;
  d_cargo_id : string;
  d_container_no : string;
  seal_no_1 : string;
  seal_no_2 : string;
  date_packed : Z;
  date_dispatched : Z;
  truck_reg : string;
  d_driver_name : string;
  qty_packed : Z;
  marks_numbers_packed : string;
  total_weight_kg : Q;
  inspections_completed : bool
}.

(** A row of [inventory_snapshot]. *)
Record snapshot : Type := mk_snapshot {
  i_id : string;
  i_cargo_id : string;
  i_status : status;
  i_quantity : Z;
  i_weight_kg : Q;
  last_movement : Z
}.

Record vehicle : Type := mk_vehicle {
  v_id : string;
  v_vehicle_reg : string;
  v_driver_name : string
}.

Record trip : Type := mk_trip {
  t_id : string;
  t_vehicle_reg : string;
  start_time : Z;
  end_time : Z;
  distance_km : Q;
  fuel_used_l : Q;
  t_container_no : string;
  t_driver_name : string;
  t_trip_status : trip_status
}.

(** A row of [users]; [tempPassword] is [null] or a string. *)
Record user : Type := mk_user {
  u_id : string;
  email : string;
  role : string;
  name : string;
  tempPassword : option string
}.

(** The document kept under [STORAGE_KEY]. *)
Record DB : Type := mk_DB {
  warehouse_receipts : list receipt;
  dispatches : list dispatch;
  inventory_snapshot : list snapshot;
  transport_trips : list trip;
  vehicles : list vehicle;
  users : list user;
  passwords : gmap string string
}.

Definition set_warehouse_receipts (l : list receipt) (db : DB) : DB :=
  mk_DB l (dispatches db) (inventory_snapshot db) (transport_trips db)
        (vehicles db) (users db) (passwords db).

Definition set_dispatches (l : list dispatch) (db : DB) : DB :=
  mk_DB (warehouse_receipts db) l (inventory_snapshot db) (transport_trips db)
        (vehicles db) (users db) (passwords db).

Definition set_inventory_snapshot (l : list snapshot) (db : DB) : DB :=
  mk_DB (warehouse_receipts db) (dispatches db) l (transport_trips db)
        (vehicles db) (users db) (passwords db).

Definition set_users (l : list user) (db : DB) : DB :=
  mk_DB (warehouse_receipts db) (dispatches db) (inventory_snapshot db)
        (transport_trips db) (vehicles db) l (passwords db).

Definition set_passwords (m : gmap string string) (db : DB) : DB :=
  mk_DB (warehouse_receipts db) (dispatches db) (inventory_snapshot db)
        (transport_trips db) (vehicles db) (users db) m.

(** ** Identifiers

    [uid(prefix)] is [`${prefix}_${Math.random().toString(36).slice(2, 9)}`].
    The base-36 rendering of the sample is kept abstract: [base36 u] is the
    text [u.toString(36).slice(2, 9)]. *)

Section Ledger.

Variable base36 : Q -> string.

Definition uid (prefix : string) (u : Q) : string :=
  prefix +:+ "_" +:+ base36 u.

(** ** The reconciler: [ReceiptPage.save] and [DispatchPage.save] *)

(** [next.inventory_snapshot.find(i => i.cargo_id === c)], with the position
    of the row found, since the handlers update that row in place. *)
Definition find_snapshot (c : string) (l : list snapshot) : option (nat * snapshot) :=
  list_find (fun i => i_cargo_id i = c) l.

(** [ReceiptPage.save(newRec)].  [u] is the sample [Math.random()] returns
    if [uid("inv")] is called, that is when no snapshot exists yet. *)
Definition ReceiptPage_save (u : Q) (db : DB) (newRec : receipt) : DB :=
  let next := set_warehouse_receipts (newRec :: warehouse_receipts db) db in
  let '(k, inv, rows) :=
    match find_snapshot (r_cargo_id newRec) (inventory_snapshot next) with
    | Some (k, inv) => (k, inv, inventory_snapshot next)
    | None =>
        let inv := mk_snapshot (uid "inv" u) (r_cargo_id newRec) OnSite 0 0%Q
                               (date_in newRec) in
        (length (inventory_snapshot next), inv, inventory_snapshot next ++ [inv])
    end in
  let inv1 := mk_snapshot (i_id inv) (i_cargo_id inv) OnSite
                          (i_quantity inv + quantity newRec)
                          (i_weight_kg inv + weight_kg newRec)
                          (date_in newRec) in
  set_inventory_snapshot (<[k := inv1]> rows) next.

(** [DispatchPage.save(newD)]. *)
Definition DispatchPage_save (db : DB) (newD : dispatch) : DB :=
  let next := set_dispatches (newD :: dispatches db) db in
  match find_snapshot (d_cargo_id newD) (inventory_snapshot next) with
  | Some (k, inv) =>
      let q := Z.max 0 (i_quantity inv - qty_packed newD) in
      let w := Qmax 0 (i_weight_kg inv - total_weight_kg newD) in
      let st := if decide (q = 0) then Dispatched else i_status inv in
      let inv1 := mk_snapshot (i_id inv) (i_cargo_id inv) st q w
                              (date_dispatched newD) in
      set_inventory_snapshot (<[k := inv1]> (inventory_snapshot next)) next
  | None => next
  end.

(** A user action on the ledger: saving a receipt (with the sample [uid]
    may consume) or saving a dispatch. *)
Inductive movement : Type :=
  | Receive (u : Q) (r : receipt)
  | Ship (d : dispatch).

Definition movement_cargo (m : movement) : string :=
  match m with
  | Receive _ r => r_cargo_id r
  | Ship d => d_cargo_id d
  end.

Definition apply_movement (db : DB) (m : movement) : DB :=
  match m with
  | Receive u r => ReceiptPage_save u db r
  | Ship d => DispatchPage_save db d
  end.

(** The handlers applied one after the other, each on the ledger the
    previous one stored. *)
Definition apply_movements (db : DB) (ms : list movement) : DB :=
  fold_left apply_movement ms db.

End Ledger.

(** ** Totals and running balance of a sequence of movements *)

Definition is_ship (m : movement) : Prop :=
  match m with Ship _ => True | Receive _ _ => False end.

Fixpoint received_quantity (ms : list movement) : Z :=
  match ms with
  | [] => 0
  | Receive _ r :: ms => quantity r + received_quantity ms
  | Ship _ :: ms => received_quantity ms
  end.

Fixpoint dispatched_quantity (ms : list movement) : Z :=
  match ms with
  | [] => 0
  | Receive _ _ :: ms => dispatched_quantity ms
  | Ship d :: ms => qty_packed d + dispatched_quantity ms
  end.

Fixpoint received_weight (ms : list movement) : Q :=
  match ms with
  | [] => 0%Q
  | Receive _ r :: ms => (weight_kg r + received_weight ms)%Q
  | Ship _ :: ms => received_weight ms
  end.

Fixpoint dispatched_weight (ms : list movement) : Q :=
  match ms with
  | [] => 0%Q
  | Receive _ _ :: ms => dispatched_weight ms
  | Ship d :: ms => (total_weight_kg d + dispatched_weight ms)%Q
  end.

(** The stock on hand of one cargo id as the handlers keep it: nothing
    until the first receipt; a receipt adds; a dispatch subtracts and floors
    at zero, and has no effect while there is no snapshot. *)
Definition on_hand : Type := option (Z * Q).

Definition on_hand_step (b : on_hand) (m : movement) : on_hand :=
  match m, b with
  | Receive _ r, None => Some (0 + quantity r, (0 + weight_kg r)%Q)
  | Receive _ r, Some (q, w) => Some (q + quantity r, (w + weight_kg r)%Q)
  | Ship d, None => None
  | Ship d, Some (q, w) =>
      Some (Z.max 0 (q - qty_packed d), Qmax 0 (w - total_weight_kg d))
  end.

Definition on_hand_after (ms : list movement) : on_hand :=
  fold_left on_hand_step ms None.

(** Quantities and weights of the data model are not negative. *)
Definition nonnegative (m : movement) : Prop :=
  match m with
  | Receive _ r => 0 <= quantity r /\ (0 <= weight_kg r)%Q
  | Ship d => 0 <= qty_packed d /\ (0 <= total_weight_kg d)%Q
  end.

(** No dispatch of the sequence packs more units than are on hand when it
    is applied ([b] is the stock before the sequence). *)
Fixpoint within_stock (b : on_hand) (ms : list movement) : Prop :=
  match ms with
  | [] => True
  | m :: ms =>
      match m with
      | Receive _ _ => True
      | Ship d => qty_packed d <= default 0 (fst <$> b)
      end /\ within_stock (on_hand_step b m) ms
  end.

(** ** The random source and the helpers built on it

    [Math.random()] is a stream: [random n] is the sample the [n]-th call
    returns.  A computation that draws samples is a function of the number
    of samples drawn so far. *)

Definition Rand (A : Type) : Type := nat -> A * nat.

Definition ret {A : Type} (a : A) : Rand A := fun n => (a, n).

Definition bind {A B : Type} (c : Rand A) (k : A -> Rand B) : Rand B :=
  fun n => let (a, n1) := c n in k a n1.

Notation "x <- c ;; k" := (bind c (fun x => k))
  (at level 100, c at next level, right associativity).

(** [Array.from({ length: n }).map(f)]: [f] is run [n] times, in order. *)
Fixpoint times {A : Type} (n : nat) (c : Rand A) : Rand (list A) :=
  match n with
  | O => ret []
  | S n => x <- c ;; xs <- times n c ;; ret (x :: xs)
  end.

(** [arr.map(f)] for an [f] that draws samples. *)
Fixpoint for_each {A B : Type} (f : A -> Rand B) (l : list A) : Rand (list B) :=
  match l with
  | [] => ret []
  | a :: l => x <- f a ;; xs <- for_each f l ;; ret (x :: xs)
  end.

(** [n.toFixed(decimals)] read back by [parseFloat]: the nearest multiple of
    [10^-decimals], ties away from zero. *)
Definition toFixed (x : Q) (decimals : Z) : Q :=
  let p := 10 ^ decimals in
  let m := Qfloor (Qabs x * inject_Z p + (1 # 2))%Q in
  Qmake (if Qlt_le_dec x 0 then - m else m) (Z.to_pos p).

(** The local calendar of the host, as far as the code uses it: the day of
    the month, the hour and the minute of an instant in local time, and the
    instant a [Date] holds after [setDate(n)], [setHours(n)] and
    [setMinutes(n)], which count on from the local fields and carry over. *)
Record calendar : Type := mk_calendar {
  getDate : Z -> Z;
  setDate : Z -> Z -> Z;
  getHours : Z -> Z;
  setHours : Z -> Z -> Z;
  getMinutes : Z -> Z;
  setMinutes : Z -> Z -> Z
}.

(** A host without daylight saving: moving the local day, hour or minute
    on by [n] moves the instant by [n] days of 24 hours, by [n] hours, by [n]
    minutes. *)
Definition fixed_offset (tz : calendar) : Prop :=
  (forall d n, setDate tz d (getDate tz d + n) = d + n * 86400000)
  /\ (forall d n, setHours tz d (getHours tz d + n) = d + n * 3600000)
  /\ (forall d n, setMinutes tz d (getMinutes tz d + n) = d + n * 60000).

(** The day of the month of the day numbered [z] from 1970-01-01, in the
    Gregorian calendar. *)
Definition day_of_month (z : Z) : Z :=
  let z1 := z + 719468 in
  let doe := z1 mod 146097 in
  let yoe := (doe - doe / 1460 + doe / 36524 - doe / 146096) / 365 in
  let doy := doe - (365 * yoe + yoe / 4 - yoe / 100) in
  let mp := (5 * doy + 2) / 153 in
  doy - (153 * mp + 2) / 5 + 1.

(** The calendar of a host whose time zone is UTC. *)
Definition utc : calendar :=
  mk_calendar
    (fun d => day_of_month (d / 86400000))
    (fun d n => d + (n - day_of_month (d / 86400000)) * 86400000)
    (fun d => (d / 3600000) mod 24)
    (fun d n => d + (n - (d / 3600000) mod 24) * 3600000)
    (fun d => (d / 60000) mod 60)
    (fun d n => d + (n - (d / 60000) mod 60) * 60000).

(** [addDays(date, days)]: [d.setDate(d.getDate() + days)]. *)
Definition addDays (tz : calendar) (date days : Z) : Z :=
  setDate tz date (getDate tz date + days).

Section Seed.

Variable base36 : Q -> string.
Variable random : nat -> Q.
Variable now : Z.
Variable tz : calendar.

Definition Math_random : Rand Q := fun n => (random n, S n).

(** [rand(min, max)] *)
Definition rand (min max : Z) : Rand Z :=
  u <- Math_random ;;
  ret (Qfloor (u * inject_Z (max - min + 1))%Q + min).

(** [choice(arr)]; [d] stands for the [undefined] that indexing an empty
    array gives. *)
Definition choice {A : Type} (d : A) (arr : list A) : Rand A :=
  i <- rand 0 (Z.of_nat (length arr) - 1) ;;
  ret (nth (Z.to_nat i) arr d).

(** [uid(prefix)] *)
Definition draw_uid (prefix : string) : Rand string :=
  u <- Math_random ;; ret (uid base36 prefix u).

(** [numberBetween(min, max, decimals)] *)
Definition numberBetween (min max : Q) (decimals : Z) : Rand Q :=
  u <- Math_random ;;
  ret (toFixed (u * (max - min) + min)%Q decimals).

(** ** [seedIfNeeded]: generation of the demo data *)

Definition drivers : list string :=
  ["S. Dlamini"; "K. Naidoo"; "P. Mkhize"; "J. Smith"; "M. Botha"; "A. Patel";
   "R. Mthembu"].

Definition marks : list string :=
  ["MNK/2025/01"; "JHB/PK/77"; "KZN/WH/88"; "DBN/FG/12"; "CPT/RT/55"].

Definition no_vehicle : vehicle := mk_vehicle "" "" "".

Definition seed_vehicle : Rand vehicle :=
  id <- draw_uid "veh" ;;
  n <- rand 1000 9999 ;;
  dn <- choice "" drivers ;;
  ret (mk_vehicle id ("ND " +:+ pretty n) dn).

Definition seed_receipt (start : Z) (vehicles : list vehicle) : Rand receipt :=
  k <- rand 0 14 ;;
  let date_in := addDays tz start k in
  quantity <- rand 1 200 ;;
  weight_kg <- numberBetween (inject_Z (quantity * 5)) (inject_Z (quantity * 10)) 1 ;;
  c <- rand 100 999 ;;
  let cargo_id := "CG-" +:+ pretty c in
  id <- draw_uid "rcpt" ;;
  indent <- rand 10000 99999 ;;
  mn <- choice "" marks ;;
  v <- choice no_vehicle vehicles ;;
  dn <- choice "" drivers ;;
  e <- rand 10 60 ;;
  i <- rand 0 3 ;;
  u1 <- Math_random ;;
  u2 <- Math_random ;;
  ret (mk_receipt id cargo_id date_in (pretty indent) quantity mn weight_kg
         quantity (v_vehicle_reg v) dn (addDays tz date_in e) (addDays tz date_in i)
         (if Qlt_le_dec u1 (2 # 10) then "Damaged pallet corners" else "")
         (if Qlt_le_dec u2 (6 # 10) then true else false)).

Definition no_receipt : receipt :=
  mk_receipt "" "" 0 "" 0 "" 0 0 "" "" 0 0 "" false.

Definition seed_dispatch (start : Z) (warehouse_receipts : list receipt)
  : Rand dispatch :=
  k <- rand 0 14 ;;
  let date_packed := addDays tz start k in
  j <- rand 0 2 ;;
  let date_dispatched := addDays tz date_packed j in
  qty <- rand 1 150 ;;
  r <- choice no_receipt warehouse_receipts ;;
  let cargo_id := r_cargo_id r in
  id <- draw_uid "dsp" ;;
  cn <- rand 1000000 9999999 ;;
  s1 <- rand 100000 999999 ;;
  s2 <- rand 100000 999999 ;;
  tr <- rand 1000 9999 ;;
  dn <- choice "" drivers ;;
  mn <- choice "" marks ;;
  w <- numberBetween (inject_Z (qty * 5)) (inject_Z (qty * 10)) 1 ;;
  u <- Math_random ;;
  ret (mk_dispatch id cargo_id ("MSCU" +:+ pretty cn) (pretty s1) (pretty s2)
         date_packed date_dispatched ("ND " +:+ pretty tr) dn qty mn w
         (if Qlt_le_dec u (8 # 10) then true else false)).

(** An entry of [byCargo]. *)
Record tally : Type := mk_tally {
  tl_quantity : Z;
  tl_weight_kg : Q;
  tl_last_movement : Z
}.

(** [if (!byCargo[c]) byCargo[c] = init; ...update byCargo[c]...] on an
    object whose keys ("CG-nnn") keep their insertion order. *)
Fixpoint upsert (c : string) (init : tally) (f : tally -> tally)
  (m : list (string * tally)) : list (string * tally) :=
  match m with
  | [] => [(c, f init)]
  | (k, v) :: m => if decide (k = c) then (k, f v) :: m
                   else (k, v) :: upsert c init f m
  end.

Definition tally_receipt (m : list (string * tally)) (r : receipt)
  : list (string * tally) :=
  upsert (r_cargo_id r) (mk_tally 0 0 (date_in r))
    (fun v => mk_tally (tl_quantity v + quantity r)
                       (tl_weight_kg v + weight_kg r) (date_in r)) m.

Definition tally_dispatch (m : list (string * tally)) (d : dispatch)
  : list (string * tally) :=
  upsert (d_cargo_id d) (mk_tally 0 0 (date_dispatched d))
    (fun v => mk_tally (tl_quantity v - qty_packed d)
                       (tl_weight_kg v - total_weight_kg d) (date_dispatched d)) m.

Definition byCargo (warehouse_receipts : list receipt) (dispatches : list dispatch)
  : list (string * tally) :=
  fold_left tally_dispatch dispatches (fold_left tally_receipt warehouse_receipts []).

Definition invStatuses : list status := [Bonded; FAK; OnSite; InTransit].

(** One row of [inventory_snapshot], from an entry of [byCargo].
    [Math.floor] is the identity on the integer [v.quantity]. *)
Definition seed_snapshot (e : string * tally) : Rand snapshot :=
  let (cargo_id, v) := e in
  id <- draw_uid "inv" ;;
  st <- (if decide (tl_quantity v <= 0) then ret Dispatched
         else choice Bonded invStatuses) ;;
  w <- numberBetween (Qmax 0 (tl_weight_kg v - 50)) (Qmax 0 (tl_weight_kg v + 50)) 1 ;;
  ret (mk_snapshot id cargo_id st (Z.max 0 (tl_quantity v)) (Qmax 0 w)
         (tl_last_movement v)).

(** [end] is a copy of [start_time] made with [addDays(start_time, 0)], then
    [end.setHours(new Date(start_time).getHours() + durationH)]. *)
Definition seed_trip (start : Z) (vehicles : list vehicle) : Rand trip :=
  k <- rand 0 14 ;;
  let start_time := addDays tz start k in
  durationH <- rand 1 8 ;;
  let end_time := setHours tz (addDays tz start_time 0)
                           (getHours tz start_time + durationH) in
  id <- draw_uid "trip" ;;
  v <- choice no_vehicle vehicles ;;
  dist <- numberBetween 10 600 1 ;;
  fuel <- numberBetween 2 120 1 ;;
  cn <- rand 1000000 9999999 ;;
  dn <- choice "" drivers ;;
  ts <- choice Idle [Idle; Active; Completed] ;;
  ret (mk_trip id (v_vehicle_reg v) start_time end_time dist fuel
         ("MSCU" +:+ pretty cn) dn ts).

Definition seed_passwords : gmap string string :=
  <["admin@curiata.dev" := "admin123"]>
    (<["supervisor@curiata.dev" := "super123"]>
       (<["viewer@curiata.dev" := "view123"]> ∅)).

(** The document [seedIfNeeded] builds when the store holds none. *)
Definition seed_db : Rand DB :=
  let start := addDays tz now (-14) in
  vehicles <- times 10 seed_vehicle ;;
  warehouse_receipts <- times 50 (seed_receipt start vehicles) ;;
  dispatches <- times 20 (seed_dispatch start warehouse_receipts) ;;
  inventory_snapshot <- for_each seed_snapshot (byCargo warehouse_receipts dispatches) ;;
  transport_trips <- times 30 (seed_trip start vehicles) ;;
  i1 <- draw_uid "usr" ;;
  i2 <- draw_uid "usr" ;;
  i3 <- draw_uid "usr" ;;
  let users :=
    [mk_user i1 "admin@curiata.dev" "Admin" "Admin User" None;
     mk_user i2 "supervisor@curiata.dev" "Supervisor" "Ops Supervisor" None;
     mk_user i3 "viewer@curiata.dev" "Viewer" "Read Only" None] in
  ret (mk_DB warehouse_receipts dispatches inventory_snapshot transport_trips
         vehicles users seed_passwords).

End Seed.

(** ** The local store

    [localStorage] holds two items.  The item under [STORAGE_KEY] is a
    text; what matters of it is what [JSON.parse] makes of it: the text
    [setDB] wrote parses back to the document it was written from, any other
    text of the model is one that [JSON.parse] rejects. *)

Inductive document : Type :=
  | Json (db : DB)
  | Unparseable (text : string).

(** The item under ["cc_auth"]. *)
Record auth : Type := mk_auth {
  a_email : string;
  a_role : string;
  a_name : string
}.

Record storage : Type := mk_storage {
  cc_seed_v1 : option document;
  cc_auth : option auth
}.

(** How a call ends: with a value, or with an exception nobody catches. *)
Inductive error : Type :=
  | SyntaxError
  | TypeError.

Inductive completion (A : Type) : Type :=
  | Returned (a : A)
  | Threw (e : error).

Arguments Returned {A} a.
Arguments Threw {A} e.

(** Truthiness of [localStorage.getItem(STORAGE_KEY)]: [null] and the empty
    text are falsy. *)
Definition item_truthy (o : option document) : bool :=
  match o with
  | None => false
  | Some (Json _) => true
  | Some (Unparseable text) => if decide (text = "") then false else true
  end.

(** [setDB(db)] *)
Definition setDB (db : DB) (st : storage) : storage :=
  mk_storage (Some (Json db)) (cc_auth st).

(** [setAuth(a)] *)
Definition setAuth (a : auth) (st : storage) : storage :=
  mk_storage (cc_seed_v1 st) (Some a).

Section Pages.

Variable base36 : Q -> string.
Variable random : nat -> Q.
Variable now : Z.
Variable tz : calendar.

(** [seedIfNeeded()]; [random] gives the samples drawn from this call on. *)
Definition seedIfNeeded (st : storage) : storage :=
  if item_truthy (cc_seed_v1 st) then st
  else setDB (fst (seed_db base36 random now tz 0%nat)) st.

(** [getDB()].  After [seedIfNeeded] the item is never [null]; for
    completeness, [JSON.parse(null)] is [null] and the caller's first property
    access throws. *)
Definition getDB (st : storage) : completion DB * storage :=
  let st1 := seedIfNeeded st in
  match cc_seed_v1 st1 with
  | Some (Json db) => (Returned db, st1)
  | Some (Unparseable _) => (Threw SyntaxError, st1)
  | None => (Threw TypeError, st1)
  end.

(** ** Sign-in *)

(** [db.users.find(u => u.email === email)], with the row's position. *)
Definition find_user (e : string) (l : list user) : option (nat * user) :=
  list_find (fun u => email u = e) l.

(** [db.passwords[email] && db.passwords[email] === password] *)
Definition password_ok (db : DB) (e password : string) : bool :=
  match passwords db !! e with
  | Some p => if decide (p = "") then false else bool_decide (p = password)
  | None => false
  end.

(** [user.tempPassword === password] *)
Definition temp_ok (u : user) (password : string) : bool :=
  bool_decide (tempPassword u = Some password).

(** What the sign-in form shows next. *)
Inductive login_outcome : Type :=
  | Navigated (hash : string)
  | ShowError (msg : string)
  | Toast (msg : string)
  | Uncaught (e : error).

Definition clear_temp (u : user) : user :=
  mk_user (u_id u) (email u) (role u) (name u) None.

(** [LoginPage.doLogin] on the submitted [email] and [password]. *)
Definition doLogin (st : storage) (e password : string)
  : login_outcome * storage :=
  match getDB st with
  | (Threw err, st1) => (Uncaught err, st1)
  | (Returned db, st1) =>
      let ok := password_ok db e password in
      match find_user e (users db) with
      | Some (k, u) =>
          if ok then
            (Navigated "#/dashboard", setAuth (mk_auth e (role u) (name u)) st1)
          else if temp_ok u password then
            let db1 := set_passwords (<[e := password]> (passwords db))
                         (set_users (<[k := clear_temp u]> (users db)) db) in
            (Navigated "#/dashboard",
             setAuth (mk_auth e (role u) (name u)) (setDB db1 st1))
          else (ShowError "Invalid credentials", st1)
      | None => (ShowError "Invalid credentials", st1)
      end
  end.

(** [LoginPage.forgot]; [u] is the sample [rand(10000, 99999)] draws. *)
Definition forgot (u : Q) (st : storage) (e : string) : login_outcome * storage :=
  match getDB st with
  | (Threw err, st1) => (Uncaught err, st1)
  | (Returned db, st1) =>
      match find_user e (users db) with
      | None => (ShowError "Email not found", st1)
      | Some (k, usr) =>
          let temp := "Temp"
            +:+ pretty (Qfloor (u * inject_Z (99999 - 10000 + 1))%Q + 10000)
            +:+ "!" in
          let usr1 := mk_user (u_id usr) (email usr) (role usr) (name usr)
                              (Some temp) in
          (Toast ("Temporary password issued: " +:+ temp),
           setDB (set_users (<[k := usr1]> (users db)) db) st1)
      end
  end.

(** ** Movement history: [MovementDrawer] *)

Inductive movement_type : Type :=
  | Receipt
  | Dispatch.

Record movement_row : Type := mk_movement_row {
  m_type : movement_type;
  m_date : Z;
  m_qty : Z;
  m_details : string
}.

(** [arr.sort(comparefn)].  The language fixes the result for a consistent
    comparator (the sort is stable) and leaves the algorithm open; the
    embedding takes insertion sort, which puts an element before the first
    one it does not compare greater than. *)
Fixpoint sort_insert {A : Type} (comparefn : A -> A -> Z) (x : A) (l : list A)
  : list A :=
  match l with
  | [] => [x]
  | y :: l1 => if decide (comparefn x y <= 0) then x :: y :: l1
               else y :: sort_insert comparefn x l1
  end.

Fixpoint Array_sort {A : Type} (comparefn : A -> A -> Z) (l : list A) : list A :=
  match l with
  | [] => []
  | x :: l1 => sort_insert comparefn x (Array_sort comparefn l1)
  end.

Definition receipt_rows (db : DB) (c : string) : list movement_row :=
  (fun r => mk_movement_row Receipt (date_in r) (quantity r) (indent_number r))
    <$> filter (fun r => r_cargo_id r = c) (warehouse_receipts db).

Definition dispatch_rows (db : DB) (c : string) : list movement_row :=
  (fun d => mk_movement_row Dispatch (date_dispatched d) (- qty_packed d)
                            (d_container_no d))
    <$> filter (fun d => d_cargo_id d = c) (dispatches db).

(** The [rows] of the drawer, for the document [db]. *)
Definition movement_rows (db : DB) (c : string) : list movement_row :=
  Array_sort (fun a b => m_date a - m_date b)
             (receipt_rows db c ++ dispatch_rows db c).

(** [MovementDrawer({ cargo })]: what is displayed and what the store holds
    afterwards. *)
Definition MovementDrawer (st : storage) (cargo : snapshot)
  : completion (list movement_row) * storage :=
  match getDB st with
  | (Threw err, st1) => (Threw err, st1)
  | (Returned db, st1) => (Returned (movement_rows db (i_cargo_id cargo)), st1)
  end.

End Pages.

(** ** Invitation: [UsersPage.invite] *)

(** The form of [InviteUserDrawer]; its [tempPassword] is a text. *)
Record invite_form : Type := mk_invite_form {
  f_id : string;
  f_email : string;
  f_name : string;
  f_role : string;
  f_tempPassword : string
}.

(** [UsersPage.invite(user)] on the document the page holds; the result is
    what [setDB] stores. *)
Definition UsersPage_invite (db : DB) (f : invite_form) : DB :=
  let u := mk_user (f_id f) (f_email f) (f_role f) (f_name f)
                   (Some (f_tempPassword f)) in
  set_passwords (<[f_email f := f_tempPassword f]> (passwords db))
    (set_users (users db ++ [u]) db).

(** ** Net totals of a cargo id over the collections *)

Definition receipts_quantity (c : string) (rs : list receipt) : Z :=
  foldr (fun r s => quantity r + s) 0 (filter (fun r => r_cargo_id r = c) rs).

Definition receipts_weight (c : string) (rs : list receipt) : Q :=
  foldr (fun r s => (weight_kg r + s)%Q) 0%Q
        (filter (fun r => r_cargo_id r = c) rs).

Definition dispatches_quantity (c : string) (ds : list dispatch) : Z :=
  foldr (fun d s => qty_packed d + s) 0 (filter (fun d => d_cargo_id d = c) ds).

Definition dispatches_weight (c : string) (ds : list dispatch) : Q :=
  foldr (fun d s => (total_weight_kg d + s)%Q) 0%Q
        (filter (fun d => d_cargo_id d = c) ds).

(** Receipts minus dispatches of cargo id [c], not clamped. *)
Definition net_quantity (db : DB) (c : string) : Z :=
  receipts_quantity c (warehouse_receipts db)
  - dispatches_quantity c (dispatches db).

Definition net_weight (db : DB) (c : string) : Q :=
  (receipts_weight c (warehouse_receipts db)
   - dispatches_weight c (dispatches db))%Q.

(** [byCargo[c]] *)
Fixpoint lookup_tally (c : string) (m : list (string * tally)) : option tally :=
  match m with
  | [] => None
  | (k, v) :: m => if decide (k = c) then Some v else lookup_tally c m
  end.

Definition tally_quantity (o : option tally) : Z := default 0 (tl_quantity <$> o).
Definition tally_weight (o : option tally) : Q := default 0%Q (tl_weight_kg <$> o).

(** The stock the ledger holds for cargo id [c]. *)
Definition stock_of (c : string) (db : DB) : on_hand :=
  (fun p => (i_quantity (snd p), i_weight_kg (snd p)))
    <$> find_snapshot c (inventory_snapshot db).

Definition stock_quantity (b : on_hand) : Z := default 0 (fst <$> b).
Definition stock_weight (b : on_hand) : Q := default 0%Q (snd <$> b).

(** ** CSV export: [csvEscape] and [exportCSV] *)

Definition comma : ascii := ","%char.
Definition quote : ascii := "034"%char.
Definition newline : ascii := "010"%char.

(** The values a field of a stored row can hold.  Numbers are integers
    here; [String(v)] of a number with a fraction is not modelled. *)
Inductive jsval : Type :=
  | JNull
  | JUndefined
  | JString (s : string)
  | JNumber (z : Z)
  | JBoolean (b : bool).

(** [String(v)] *)
Definition js_String (v : jsval) : string :=
  match v with
  | JNull => "null"
  | JUndefined => "undefined"
  | JString s => s
  | JNumber z => pretty z
  | JBoolean b => if b then "true" else "false"
  end.

(** [s.includes(c)] for a one-character [c]. *)
Fixpoint includes (c : ascii) (s : string) : bool :=
  match s with
  | EmptyString => false
  | String a s => if decide (a = c) then true else includes c s
  end.

(** [s.replace] of every double quote by two double quotes. *)
Fixpoint double_quotes (s : string) : string :=
  match s with
  | EmptyString => EmptyString
  | String a s =>
      if decide (a = quote) then String quote (String quote (double_quotes s))
      else String a (double_quotes s)
  end.

Definition needs_quotes (s : string) : bool :=
  includes comma s || includes quote s || includes newline s.

(** [csvEscape(v)] *)
Definition csvEscape (v : jsval) : string :=
  match v with
  | JNull | JUndefined => EmptyString
  | _ =>
      let s := js_String v in
      if needs_quotes s
      then String quote (double_quotes s +:+ String quote EmptyString)
      else s
  end.

(** [arr.join(sep)] on an array of strings. *)
Fixpoint join (sep : string) (l : list string) : string :=
  match l with
  | [] => EmptyString
  | x :: l1 =>
      match l1 with
      | [] => x
      | _ :: _ => x +:+ sep +:+ join sep l1
      end
  end.

(** A stored row as an object: its properties in insertion order (the keys
    are distinct and none is an array index, so [Object.keys] lists them in
    that order). *)
Definition js_object : Type := list (string * jsval).

Definition Object_keys (r : js_object) : list string := r.*1.

(** [r[h]] *)
Fixpoint prop (r : js_object) (h : string) : jsval :=
  match r with
  | [] => JUndefined
  | (k, v) :: r => if decide (k = h) then v else prop r h
  end.

(** [exportCSV(filename, rows)]: the name and the text of the file offered
    for download, if any. *)
Definition exportCSV (filename : string) (rows : list js_object)
  : option (string * string) :=
  match rows with
  | [] => None
  | r0 :: _ =>
      let headers := Object_keys r0 in
      let csv :=
        join (String newline EmptyString)
          (join "," headers
             :: ((fun r => join "," ((fun h => csvEscape (prop r h)) <$> headers))
                   <$> rows)) in
      Some (filename +:+ ".csv", csv)
  end.

(** The text of a field in the export: empty for [null] and [undefined],
    [String(v)] otherwise. *)
Definition csv_text (v : jsval) : string :=
  match v with
  | JNull | JUndefined => EmptyString
  | _ => js_String v
  end.

(** The text [csvEscape] writes for a field whose text is [s], and the
    line it makes of a row of field texts. *)
Definition escape_text (s : string) : string :=
  if needs_quotes s
  then String quote (double_quotes s +:+ String quote EmptyString)
  else s.

Definition line_text (fs : list string) : string :=
  join "," (escape_text <$> fs).

(** ** Reading CSV back *)

Inductive csv_mode : Type :=
  | FieldStart
  | Unquoted
  | Quoted
  | QuoteSeen.

Record csv_state : Type := mk_csv_state {
  csv_rows : list (list string);
  csv_row : list string;
  csv_field : string;
  csv_at : csv_mode
}.

Definition csv_put (c : ascii) (m : csv_mode) (st : csv_state) : csv_state :=
  mk_csv_state (csv_rows st) (csv_row st)
               (csv_field st +:+ String c EmptyString) m.

Definition csv_end_field (st : csv_state) : csv_state :=
  mk_csv_state (csv_rows st) (csv_row st ++ [csv_field st]) EmptyString FieldStart.

Definition csv_end_row (st : csv_state) : csv_state :=
  mk_csv_state (csv_rows st ++ [csv_row st ++ [csv_field st]]) [] EmptyString
               FieldStart.

Definition csv_separator (c : ascii) (st : csv_state) : option csv_state :=
  if decide (c = comma) then Some (csv_end_field st)
  else if decide (c = newline) then Some (csv_end_row st)
  else None.

Definition csv_step (st : csv_state) (c : ascii) : csv_state :=
  match csv_at st with
  | FieldStart =>
      if decide (c = quote)
      then mk_csv_state (csv_rows st) (csv_row st) (csv_field st) Quoted
      else default (csv_put c Unquoted st) (csv_separator c st)
  | Unquoted => default (csv_put c Unquoted st) (csv_separator c st)
  | Quoted =>
      if decide (c = quote)
      then mk_csv_state (csv_rows st) (csv_row st) (csv_field st) QuoteSeen
      else csv_put c Quoted st
  | QuoteSeen =>
      if decide (c = quote) then csv_put quote Quoted st
      else default (csv_put c Unquoted st) (csv_separator c st)
  end.

Fixpoint csv_run (st : csv_state) (s : string) : csv_state :=
  match s with
  | EmptyString => st
  | String c s => csv_run (csv_step st c) s
  end.

(** Modelled from the spec: the reader of the "standard CSV dialect" of the
    specification's tabular export (section 6), which the round-trip property
    of section 8 parses the export with; the repository has no CSV reader.
    Fields are separated by commas and rows by line feeds; a field that starts
    with a double quote runs to its closing double quote, a doubled double
    quote inside it standing for one; the text ends the last row. *)
Definition parse_csv (s : string) : list (list string) :=
  let st := csv_run (mk_csv_state [] [] EmptyString FieldStart) s in
  csv_rows st ++ [csv_row st ++ [csv_field st]].

(** A field name or text that the export writes as it is. *)
Definition plain (s : string) : Prop := needs_quotes s = false.

(** A line without any field reads back as one empty field. *)
Definition csv_fields (l : list string) : list string :=
  match l with
  | [] => [EmptyString]
  | _ :: _ => l
  end.

(** The rows of the demo: a user of the seed, as [db.users] holds it. *)
Definition user_object (id e r n : string) (temp : option string) : js_object :=
  [("id", JString id); ("email", JString e); ("role", JString r);
   ("name", JString n);
   ("tempPassword", match temp with Some t => JString t | None => JNull end)].

(** ** What the seed run promises

    Every sample of [Math.random()] is in the unit interval. *)
Definition unit_samples (random : nat -> Q) : Prop :=
  forall n, (0 <= random n)%Q /\ (random n < 1)%Q.

(** What [seed_snapshot] makes of an entry of [byCargo]. *)
Definition snapshot_of_tally (e : string * tally) (inv : snapshot) : Prop :=
  i_cargo_id inv = e.1
  /\ i_quantity inv = Z.max 0 (tl_quantity e.2)
  /\ (if decide (tl_quantity e.2 <= 0) then i_status inv = Dispatched
      else i_status inv ∈ invStatuses)
  /\ (0 <= i_weight_kg inv)%Q
  /\ (Qmax 0 (tl_weight_kg e.2 - 50) - (1 # 20) <= i_weight_kg inv)%Q
  /\ (i_weight_kg inv <= Qmax 0 (tl_weight_kg e.2 + 50) + (1 # 20))%Q
  /\ last_movement inv = tl_last_movement e.2.

(** ** Sample rows

    The record [ReceiptDrawer] (resp. [DispatchDrawer]) submits when the
    user keeps the form's defaults except for cargo id, date, quantity and
    weight. *)

Definition form_receipt (c : string) (t q : Z) (w : Q) : receipt :=
  mk_receipt "rcpt_demo" c t "10000" q "" w 10 "ND 1000" ""
             (t + 30 * 86400000) t "" false.

Definition form_dispatch (c : string) (t q : Z) (w : Q) : dispatch :=
  mk_dispatch "dsp_demo" c "MSCU1000000" "100000" "100000" t t "ND 1000" ""
              q "" w true.

Definition empty_db : DB := mk_DB [] [] [] [] [] [] ∅.

(** A rendering of samples, for the examples. *)
Definition plain36 (u : Q) : string := "x".

(** ** Sessions, routes and role guards: [getAuth], [signOut],
    [useHashRoute], [Guard], [Sidebar] and [App] *)

(** [getAuth()].  The item under ["cc_auth"] is absent or the text [setAuth]
    wrote, which parses back to the object written; the [catch] branch, which
    answers [null] as well, is for texts outside this model. *)
Definition getAuth (st : storage) : option auth := cc_auth st.

(** [signOut()]: the store afterwards and the hash it navigates to. *)
Definition signOut (st : storage) : storage * string :=
  (mk_storage (cc_seed_v1 st) None, "#/login").

(** [s.slice(1)] *)
Definition slice_1 (s : string) : string :=
  match s with
  | EmptyString => EmptyString
  | String _ s1 => s1
  end.

(** The route [useHashRoute] reads: [location.hash.slice(1) || "/login"]. *)
Definition useHashRoute (hash : string) : string :=
  if decide (slice_1 hash = EmptyString) then "/login" else slice_1 hash.

(** [routeTo(r)]: the hash it sets. *)
Definition routeTo (r : string) : string := "#" +:+ r.

(** What [Guard] returns: [null] after sending the browser to the login
    page, the access-denied notice, or its children. *)
Inductive guarded (A : Type) : Type :=
  | ToLogin
  | AccessDenied (role : string)
  | Children (children : A).

Arguments ToLogin {A}.
Arguments AccessDenied {A} role.
Arguments Children {A} children.

(** [Guard({ allow, children })] *)
Definition Guard {A : Type} (st : storage) (allow : list string) (children : A)
  : guarded A :=
  match getAuth st with
  | None => ToLogin
  | Some a =>
      if decide (a_role a ∈ allow) then Children children
      else AccessDenied (a_role a)
  end.

(** An entry of the navigation of [Sidebar]. *)
Record nav_item : Type := mk_nav_item {
  n_to : string;
  n_label : string;
  adminOnly : bool
}.

Definition items : list nav_item :=
  [mk_nav_item "/dashboard" "Dashboard" false;
   mk_nav_item "/receipt" "Stock Receipt" false;
   mk_nav_item "/dispatch" "Stock Dispatch" false;
   mk_nav_item "/inventory" "Inventory" false;
   mk_nav_item "/transport" "Transport Log" false;
   mk_nav_item "/users" "Users" true].

(** The buttons [Sidebar] renders: an entry is left out when
    [it.adminOnly && auth?.role !== "Admin"]. *)
Definition Sidebar (st : storage) : list nav_item :=
  filter (fun it => ~ (adminOnly it = true
                       /\ a_role <$> getAuth st <> Some "Admin")) items.

(** The pages of the router. *)
Inductive page : Type :=
  | DashboardPage
  | ReceiptPage
  | DispatchPage
  | InventoryPage
  | TransportPage
  | UsersPage.

Global Instance page_eq_dec : EqDecision page.
Proof. solve_decision. Defined.

(** The route table of [App]. *)
Definition page_of_route (route : string) : option page :=
  if decide (route = "/dashboard") then Some DashboardPage
  else if decide (route = "/receipt") then Some ReceiptPage
  else if decide (route = "/dispatch") then Some DispatchPage
  else if decide (route = "/inventory") then Some InventoryPage
  else if decide (route = "/transport") then Some TransportPage
  else if decide (route = "/users") then Some UsersPage
  else None.

(** The [allow] list of the [Guard] a page wraps its content in;
    [DashboardPage] has no guard. *)
Definition page_allow (p : page) : option (list string) :=
  match p with
  | DashboardPage => None
  | ReceiptPage | DispatchPage => Some ["Admin"; "Supervisor"]
  | InventoryPage | TransportPage => Some ["Admin"; "Supervisor"; "Viewer"]
  | UsersPage => Some ["Admin"]
  end.

(** What the user gets to see. *)
Inductive view : Type :=
  | RedirectToLogin
  | Login
  | Page (p : page)
  | Denied (p : page) (role : string)
  | NotFound.

(** The content a page component renders in the shell. *)
Definition render_page (st : storage) (p : page) : view :=
  match page_allow p with
  | None => Page p
  | Some allow =>
      match Guard st allow p with
      | ToLogin => RedirectToLogin
      | AccessDenied r => Denied p r
      | Children p1 => Page p1
      end
  end.

(** [App()] for the route [useHashRoute] gives. *)
Definition App (st : storage) (route : string) : view :=
  match getAuth st with
  | None => if decide (route = "/login") then Login else RedirectToLogin
  | Some _ =>
      if decide (route = "/login") then Login
      else match page_of_route route with
           | Some p => render_page st p
           | None => NotFound
           end
  end.

(** A store holding the document [doc] and a session for role [r]. *)
Definition session (doc : option document) (e r n : string) : storage :=
  mk_storage doc (Some (mk_auth e r n)).

(** ** Inventory tabs: [InventoryPage] *)

Definition status_name (s : status) : string :=
  match s with
  | Bonded => "Bonded"
  | FAK => "FAK"
  | OnSite => "On Site"
  | InTransit => "In Transit"
  | Dispatched => "Dispatched"
  end.

Definition statuses : list status := [Bonded; FAK; OnSite; InTransit; Dispatched].

(** The [rows] of the table for the selected [filter] button. *)
Definition InventoryPage_rows (db : DB) (tab : string) : list snapshot :=
  filter (fun i => tab = "All" \/ status_name (i_status i) = tab)
         (inventory_snapshot db).

(** ** Dashboard figures: [DashboardPage] *)

(** [v || 0] for a number or an absent property. *)
Definition Z_or_0 (o : option Z) : Z :=
  match o with
  | Some v => if decide (v = 0) then 0 else v
  | None => 0
  end.

Definition Q_or_0 (o : option Q) : Q :=
  match o with
  | Some v => if Qeq_dec v 0 then 0%Q else v
  | None => 0%Q
  end.

#[local] Arguments Z_or_0 : simpl never.
#[local] Arguments Q_or_0 : simpl never.

(** [m[k] = f(m[k])] on an object whose keys keep their insertion order
    (none of them is an array index); an absent property reads as
    [undefined], here [None]. *)
Fixpoint assign {K V : Type} `{EqDecision K} (k : K) (f : option V -> V)
  (m : list (K * V)) : list (K * V) :=
  match m with
  | [] => [(k, f None)]
  | (k1, v) :: m1 =>
      if decide (k1 = k) then (k1, f (Some v)) :: m1
      else (k1, v) :: assign k f m1
  end.

(** [totals.onSite] *)
Definition onSite (db : DB) : Z :=
  fold_left (fun a b => a + Z_or_0 (Some (i_quantity b)))
    (filter (fun i => i_status i = OnSite) (inventory_snapshot db)) 0.

(** [doughnutData]: the slices, in the order of [Object.entries]; the name of
    a slice is [status_name] of its status. *)
Definition doughnutData (db : DB) : list (status * Z) :=
  fold_left (fun counts i =>
               assign (i_status i) (fun o => Z_or_0 o + i_quantity i) counts)
    (inventory_snapshot db) ((fun k => (k, 0)) <$> statuses).

(** [fuelByVehicle] *)
Definition fuelByVehicle (db : DB) : list (string * Q) :=
  fold_left (fun m t =>
               assign (t_vehicle_reg t)
                 (fun o => (Q_or_0 o + Q_or_0 (Some (fuel_used_l t)))%Q) m)
    (transport_trips db) [].

(** Sums over rows, for the statements. *)
Definition total_quantity (l : list snapshot) : Z :=
  foldr (fun i s => i_quantity i + s) 0 l.

(** The additions [fuelByVehicle] makes for one vehicle whose trips are [l],
    in their order: the bar is absent before the first trip, and each trip
    turns the bar [o] into [(o || 0) + (t.fuel_used_l || 0)]. *)
Definition running_fuel (l : list trip) : option Q :=
  fold_left (fun o t => Some (Q_or_0 o + Q_or_0 (Some (fuel_used_l t)))%Q)
            l None.

Definition history_quantity (l : list movement_row) : Z :=
  foldr (fun e s => m_qty e + s) 0 l.

(** ** Vehicles and trips: [VehicleStatusCards], [TransportPage],
    [TripHistoryModal] *)

(** [Array.from(new Set(arr))]: the distinct elements, each at the place of
    its first occurrence. *)
Definition Set_add {A : Type} `{EqDecision A} (acc : list A) (x : A) : list A :=
  if decide (x ∈ acc) then acc else acc ++ [x].

Definition Set_from {A : Type} `{EqDecision A} (arr : list A) : list A :=
  fold_left Set_add arr [].

(** [db.transport_trips.filter(t => t.vehicle_reg === v).sort((a, b) =>
    new Date(b.start_time) - new Date(a.start_time))]: the [rows] of
    [TripHistoryModal], and the list whose first element the cards show. *)
Definition TripHistoryModal_rows (db : DB) (vehicle : string) : list trip :=
  Array_sort (fun a b => start_time b - start_time a)
             (filter (fun t => t_vehicle_reg t = vehicle) (transport_trips db)).

(** [DataTable]: the state [sort] is a column and a direction; the table of
    [TripHistoryModal] starts on its first column, [start_time], ascending,
    and a click on a header takes that column and turns the direction. *)
Inductive sort_dir : Type :=
  | asc
  | desc.

Definition toggle (dir : sort_dir) : sort_dir :=
  match dir with asc => desc | desc => asc end.

(** The comparator of [DataTable] for a column whose values are instants.
    The code compares the texts: those [toISOString] gives have one width
    for the years 0000 to 9999, so [===] and [>] on them are [=] and [>] on
    the instants. *)
Definition DataTable_compare {A : Type} (key : A -> Z) (dir : sort_dir)
  (a b : A) : Z :=
  let av := key a in
  let bv := key b in
  if decide (av = bv) then 0
  else (if decide (av > bv) then 1 else -1)
       * (match dir with asc => 1 | desc => -1 end).

(** [filtered] of [DataTable] while the filter text is empty: every row
    passes, and the copy is sorted. *)
Definition DataTable_filtered {A : Type} (key : A -> Z) (dir : sort_dir)
  (rows : list A) : list A :=
  Array_sort (DataTable_compare key dir) rows.

(** What [TripHistoryModal] lists: its [rows], through the table. *)
Definition TripHistoryModal_listed (db : DB) (vehicle : string)
  (dir : sort_dir) : list trip :=
  DataTable_filtered start_time dir (TripHistoryModal_rows db vehicle).

Record vehicle_card : Type := mk_vehicle_card {
  c_vehicle_reg : string;
  c_status : trip_status;
  c_driver : string
}.

(** [{ vehicle_reg: v, status: t?.trip_status || "Idle",
       driver: t?.driver_name || "-" }] for the first row [t], if any. *)
Definition latest_card (db : DB) (v : string) : vehicle_card :=
  let t := head (TripHistoryModal_rows db v) in
  mk_vehicle_card v
    (match t with Some t => t_trip_status t | None => Idle end)
    (match t with
     | Some t => if decide (t_driver_name t = EmptyString) then "-"
                 else t_driver_name t
     | None => "-"
     end).

(** [latestByVehicle] of [VehicleStatusCards]; [TransportPage] renders the
    same cards. *)
Definition VehicleStatusCards (db : DB) : list vehicle_card :=
  latest_card db <$> Set_from (t_vehicle_reg <$> transport_trips db).




Section Transport.

Variable base36 : Q -> string.
Variable random : nat -> Q.
Variable now : Z.
Variable tz : calendar.








End Transport.

(** ** Invariants of the inventory, for the statements *)

(** A snapshot row as the handlers and the seed keep it: amounts are not
    negative and a row marked Dispatched holds nothing. *)
Definition snapshot_ok (inv : snapshot) : Prop :=
  0 <= i_quantity inv /\ (0 <= i_weight_kg inv)%Q
  /\ (i_status inv = Dispatched -> i_quantity inv = 0).

(** The temporary password [forgot] issues for the sample [u]. *)
Definition temp_of (u : Q) : string :=
  "Temp" +:+ pretty (Qfloor (u * inject_Z (99999 - 10000 + 1))%Q + 10000) +:+ "!".

(** [m[k]] on such an object. *)
Fixpoint entry {K V : Type} `{EqDecision K} (k : K) (m : list (K * V)) : option V :=
  match m with
  | [] => None
  | (k1, v) :: m1 => if decide (k1 = k) then Some v else entry k m1
  end.

(** The sum of the values of a chart. *)
Definition chart_total (m : list (status * Z)) : Z :=
  foldr (fun e s => e.2 + s) 0 m.

(** * Properties *)

(** ** Lookup and in-place update of a snapshot row *)

Lemma list_find_insert_same {A : Type} (P : A -> Prop) `{forall x, Decision (P x)}
  (l : list A) k x y :
  list_find P l = Some (k, x) -> P y -> list_find P (<[k := y]> l) = Some (k, y).
Proof.
  intros Hf Hy. apply list_find_Some in Hf as (Hk & _ & Hleast).
  apply list_find_Some. split_and!.
  - apply list_lookup_insert_eq. by eapply lookup_lt_Some.
  - done.
  - intros j z Hj Hlt. rewrite list_lookup_insert_ne in Hj by lia. eauto.
Qed.

Lemma find_snapshot_insert c l k inv inv1 :
  find_snapshot c l = Some (k, inv) ->
  i_cargo_id inv1 = c ->
  find_snapshot c (<[k := inv1]> l) = Some (k, inv1).
Proof.
  unfold find_snapshot. intros Hf Hc.
  by apply (list_find_insert_same (fun i => i_cargo_id i = c) l k inv inv1).
Qed.

Lemma find_snapshot_push c l inv :
  find_snapshot c l = None ->
  i_cargo_id inv = c ->
  find_snapshot c (l ++ [inv]) = Some (length l, inv).
Proof.
  unfold find_snapshot. intros Hf Hc.
  rewrite list_find_app_r by done. simpl.
  rewrite decide_True by done. simpl. reflexivity.
Qed.

Lemma find_snapshot_cargo c l k inv :
  find_snapshot c l = Some (k, inv) -> i_cargo_id inv = c.
Proof. unfold find_snapshot. intros Hf. by apply list_find_Some in Hf as (_ & ? & _). Qed.

(** What [ReceiptPage.save] leaves under the receipt's cargo id. *)
Lemma ReceiptPage_save_find base36 u db newRec :
  let c := r_cargo_id newRec in
  find_snapshot c (inventory_snapshot (ReceiptPage_save base36 u db newRec)) =
  match find_snapshot c (inventory_snapshot db) with
  | Some (k, inv) =>
      Some (k, mk_snapshot (i_id inv) (i_cargo_id inv) OnSite
                           (i_quantity inv + quantity newRec)
                           (i_weight_kg inv + weight_kg newRec) (date_in newRec))
  | None =>
      Some (length (inventory_snapshot db),
            mk_snapshot (uid base36 "inv" u) c OnSite
                        (0 + quantity newRec) (0 + weight_kg newRec) (date_in newRec))
  end.
Proof.
  intros c. unfold ReceiptPage_save. simpl. fold c.
  destruct (find_snapshot c (inventory_snapshot db)) as [[k inv]|] eqn:Hf; simpl.
  - eapply find_snapshot_insert; [done|]. simpl. by eapply find_snapshot_cargo.
  - eapply find_snapshot_insert; [|done]. by apply find_snapshot_push.
Qed.

(** What [DispatchPage.save] leaves under the dispatch's cargo id. *)
Lemma DispatchPage_save_find db newD :
  let c := d_cargo_id newD in
  find_snapshot c (inventory_snapshot (DispatchPage_save db newD)) =
  match find_snapshot c (inventory_snapshot db) with
  | Some (k, inv) =>
      let q := Z.max 0 (i_quantity inv - qty_packed newD) in
      Some (k, mk_snapshot (i_id inv) (i_cargo_id inv)
                           (if decide (q = 0) then Dispatched else i_status inv)
                           q (Qmax 0 (i_weight_kg inv - total_weight_kg newD))
                           (date_dispatched newD))
  | None => None
  end.
Proof.
  intros c. unfold DispatchPage_save. simpl. fold c.
  destruct (find_snapshot c (inventory_snapshot db)) as [[k inv]|] eqn:Hf; simpl.
  - eapply find_snapshot_insert; [done|]. simpl. by eapply find_snapshot_cargo.
  - done.
Qed.

(** C2: a dispatch against an existing snapshot leaves that snapshot with a
    quantity and a weight that are not negative; when more is packed than is
    on hand the quantity is exactly zero, and whenever the resulting quantity
    is zero the status is "Dispatched". *)
Theorem dispatch_never_negative db newD k inv :
  find_snapshot (d_cargo_id newD) (inventory_snapshot db) = Some (k, inv) ->
  exists inv1,
    find_snapshot (d_cargo_id newD)
      (inventory_snapshot (DispatchPage_save db newD)) = Some (k, inv1)
    /\ 0 <= i_quantity inv1
    /\ (0 <= i_weight_kg inv1)%Q
    /\ (i_quantity inv < qty_packed newD -> i_quantity inv1 = 0)
    /\ (i_quantity inv1 = 0 -> i_status inv1 = Dispatched).
Proof.
  intros Hf. pose proof (DispatchPage_save_find db newD) as Hs.
  simpl in Hs. rewrite Hf in Hs. eexists. split; [exact Hs|]. simpl.
  split_and!.
  - lia.
  - apply Q.le_max_l.
  - lia.
  - intros Hq. by rewrite decide_True.
Qed.

(** C3, as stated, fails on the position: the record is not appended; it
    becomes the first row of the dispatches collection. *)
Lemma dispatch_prepended_counterexample :
  let d0 := form_dispatch "CG-98" 1 5 30 in
  let d1 := form_dispatch "CG-99" 2 5 30 in
  let db := DispatchPage_save empty_db d0 in
  find_snapshot "CG-99" (inventory_snapshot db) = None
  /\ dispatches db = [d0]
  /\ dispatches (DispatchPage_save db d1) = [d1; d0]
  /\ dispatches (DispatchPage_save db d1) <> dispatches db ++ [d1].
Proof. split_and!; [reflexivity..|discriminate]. Qed.

(** C3 (amended): a dispatch whose cargo id has no snapshot is put at the
    front of the dispatches collection and the inventory collection is left
    entirely as it was (no snapshot created, none altered), as is every other
    collection of the ledger. *)
Theorem dispatch_unknown_cargo db newD :
  find_snapshot (d_cargo_id newD) (inventory_snapshot db) = None ->
  dispatches (DispatchPage_save db newD) = newD :: dispatches db
  /\ inventory_snapshot (DispatchPage_save db newD) = inventory_snapshot db
  /\ DispatchPage_save db newD = set_dispatches (newD :: dispatches db) db.
Proof.
  intros Hf. unfold DispatchPage_save. simpl. by rewrite Hf.
Qed.

(** C9: after [ReceiptPage.save] the snapshot of the receipt's cargo id
    exists and has status "On Site", whatever its status was before (so a
    "Dispatched" snapshot is "On Site" again); its quantity is the previous
    one, or zero for a new snapshot, plus the receipt's. *)
Theorem receipt_sets_on_site base36 u db newRec :
  exists k inv1,
    find_snapshot (r_cargo_id newRec)
      (inventory_snapshot (ReceiptPage_save base36 u db newRec)) = Some (k, inv1)
    /\ i_status inv1 = OnSite
    /\ i_quantity inv1 =
       default 0 (i_quantity <$> (snd <$>
         find_snapshot (r_cargo_id newRec) (inventory_snapshot db)))
       + quantity newRec.
Proof.
  pose proof (ReceiptPage_save_find base36 u db newRec) as Hs. simpl in Hs.
  destruct (find_snapshot (r_cargo_id newRec) (inventory_snapshot db))
    as [[k inv]|] eqn:Hf; eexists _, _; (split; [exact Hs|]); done.
Qed.

(** ** Sequences of movements on one cargo id *)

Lemma apply_movement_stock base36 db m :
  stock_of (movement_cargo m) (apply_movement base36 db m)
  = on_hand_step (stock_of (movement_cargo m) db) m.
Proof.
  unfold stock_of. destruct m as [u r|d]; simpl.
  - pose proof (ReceiptPage_save_find base36 u db r) as Hs. simpl in Hs.
    rewrite Hs. clear Hs. by destruct (find_snapshot _ (inventory_snapshot db)) as [[k inv]|].
  - pose proof (DispatchPage_save_find db d) as Hs. simpl in Hs.
    rewrite Hs. clear Hs. by destruct (find_snapshot _ (inventory_snapshot db)) as [[k inv]|].
Qed.

Lemma apply_movements_stock base36 c ms : forall db,
  Forall (fun m => movement_cargo m = c) ms ->
  stock_of c (apply_movements base36 db ms)
  = fold_left on_hand_step ms (stock_of c db).
Proof.
  unfold apply_movements.
  induction ms as [|m ms IH]; intros db Hc; [done|].
  apply Forall_cons in Hc as [Hm Hc]. simpl. rewrite IH by done.
  f_equal. subst c. apply apply_movement_stock.
Qed.

Lemma on_hand_none_iff ms :
  fold_left on_hand_step ms None = None <-> Forall is_ship ms.
Proof.
  assert (Hsome : forall ms b, is_Some b -> is_Some (fold_left on_hand_step ms b)).
  { clear. induction ms as [|m ms IH]; intros b Hb; [done|]. simpl. apply IH.
    destruct Hb as [[q w] ->]. by destruct m. }
  induction ms as [|[u r|d] ms IH]; simpl.
  - by split.
  - split.
    + intros Hn. destruct (Hsome ms (Some (0 + quantity r, (0 + weight_kg r)%Q)))
        as [x Hx]; [done|]. congruence.
    + intros H. by apply Forall_cons in H as [[] _].
  - rewrite IH. split; [by constructor|]. intros H. by apply Forall_cons in H as [_ ?].
Qed.

(** Case analysis on [Qmax 0 x], closing the linear goals. *)
Ltac qmax_cases x :=
  let H := fresh "Hmax" in
  destruct (Q.max_spec 0 x) as [[? H]|[? H]]; try lra.

(** Without any assumption on the order of the movements the quantity on
    hand is at least the net total, and the weight on hand is not negative. *)
Lemma on_hand_lower_bound ms : forall b,
  Forall nonnegative ms ->
  0 <= stock_quantity b -> (0 <= stock_weight b)%Q ->
  let b1 := fold_left on_hand_step ms b in
  0 <= stock_quantity b1
  /\ stock_quantity b + received_quantity ms - dispatched_quantity ms
     <= stock_quantity b1
  /\ (0 <= stock_weight b1)%Q.
Proof.
  induction ms as [|m ms IH]; intros b Hnn Hq Hw; simpl.
  - split_and!; [done|lia|done].
  - apply Forall_cons in Hnn as [Hm Hnn].
    pose proof (IH (on_hand_step b m) Hnn) as IH1. clear IH.
    unfold stock_quantity, stock_weight in *.
    destruct m as [u r|d], b as [[q w]|]; simpl in *; destruct Hm as [Hmq Hmw].
    + destruct IH1 as (?&?&?); [lia|lra|]. split_and!; [done|lia|done].
    + destruct IH1 as (?&?&?); [lia|lra|]. split_and!; [done|lia|done].
    + destruct IH1 as (?&?&?); [lia|apply Q.le_max_l|].
      split_and!; [done|lia|done].
    + destruct IH1 as (?&?&?); [lia|lra|]. split_and!; [done|lia|done].
Qed.

(** When no dispatch packs more units than are on hand, the quantity on hand
    is exactly the net total. *)
Lemma on_hand_exact ms : forall b,
  Forall nonnegative ms -> within_stock b ms ->
  0 <= stock_quantity b ->
  let b1 := fold_left on_hand_step ms b in
  stock_quantity b1
  = stock_quantity b + received_quantity ms - dispatched_quantity ms.
Proof.
  induction ms as [|m ms IH]; intros b Hnn Hin Hq; simpl.
  - lia.
  - apply Forall_cons in Hnn as [Hm Hnn]. destruct Hin as [Hd Hin].
    pose proof (IH (on_hand_step b m) Hnn Hin) as IH1. clear IH.
    unfold stock_quantity in *.
    destruct m as [u r|d], b as [[q w]|]; simpl in *; destruct Hm as [Hmq Hmw];
      lia.
Qed.

(** C1, as stated, fails: receive 5, dispatch 10, receive 5 on "CG-1" leaves
    5 on hand (and 30 kg), while the net total [max(0, 10 - 10)] is 0. *)
Lemma net_total_counterexample :
  let ms := [Receive 0 (form_receipt "CG-1" 0 5 30);
             Ship (form_dispatch "CG-1" 1 10 60);
             Receive 0 (form_receipt "CG-1" 2 5 30)] in
  find_snapshot "CG-1" (inventory_snapshot empty_db) = None
  /\ Forall (fun m => movement_cargo m = "CG-1") ms
  /\ Forall nonnegative ms
  /\ exists k inv,
       find_snapshot "CG-1"
         (inventory_snapshot (apply_movements plain36 empty_db ms)) = Some (k, inv)
       /\ i_quantity inv = 5
       /\ Z.max 0 (received_quantity ms - dispatched_quantity ms) = 0
       /\ i_quantity inv <> Z.max 0 (received_quantity ms - dispatched_quantity ms)
       /\ ~ (i_weight_kg inv
             == Qmax 0 (received_weight ms - dispatched_weight ms))%Q.
Proof.
  split_and!.
  - reflexivity.
  - repeat constructor.
  - repeat constructor; discriminate.
  - eexists _, _. split; [vm_compute; reflexivity|].
    split_and!; [reflexivity|reflexivity|discriminate|].
    vm_compute. discriminate.
Qed.

(** C1 (amended): starting without a snapshot for the cargo id, the snapshot
    that a sequence of receipts and dispatches of that id leaves holds the
    running stock, quantity and weight: a receipt adds, a dispatch subtracts
    and floors at zero, a dispatch before the first receipt changes nothing
    (and there is no snapshot exactly when there was no receipt).  With
    non-negative amounts the quantity is at least [max(0, receipts -
    dispatches)] and the weight is not negative; the quantity is equal to
    [max(0, receipts - dispatches)] when no dispatch packs more units than
    are on hand at the time it is applied.  The weight is stated as the
    running total only, the additions and subtractions of the handlers in
    their order: no closed sum is stated for it. *)
Theorem net_total_within_stock base36 db c ms :
  find_snapshot c (inventory_snapshot db) = None ->
  Forall (fun m => movement_cargo m = c) ms ->
  match find_snapshot c (inventory_snapshot (apply_movements base36 db ms)) with
  | Some (_, inv) =>
      on_hand_after ms = Some (i_quantity inv, i_weight_kg inv)
      /\ (Forall nonnegative ms ->
          Z.max 0 (received_quantity ms - dispatched_quantity ms)
          <= i_quantity inv
          /\ (0 <= i_weight_kg inv)%Q)
      /\ (Forall nonnegative ms -> within_stock None ms ->
          i_quantity inv
          = Z.max 0 (received_quantity ms - dispatched_quantity ms))
  | None => Forall is_ship ms
  end.
Proof.
  intros Hnone Hc.
  pose proof (apply_movements_stock base36 c ms db Hc) as Hs.
  unfold stock_of in Hs. rewrite Hnone in Hs. simpl in Hs.
  destruct (find_snapshot c (inventory_snapshot (apply_movements base36 db ms)))
    as [[k inv]|]; simpl in Hs.
  - split; [done|]. split.
    + intros Hnn.
      destruct (on_hand_lower_bound ms None Hnn) as (Hq0 & Hq & Hw0);
        [done|done|].
      rewrite <- Hs in Hq0, Hq, Hw0.
      unfold stock_quantity, stock_weight in *. simpl in *. split; [lia|done].
    + intros Hnn Hin.
      destruct (on_hand_lower_bound ms None Hnn) as (Hq0 & _ & _);
        [done|done|].
      pose proof (on_hand_exact ms None Hnn Hin ltac:(done)) as Hq.
      rewrite <- Hs in Hq0, Hq.
      unfold stock_quantity in *. simpl in *. lia.
  - by apply on_hand_none_iff.
Qed.

(** The scenario of the specification: 50 units / 300 kg received, then
    20 units / 120 kg dispatched, on a ledger without snapshots. *)
Lemma net_total_within_stock_witness :
  let ms := [Receive 0 (form_receipt "CG-1" 0 50 300);
             Ship (form_dispatch "CG-1" 1 20 120)] in
  find_snapshot "CG-1" (inventory_snapshot empty_db) = None
  /\ Forall (fun m => movement_cargo m = "CG-1") ms
  /\ match find_snapshot "CG-1"
             (inventory_snapshot (apply_movements plain36 empty_db ms)) with
     | Some (_, inv) =>
         on_hand_after ms = Some (i_quantity inv, i_weight_kg inv)
         /\ (Forall nonnegative ms ->
             Z.max 0 (received_quantity ms - dispatched_quantity ms)
             <= i_quantity inv
             /\ (0 <= i_weight_kg inv)%Q)
         /\ (Forall nonnegative ms -> within_stock None ms ->
             i_quantity inv
             = Z.max 0 (received_quantity ms - dispatched_quantity ms))
     | None => Forall is_ship ms
     end.
Proof.
  intros ms.
  assert (H1 : find_snapshot "CG-1" (inventory_snapshot empty_db) = None)
    by reflexivity.
  assert (H2 : Forall (fun m => movement_cargo m = "CG-1") ms)
    by (repeat constructor).
  split; [exact H1|]. split; [exact H2|].
  exact (net_total_within_stock plain36 empty_db "CG-1" ms H1 H2).
Defined.

(** The same scenario evaluated: 30 units and 180 kg are left, "On Site". *)
Example receipt_then_dispatch_scenario :
  snd <$> find_snapshot "CG-1"
    (inventory_snapshot (apply_movements plain36 empty_db
       [Receive 0 (form_receipt "CG-1" 0 50 300);
        Ship (form_dispatch "CG-1" 1 20 120)]))
  = Some (mk_snapshot "inv_x" "CG-1" OnSite 30 (Qmax 0 (0 + 300 - 120)) 1).
Proof. reflexivity. Qed.

(** A dispatch of everything on hand: quantity 0, "Dispatched"; a later
    receipt brings the snapshot back to "On Site". *)
Example dispatch_all_then_receive :
  (fun i => (i_status i, i_quantity i)) <$> (snd <$> find_snapshot "CG-2"
    (inventory_snapshot (apply_movements plain36 empty_db
       [Receive 0 (form_receipt "CG-2" 0 10 60);
        Ship (form_dispatch "CG-2" 1 10 60)]))) = Some (Dispatched, 0)
  /\ (fun i => (i_status i, i_quantity i)) <$> (snd <$> find_snapshot "CG-2"
    (inventory_snapshot (apply_movements plain36 empty_db
       [Receive 0 (form_receipt "CG-2" 0 10 60);
        Ship (form_dispatch "CG-2" 1 10 60);
        Receive 0 (form_receipt "CG-2" 2 5 30)]))) = Some (OnSite, 5).
Proof. split; reflexivity. Qed.

(** ** [Array_sort] with a comparator that subtracts keys *)

Section SortByKey.

Context {A : Type} (key : A -> Z).

Let by_key (a b : A) : Z := key a - key b.

Lemma sort_insert_perm x l : sort_insert by_key x l ≡ₚ x :: l.
Proof.
  induction l as [|y l IH]; simpl; [done|].
  case_decide; [done|]. rewrite IH. apply Permutation_swap.
Qed.

Lemma Array_sort_perm l : Array_sort by_key l ≡ₚ l.
Proof.
  induction l as [|x l IH]; simpl; [done|].
  by rewrite sort_insert_perm, IH.
Qed.

Lemma sort_insert_sorted x l :
  StronglySorted (fun a b => key a <= key b) l ->
  StronglySorted (fun a b => key a <= key b) (sort_insert by_key x l).
Proof.
  induction 1 as [|y l Hs IH Hy]; simpl.
  - repeat constructor.
  - case_decide as Hxy; unfold by_key in Hxy.
    + constructor; [by constructor|]. constructor; [lia|].
      eapply Forall_impl; [exact Hy|]. simpl. intros; lia.
    + constructor; [done|].
      rewrite (sort_insert_perm x l). constructor; [lia|done].
Qed.

Lemma Array_sort_sorted l :
  StronglySorted (fun a b => key a <= key b) (Array_sort by_key l).
Proof.
  induction l as [|x l IH]; simpl; [constructor|]. by apply sort_insert_sorted.
Qed.

(** Stability: the elements of one key keep the order they had. *)
Lemma sort_insert_stable t x l :
  filter (fun a => key a = t) (sort_insert by_key x l)
  = filter (fun a => key a = t) (x :: l).
Proof.
  induction l as [|y l IH]; simpl; [done|].
  case_decide as Hxy; unfold by_key in Hxy; [done|].
  rewrite filter_cons, IH, !filter_cons.
  destruct (decide (key y = t)), (decide (key x = t)); try done. lia.
Qed.

Lemma Array_sort_stable t l :
  filter (fun a => key a = t) (Array_sort by_key l)
  = filter (fun a => key a = t) l.
Proof.
  induction l as [|x l IH]; simpl; [done|].
  by rewrite sort_insert_stable, !filter_cons, IH.
Qed.

End SortByKey.

Lemma StronglySorted_lookup {A : Type} (R : A -> A -> Prop) (l : list A) :
  StronglySorted R l ->
  forall (i j : nat) a b, (i < j)%nat -> l !! i = Some a -> l !! j = Some b -> R a b.
Proof.
  induction 1 as [|x l Hs IH Hx]; intros i j a b Hij Hi Hj; [done|].
  destruct j as [|j]; [lia|]. destruct i as [|i]; simpl in *.
  - injection Hi as <-. eapply Forall_forall; [exact Hx|].
    by eapply list_elem_of_lookup_2.
  - eapply (IH i j); [lia|done..].
Qed.

(** ** Loading the document *)

Lemma seedIfNeeded_truthy base36 random now tz st :
  item_truthy (cc_seed_v1 st) = true -> seedIfNeeded base36 random now tz st = st.
Proof. intros H. unfold seedIfNeeded. by rewrite H. Qed.

Lemma getDB_present base36 random now tz st db :
  cc_seed_v1 st = Some (Json db) ->
  getDB base36 random now tz st = (Returned db, st).
Proof.
  intros H. unfold getDB. rewrite seedIfNeeded_truthy by (by rewrite H).
  by rewrite H.
Qed.

(** A missing item, or an empty text, is replaced by generated data. *)
Lemma getDB_missing base36 random now tz st :
  item_truthy (cc_seed_v1 st) = false ->
  let db := fst (seed_db base36 random now tz 0%nat) in
  getDB base36 random now tz st = (Returned db, setDB db st).
Proof. intros H. unfold getDB, seedIfNeeded. by rewrite H. Qed.

(** A text that is not empty and does not parse is kept, and the parse
    error leaves [getDB]. *)
Lemma getDB_unparseable base36 random now tz st text :
  cc_seed_v1 st = Some (Unparseable text) -> text <> "" ->
  getDB base36 random now tz st = (Threw SyntaxError, st).
Proof.
  intros H Ht. unfold getDB. rewrite seedIfNeeded_truthy.
  - by rewrite H.
  - rewrite H. unfold item_truthy. by rewrite decide_False.
Qed.

(** C5: on a stored text that does not parse, [getDB] neither reseeds nor
    returns: the store keeps the text and the call ends with the syntax
    error of [JSON.parse]. *)
Theorem getDB_corrupt_document base36 random now tz :
  let st := mk_storage (Some (Unparseable "{oops")) None in
  getDB base36 random now tz st = (Threw SyntaxError, st)
  /\ seedIfNeeded base36 random now tz st = st.
Proof.
  split.
  - by eapply getDB_unparseable.
  - by apply seedIfNeeded_truthy.
Qed.

(** Saving puts the new record at the head of its collection and leaves the
    other collection as it was. *)
Lemma ReceiptPage_save_collections base36 u db newRec :
  warehouse_receipts (ReceiptPage_save base36 u db newRec)
  = newRec :: warehouse_receipts db
  /\ dispatches (ReceiptPage_save base36 u db newRec) = dispatches db.
Proof.
  unfold ReceiptPage_save. simpl. by destruct (find_snapshot _ _) as [[??]|].
Qed.

Lemma DispatchPage_save_collections db newD :
  warehouse_receipts (DispatchPage_save db newD) = warehouse_receipts db
  /\ dispatches (DispatchPage_save db newD) = newD :: dispatches db.
Proof.
  unfold DispatchPage_save. simpl. by destruct (find_snapshot _ _) as [[??]|].
Qed.

(** C4, as stated, fails on the ties: two receipts of "CG-1" of one date are
    saved, the one of 1 unit first and the one of 2 units second; the drawer
    lists the second before the first. *)
Lemma movement_history_insertion_counterexample :
  let first := form_receipt "CG-1" 5 1 10 in
  let second := form_receipt "CG-1" 5 2 20 in
  let db := ReceiptPage_save plain36 0
              (ReceiptPage_save plain36 0 empty_db first) second in
  let st := mk_storage (Some (Json db)) None in
  let cargo := mk_snapshot "inv_x" "CG-1" OnSite 3 30 5 in
  find_snapshot "CG-1" (inventory_snapshot db) = Some (0%nat, cargo)
  /\ date_in first = date_in second
  /\ MovementDrawer plain36 (fun _ => 0%Q) 0 utc st cargo
     = (Returned [mk_movement_row Receipt 5 2 "10000";
                  mk_movement_row Receipt 5 1 "10000"], st)
  /\ [mk_movement_row Receipt 5 2 "10000"; mk_movement_row Receipt 5 1 "10000"]
     <> [mk_movement_row Receipt 5 1 "10000"; mk_movement_row Receipt 5 2 "10000"].
Proof.
  split_and!; [reflexivity|reflexivity|reflexivity|discriminate].
Qed.

(** C4 (amended): the rows of the movement drawer are in non-decreasing date
    order; the rows of one date are the receipts of that date, in the order
    of the receipts collection, followed by the dispatches of that date, in
    the order of the dispatches collection; and showing them leaves the store
    as it was.  The order of a collection is not the order of insertion: the
    row of a receipt that [ReceiptPage.save] has just saved is the first of
    the rows of its date, and the row of a dispatch that [DispatchPage.save]
    has just saved is the first of the dispatches of its date, after the
    receipts of that date. *)
Theorem movement_history_sorted_stable base36 random now tz st db cargo :
  cc_seed_v1 st = Some (Json db) ->
  let c := i_cargo_id cargo in
  MovementDrawer base36 random now tz st cargo = (Returned (movement_rows db c), st)
  /\ (forall (i j : nat) a b, (i < j)%nat ->
        movement_rows db c !! i = Some a -> movement_rows db c !! j = Some b ->
        m_date a <= m_date b)
  /\ movement_rows db c ≡ₚ receipt_rows db c ++ dispatch_rows db c
  /\ (forall t,
        filter (fun e => m_date e = t) (movement_rows db c)
        = filter (fun e => m_date e = t) (receipt_rows db c)
          ++ filter (fun e => m_date e = t) (dispatch_rows db c))
  /\ (forall u r, r_cargo_id r = c ->
        filter (fun e => m_date e = date_in r)
               (movement_rows (ReceiptPage_save base36 u db r) c)
        = mk_movement_row Receipt (date_in r) (quantity r) (indent_number r)
          :: filter (fun e => m_date e = date_in r) (movement_rows db c))
  /\ (forall d, d_cargo_id d = c ->
        filter (fun e => m_date e = date_dispatched d)
               (movement_rows (DispatchPage_save db d) c)
        = filter (fun e => m_date e = date_dispatched d) (receipt_rows db c)
          ++ mk_movement_row Dispatch (date_dispatched d) (- qty_packed d)
                             (d_container_no d)
             :: filter (fun e => m_date e = date_dispatched d)
                       (dispatch_rows db c)).
Proof.
  intros Hst c. split_and!.
  - unfold MovementDrawer. by rewrite (getDB_present _ _ _ _ _ db).
  - apply (StronglySorted_lookup (fun a b => m_date a <= m_date b)).
    apply (Array_sort_sorted m_date).
  - apply (Array_sort_perm m_date).
  - intros t. unfold movement_rows.
    by rewrite (Array_sort_stable m_date), filter_app.
  - intros u r Hc. unfold movement_rows.
    rewrite !(Array_sort_stable m_date), !filter_app.
    unfold receipt_rows, dispatch_rows.
    destruct (ReceiptPage_save_collections base36 u db r) as [-> ->].
    rewrite filter_cons_True by done. rewrite fmap_cons.
    by rewrite filter_cons_True by done.
  - intros d Hc. unfold movement_rows.
    rewrite (Array_sort_stable m_date), filter_app.
    unfold receipt_rows, dispatch_rows.
    destruct (DispatchPage_save_collections db d) as [-> ->].
    rewrite filter_cons_True by done. rewrite fmap_cons.
    by rewrite filter_cons_True by done.
Qed.

(** A ledger whose collections hold two receipts and a dispatch of one date
    and an earlier dispatch. *)
Lemma movement_history_sorted_stable_witness :
  let db := mk_DB [form_receipt "CG-1" 5 50 300; form_receipt "CG-2" 5 1 1;
                   form_receipt "CG-1" 5 7 40]
                  [form_dispatch "CG-1" 5 20 120; form_dispatch "CG-1" 3 1 1]
                  [mk_snapshot "inv_x" "CG-1" OnSite 36 219 3] [] [] [] ∅ in
  let st := mk_storage (Some (Json db)) None in
  let cargo := mk_snapshot "inv_x" "CG-1" OnSite 36 219 3 in
  cc_seed_v1 st = Some (Json db)
  /\ MovementDrawer plain36 (fun _ => 0%Q) 0 utc st cargo
     = (Returned (movement_rows db "CG-1"), st)
  /\ movement_rows db "CG-1"
     = [mk_movement_row Dispatch 3 (-1) "MSCU1000000";
        mk_movement_row Receipt 5 50 "10000";
        mk_movement_row Receipt 5 7 "10000";
        mk_movement_row Dispatch 5 (-20) "MSCU1000000"].
Proof.
  intros db st cargo. split; [reflexivity|]. split; [|reflexivity].
  apply (movement_history_sorted_stable plain36 (fun _ => 0%Q) 0 utc st db cargo).
  reflexivity.
Defined.

(** A dispatch of 25 units against 10 on hand. *)
Lemma dispatch_never_negative_witness :
  let db := ReceiptPage_save plain36 0 empty_db (form_receipt "CG-1" 0 10 60) in
  let newD := form_dispatch "CG-1" 1 25 100 in
  let inv := mk_snapshot "inv_x" "CG-1" OnSite (0 + 10) (0 + 60) 0 in
  find_snapshot "CG-1" (inventory_snapshot db) = Some (0%nat, inv)
  /\ exists inv1,
       find_snapshot "CG-1" (inventory_snapshot (DispatchPage_save db newD))
       = Some (0%nat, inv1)
       /\ 0 <= i_quantity inv1
       /\ (0 <= i_weight_kg inv1)%Q
       /\ (i_quantity inv < qty_packed newD -> i_quantity inv1 = 0)
       /\ (i_quantity inv1 = 0 -> i_status inv1 = Dispatched).
Proof.
  intros db newD inv. split; [reflexivity|].
  apply (dispatch_never_negative db newD 0%nat inv). reflexivity.
Defined.

(** ** Sign-in *)

Lemma find_user_email e l k u : find_user e l = Some (k, u) -> email u = e.
Proof. unfold find_user. intros Hf. by apply list_find_Some in Hf as (_ & ? & _). Qed.

Lemma password_ok_true db e password :
  passwords db !! e = Some password -> password <> "" ->
  password_ok db e password = true.
Proof.
  intros Hp Hne. unfold password_ok. rewrite Hp.
  rewrite decide_False by done. by apply bool_decide_eq_true.
Qed.

Lemma password_ok_false db e password :
  passwords db !! e <> Some password -> password_ok db e password = false.
Proof.
  intros Hp. unfold password_ok. destruct (passwords db !! e) as [q|]; [|done].
  case_decide; [done|]. apply bool_decide_eq_false. congruence.
Qed.

(** The permanent password is checked first; when it matches, only the
    session item is written. *)
Lemma doLogin_permanent base36 random now tz st db e password k u :
  cc_seed_v1 st = Some (Json db) ->
  find_user e (users db) = Some (k, u) ->
  passwords db !! e = Some password -> password <> "" ->
  doLogin base36 random now tz st e password
  = (Navigated "#/dashboard", setAuth (mk_auth e (role u) (name u)) st).
Proof.
  intros Hst Hu Hp Hne. unfold doLogin.
  rewrite (getDB_present _ _ _ _ _ db Hst), Hu.
  by rewrite password_ok_true.
Qed.

(** C10: when the submitted (non-empty) password is the stored permanent
    password of a user, sign-in succeeds through the permanent branch and the
    stored document, with every [tempPassword], is left as it was.  An
    invitation stores the temporary password as the permanent one too, so the
    sign-in of an invited user with it takes that branch and the invited row
    keeps its [tempPassword]. *)
Theorem permanent_password_first base36 random now tz :
  (forall st db e password k u,
     cc_seed_v1 st = Some (Json db) ->
     find_user e (users db) = Some (k, u) ->
     passwords db !! e = Some password -> password <> "" ->
     doLogin base36 random now tz st e password
     = (Navigated "#/dashboard", setAuth (mk_auth e (role u) (name u)) st)
     /\ cc_seed_v1 (snd (doLogin base36 random now tz st e password))
        = Some (Json db))
  /\ (forall st db f,
        let db1 := UsersPage_invite db f in
        cc_seed_v1 st = Some (Json db1) ->
        f_tempPassword f <> "" ->
        exists k u,
          find_user (f_email f) (users db1) = Some (k, u)
          /\ doLogin base36 random now tz st (f_email f) (f_tempPassword f)
             = (Navigated "#/dashboard",
                setAuth (mk_auth (f_email f) (role u) (name u)) st)
          /\ cc_seed_v1
               (snd (doLogin base36 random now tz st (f_email f) (f_tempPassword f)))
             = Some (Json db1)
          /\ tempPassword <$> last (users db1) = Some (Some (f_tempPassword f))).
Proof.
  split.
  - intros st db e password k u Hst Hu Hp Hne.
    rewrite (doLogin_permanent _ _ _ _ st db e password k u) by done. done.
  - intros st db f db1 Hst Hne.
    assert (Hin : is_Some (find_user (f_email f) (users db1))).
    { unfold find_user.
      apply (list_find_elem_of _ _
               (mk_user (f_id f) (f_email f) (f_role f) (f_name f)
                        (Some (f_tempPassword f)))); [|done].
      subst db1. simpl. apply elem_of_app. right. apply elem_of_cons. by left. }
    destruct Hin as [[k u] Hu]. exists k, u. split; [done|].
    assert (Hp : passwords db1 !! f_email f = Some (f_tempPassword f)).
    { subst db1. simpl. apply lookup_insert_eq. }
    rewrite (doLogin_permanent _ _ _ _ st db1 _ _ k u) by done.
    split_and!; [done|done|]. subst db1. simpl. by rewrite last_snoc.
Qed.

(** An invitation on the empty document, and the invited user's sign-in. *)
Lemma permanent_password_first_witness :
  let f := mk_invite_form "usr_x" "new@curiata.dev" "New User" "Viewer"
                          "Temp12345!" in
  let db1 := UsersPage_invite empty_db f in
  let st := mk_storage (Some (Json db1)) None in
  cc_seed_v1 st = Some (Json db1)
  /\ f_tempPassword f <> ""
  /\ exists k u,
       find_user "new@curiata.dev" (users db1) = Some (k, u)
       /\ doLogin plain36 (fun _ => 0%Q) 0 utc st "new@curiata.dev" "Temp12345!"
          = (Navigated "#/dashboard",
             setAuth (mk_auth "new@curiata.dev" (role u) (name u)) st)
       /\ cc_seed_v1
            (snd (doLogin plain36 (fun _ => 0%Q) 0 utc st "new@curiata.dev" "Temp12345!"))
          = Some (Json db1)
       /\ tempPassword <$> last (users db1) = Some (Some "Temp12345!").
Proof.
  intros f db1 st.
  assert (H1 : cc_seed_v1 st = Some (Json db1)) by reflexivity.
  assert (H2 : f_tempPassword f <> "") by discriminate.
  split; [exact H1|]. split; [exact H2|].
  exact (proj2 (permanent_password_first plain36 (fun _ => 0%Q) 0 utc) st empty_db f H1 H2).
Defined.

(** C6, as stated, fails for an invited user: the temporary password of the
    invitation is outstanding, the first sign-in with it succeeds, and the
    stored row still carries it. *)
Lemma temp_password_counterexample :
  let f := mk_invite_form "usr_x" "new@curiata.dev" "New User" "Viewer"
                          "Temp12345!" in
  let db := UsersPage_invite empty_db f in
  let st := mk_storage (Some (Json db)) None in
  let u := mk_user "usr_x" "new@curiata.dev" "Viewer" "New User"
                   (Some "Temp12345!") in
  find_user "new@curiata.dev" (users db) = Some (0%nat, u)
  /\ tempPassword u = Some "Temp12345!"
  /\ doLogin plain36 (fun _ => 0%Q) 0 utc st "new@curiata.dev" "Temp12345!"
     = (Navigated "#/dashboard",
        mk_storage (Some (Json db))
                   (Some (mk_auth "new@curiata.dev" "Viewer" "New User")))
  /\ tempPassword <$> (snd <$> find_user "new@curiata.dev" (users db))
     = Some (Some "Temp12345!")
  /\ tempPassword <$> (snd <$> find_user "new@curiata.dev" (users db))
     <> Some None.
Proof.
  intros f db st u.
  assert (Hu : find_user "new@curiata.dev" (users db) = Some (0%nat, u))
    by reflexivity.
  split_and!; [exact Hu|reflexivity| |by rewrite Hu|by rewrite Hu].
  rewrite (doLogin_permanent _ _ _ _ st db _ _ 0%nat u); [done..| |done].
  subst db. simpl. apply lookup_insert_eq.
Qed.

(** C6 (amended): for a user whose outstanding temporary password is not
    empty and is not also the stored permanent password, the first sign-in with
    it succeeds, clears the user's [tempPassword] and stores the password as
    the permanent one; from then on the password no longer matches as a
    temporary credential, and a second sign-in with it succeeds through the
    permanent password, changing nothing. *)
Theorem temp_password_consumed base36 random now tz st db e p k u :
  cc_seed_v1 st = Some (Json db) ->
  find_user e (users db) = Some (k, u) ->
  tempPassword u = Some p -> p <> "" ->
  passwords db !! e <> Some p ->
  let db1 := set_passwords (<[e := p]> (passwords db))
               (set_users (<[k := clear_temp u]> (users db)) db) in
  let st1 := setAuth (mk_auth e (role u) (name u)) (setDB db1 st) in
  doLogin base36 random now tz st e p = (Navigated "#/dashboard", st1)
  /\ find_user e (users db1) = Some (k, clear_temp u)
  /\ tempPassword (clear_temp u) = None
  /\ passwords db1 !! e = Some p
  /\ temp_ok (clear_temp u) p = false
  /\ password_ok db1 e p = true
  /\ doLogin base36 random now tz st1 e p = (Navigated "#/dashboard", st1).
Proof.
  intros Hst Hu Ht Hne Hp db1 st1.
  assert (Hu1 : find_user e (users db1) = Some (k, clear_temp u)).
  { subst db1. simpl. unfold find_user.
    eapply list_find_insert_same; [exact Hu|]. simpl. by eapply find_user_email. }
  assert (Hp1 : passwords db1 !! e = Some p).
  { subst db1. simpl. apply lookup_insert_eq. }
  split_and!; [|done|done|done|done|by apply password_ok_true|].
  - unfold doLogin. rewrite (getDB_present _ _ _ _ _ db Hst), Hu.
    rewrite password_ok_false by done.
    unfold temp_ok. rewrite Ht. by rewrite bool_decide_eq_true_2.
  - by rewrite (doLogin_permanent _ _ _ _ st1 db1 e p k (clear_temp u)).
Qed.

(** The administrator asks for a temporary password, then signs in with
    it. *)
Lemma temp_password_consumed_witness :
  let admin := mk_user "usr_x" "admin@curiata.dev" "Admin" "Admin User" None in
  let db0 := mk_DB [] [] [] [] [] [admin] seed_passwords in
  let st := snd (forgot plain36 (fun _ => 0%Q) 0 utc (1 # 2)
                   (mk_storage (Some (Json db0)) None) "admin@curiata.dev") in
  let u := mk_user "usr_x" "admin@curiata.dev" "Admin" "Admin User"
                   (Some "Temp55000!") in
  let db := set_users [u] db0 in
  let db1 := set_passwords (<["admin@curiata.dev" := "Temp55000!"]> (passwords db))
               (set_users (<[0%nat := clear_temp u]> (users db)) db) in
  let st1 := setAuth (mk_auth "admin@curiata.dev" "Admin" "Admin User")
                     (setDB db1 st) in
  (cc_seed_v1 st = Some (Json db)
   /\ find_user "admin@curiata.dev" (users db) = Some (0%nat, u)
   /\ tempPassword u = Some "Temp55000!"
   /\ "Temp55000!" <> ""
   /\ passwords db !! "admin@curiata.dev" <> Some "Temp55000!")
  /\ doLogin plain36 (fun _ => 0%Q) 0 utc st "admin@curiata.dev" "Temp55000!"
     = (Navigated "#/dashboard", st1)
  /\ doLogin plain36 (fun _ => 0%Q) 0 utc st1 "admin@curiata.dev" "Temp55000!"
     = (Navigated "#/dashboard", st1).
Proof.
  intros admin db0 st u db db1 st1.
  assert (H1 : cc_seed_v1 st = Some (Json db)) by reflexivity.
  assert (H2 : find_user "admin@curiata.dev" (users db) = Some (0%nat, u))
    by reflexivity.
  assert (H3 : tempPassword u = Some "Temp55000!") by reflexivity.
  assert (H4 : "Temp55000!" <> "") by discriminate.
  assert (H5 : passwords db !! "admin@curiata.dev" <> Some "Temp55000!").
  { intros H. vm_compute in H. discriminate H. }
  split; [by split_and!|].
  pose proof (temp_password_consumed plain36 (fun _ => 0%Q) 0 utc st db
                "admin@curiata.dev" "Temp55000!" 0%nat u H1 H2 H3 H4 H5) as H.
  split; [exact (proj1 H)|].
  exact (proj2 (proj2 (proj2 (proj2 (proj2 (proj2 H)))))).
Defined.

(** A dispatch for "CG-99" on a ledger that only knows "CG-1". *)
Lemma dispatch_unknown_cargo_witness :
  let db := ReceiptPage_save plain36 0 empty_db (form_receipt "CG-1" 0 10 60) in
  let newD := form_dispatch "CG-99" 1 5 30 in
  find_snapshot "CG-99" (inventory_snapshot db) = None
  /\ dispatches (DispatchPage_save db newD) = newD :: dispatches db
  /\ inventory_snapshot (DispatchPage_save db newD) = inventory_snapshot db
  /\ DispatchPage_save db newD = set_dispatches (newD :: dispatches db) db.
Proof.
  intros db newD. split; [reflexivity|].
  apply (dispatch_unknown_cargo db newD). reflexivity.
Defined.

(** ** The seed generator: [byCargo] *)

Lemma lookup_upsert_eq c init f m :
  lookup_tally c (upsert c init f m) = Some (f (default init (lookup_tally c m))).
Proof.
  induction m as [|[k v] m IH]; simpl.
  - by rewrite decide_True.
  - destruct (decide (k = c)); simpl.
    + by rewrite decide_True.
    + by rewrite decide_False.
Qed.

Lemma lookup_upsert_ne c c1 init f m :
  c <> c1 -> lookup_tally c1 (upsert c init f m) = lookup_tally c1 m.
Proof.
  intros Hne. induction m as [|[k v] m IH]; simpl.
  - by rewrite decide_False.
  - destruct (decide (k = c)) as [->|]; simpl.
    + by rewrite !decide_False.
    + by rewrite IH.
Qed.

Lemma upsert_keys c init f m k :
  k ∈ (upsert c init f m).*1 <-> k = c \/ k ∈ m.*1.
Proof.
  induction m as [|[k1 v] m IH]; simpl.
  - rewrite list_elem_of_singleton, elem_of_nil. tauto.
  - destruct (decide (k1 = c)) as [->|]; simpl; rewrite !elem_of_cons.
    + tauto.
    + rewrite IH. tauto.
Qed.

Lemma upsert_NoDup c init f m : NoDup m.*1 -> NoDup (upsert c init f m).*1.
Proof.
  induction m as [|[k1 v] m IH]; simpl; intros Hnd.
  - apply NoDup_singleton.
  - apply NoDup_cons in Hnd as [Hk Hnd].
    destruct (decide (k1 = c)) as [->|Hne]; simpl.
    + by apply NoDup_cons.
    + apply NoDup_cons. split; [|by apply IH].
      rewrite upsert_keys. intros [?|?]; done.
Qed.

Lemma lookup_tally_elem c v m :
  NoDup m.*1 -> (c, v) ∈ m -> lookup_tally c m = Some v.
Proof.
  induction m as [|[k1 v1] m IH]; simpl; intros Hnd Hin.
  - by apply elem_of_nil in Hin.
  - apply NoDup_cons in Hnd as [Hk Hnd].
    apply elem_of_cons in Hin as [[= <- <-]|Hin].
    + by rewrite decide_True.
    + rewrite decide_False; [by apply IH|].
      intros ->. apply Hk. apply list_elem_of_fmap. by exists (c, v).
Qed.

Lemma tally_receipt_lookup c m r :
  lookup_tally c (tally_receipt m r)
  = if decide (r_cargo_id r = c)
    then Some (mk_tally (tally_quantity (lookup_tally c m) + quantity r)
                        (tally_weight (lookup_tally c m) + weight_kg r)
                        (date_in r))
    else lookup_tally c m.
Proof.
  unfold tally_receipt. case_decide as Hc.
  - subst c. rewrite lookup_upsert_eq. by destruct (lookup_tally _ m).
  - by rewrite lookup_upsert_ne.
Qed.

Lemma tally_dispatch_lookup c m d :
  lookup_tally c (tally_dispatch m d)
  = if decide (d_cargo_id d = c)
    then Some (mk_tally (tally_quantity (lookup_tally c m) - qty_packed d)
                        (tally_weight (lookup_tally c m) - total_weight_kg d)
                        (date_dispatched d))
    else lookup_tally c m.
Proof.
  unfold tally_dispatch. case_decide as Hc.
  - subst c. rewrite lookup_upsert_eq. by destruct (lookup_tally _ m).
  - by rewrite lookup_upsert_ne.
Qed.

Lemma fold_tally_receipt_totals c rs : forall m,
  let m1 := fold_left tally_receipt rs m in
  tally_quantity (lookup_tally c m1)
  = tally_quantity (lookup_tally c m) + receipts_quantity c rs
  /\ (tally_weight (lookup_tally c m1)
      == tally_weight (lookup_tally c m) + receipts_weight c rs)%Q.
Proof.
  unfold receipts_quantity, receipts_weight.
  induction rs as [|r rs IH]; intros m; simpl.
  - split; [lia|lra].
  - destruct (IH (tally_receipt m r)) as [Hq Hw]. rewrite Hq, Hw.
    rewrite tally_receipt_lookup, filter_cons.
    case_decide; unfold tally_quantity, tally_weight; simpl; (split; [lia|lra]).
Qed.

Lemma fold_tally_dispatch_totals c ds : forall m,
  let m1 := fold_left tally_dispatch ds m in
  tally_quantity (lookup_tally c m1)
  = tally_quantity (lookup_tally c m) - dispatches_quantity c ds
  /\ (tally_weight (lookup_tally c m1)
      == tally_weight (lookup_tally c m) - dispatches_weight c ds)%Q.
Proof.
  unfold dispatches_quantity, dispatches_weight.
  induction ds as [|d ds IH]; intros m; simpl.
  - split; [lia|lra].
  - destruct (IH (tally_dispatch m d)) as [Hq Hw]. rewrite Hq, Hw.
    rewrite tally_dispatch_lookup, filter_cons.
    case_decide; unfold tally_quantity, tally_weight; simpl; (split; [lia|lra]).
Qed.

Lemma fold_tally_receipt_keys rs : forall m k,
  k ∈ (fold_left tally_receipt rs m).*1 <-> k ∈ m.*1 \/ k ∈ r_cargo_id <$> rs.
Proof.
  induction rs as [|r rs IH]; intros m k; simpl.
  - rewrite elem_of_nil. tauto.
  - rewrite IH. unfold tally_receipt at 1.
    rewrite upsert_keys, elem_of_cons. intuition congruence.
Qed.

Lemma fold_tally_dispatch_keys ds : forall m k,
  k ∈ (fold_left tally_dispatch ds m).*1 <-> k ∈ m.*1 \/ k ∈ d_cargo_id <$> ds.
Proof.
  induction ds as [|d ds IH]; intros m k; simpl.
  - rewrite elem_of_nil. tauto.
  - rewrite IH. unfold tally_dispatch at 1.
    rewrite upsert_keys, elem_of_cons. intuition congruence.
Qed.

Lemma fold_tally_receipt_NoDup rs : forall m,
  NoDup m.*1 -> NoDup (fold_left tally_receipt rs m).*1.
Proof.
  induction rs as [|r rs IH]; intros m Hnd; simpl; [done|].
  apply IH. by apply upsert_NoDup.
Qed.

Lemma fold_tally_dispatch_NoDup ds : forall m,
  NoDup m.*1 -> NoDup (fold_left tally_dispatch ds m).*1.
Proof.
  induction ds as [|d ds IH]; intros m Hnd; simpl; [done|].
  apply IH. by apply upsert_NoDup.
Qed.

(** Each entry of [byCargo] holds the net totals of its cargo id; there is
    one entry per cargo id that occurs. *)
Lemma byCargo_totals rs ds c v :
  (c, v) ∈ byCargo rs ds ->
  tl_quantity v = receipts_quantity c rs - dispatches_quantity c ds
  /\ (tl_weight_kg v == receipts_weight c rs - dispatches_weight c ds)%Q.
Proof.
  intros Hin. unfold byCargo in Hin.
  assert (Hl : lookup_tally c (fold_left tally_dispatch ds
                 (fold_left tally_receipt rs [])) = Some v).
  { apply lookup_tally_elem; [|done].
    apply fold_tally_dispatch_NoDup, fold_tally_receipt_NoDup. constructor. }
  destruct (fold_tally_dispatch_totals c ds (fold_left tally_receipt rs []))
    as [Hq Hw].
  destruct (fold_tally_receipt_totals c rs []) as [Hq0 Hw0].
  simpl in *. rewrite Hl in Hq, Hw. rewrite Hq0 in Hq. rewrite Hw0 in Hw.
  unfold tally_quantity, tally_weight in *. simpl in *. split; [lia|lra].
Qed.

Lemma byCargo_keys rs ds c :
  c ∈ (byCargo rs ds).*1 <-> c ∈ r_cargo_id <$> rs \/ c ∈ d_cargo_id <$> ds.
Proof.
  unfold byCargo. rewrite fold_tally_dispatch_keys, fold_tally_receipt_keys.
  simpl. rewrite elem_of_nil. tauto.
Qed.

Lemma byCargo_NoDup rs ds : NoDup (byCargo rs ds).*1.
Proof.
  apply fold_tally_dispatch_NoDup, fold_tally_receipt_NoDup. constructor.
Qed.

(** ** The seed generator: samples, rounding *)

(** [Math.floor(u * k)] for a sample [u] and [k] choices is one of
    [0 .. k-1]. *)
Lemma floor_sample_range (u : Q) (k : Z) :
  (0 <= u)%Q -> (u < 1)%Q -> 0 < k ->
  0 <= Qfloor (u * inject_Z k) < k.
Proof.
  intros Hu0 Hu1 Hk.
  assert (HK : (0 < inject_Z k)%Q).
  { change 0%Q with (inject_Z 0). by rewrite <- Zlt_Qlt. }
  split.
  - apply (Qfloor_resp_le 0 (u * inject_Z k)).
    apply Qmult_le_0_compat; [done|]. by apply Qlt_le_weak.
  - rewrite Zlt_Qlt. eapply Qle_lt_trans; [apply Qfloor_le|].
    apply Qlt_le_trans with (1 * inject_Z k)%Q; [by apply Qmult_lt_r|lra].
Qed.

Lemma rand_range random min max n :
  unit_samples random -> min <= max ->
  min <= fst (rand random min max n) <= max.
Proof.
  intros Hr Hmm. unfold rand, bind, Math_random, ret. simpl.
  destruct (Hr n) as [H0 H1].
  pose proof (floor_sample_range (random n) (max - min + 1) H0 H1 ltac:(lia)).
  lia.
Qed.

(** Rounding to one decimal moves a non-negative number by at most 0.05. *)
Lemma toFixed_1_near (x : Q) :
  (0 <= x)%Q ->
  (x - (1 # 20) <= toFixed x 1)%Q /\ (toFixed x 1 <= x + (1 # 20))%Q.
Proof.
  intros Hx. unfold toFixed.
  change (10 ^ 1) with 10. change (inject_Z 10) with 10%Q.
  change (Z.to_pos 10) with 10%positive.
  destruct (Qlt_le_dec x 0) as [Hneg|_]; [lra|].
  set (m := Qfloor (Qabs x * 10 + (1 # 2))).
  pose proof (Qfloor_le (Qabs x * 10 + (1 # 2))) as Hlo.
  pose proof (Qlt_floor (Qabs x * 10 + (1 # 2))) as Hhi.
  fold m in Hlo, Hhi. rewrite inject_Z_plus in Hhi.
  change (inject_Z 1) with 1%Q in Hhi.
  rewrite (Qabs_pos x Hx) in Hlo, Hhi.
  assert (Hm : (m # 10 == inject_Z m * (1 # 10))%Q).
  { unfold Qeq, Qmult, inject_Z. simpl. lia. }
  rewrite Hm. split; lra.
Qed.

(** A value drawn by [numberBetween(a, b, 1)] lies between the bounds, up
    to the rounding. *)
Lemma numberBetween_range random (a b : Q) n :
  unit_samples random -> (0 <= a)%Q -> (a <= b)%Q ->
  let w := fst (numberBetween random a b 1 n) in
  (a - (1 # 20) <= w)%Q /\ (w <= b + (1 # 20))%Q.
Proof.
  intros Hr Ha Hab. unfold numberBetween, bind, Math_random, ret. simpl.
  destruct (Hr n) as [H0 H1].
  assert (Hp0 : (0 <= random n * (b - a))%Q)
    by (apply Qmult_le_0_compat; [done|lra]).
  assert (Hp1 : (random n * (b - a) <= 1 * (b - a))%Q)
    by (apply Qmult_le_compat_r; [by apply Qlt_le_weak|lra]).
  destruct (toFixed_1_near (random n * (b - a) + a)) as [Hlo Hhi]; [lra|].
  split; lra.
Qed.

(** ** The seed generator: the rows of [inventory_snapshot] *)

Lemma for_each_Forall2 {A B : Type} (f : A -> Rand B) (R : A -> B -> Prop) l :
  (forall a n, R a (fst (f a n))) ->
  forall n, Forall2 R l (fst (for_each f l n)).
Proof.
  intros Hf. induction l as [|a l IH]; intros n; simpl.
  - constructor.
  - unfold bind, ret. specialize (Hf a n).
    destruct (f a n) as [b n1]. specialize (IH n1).
    destruct (for_each f l n1) as [bs n2]. simpl in *. by constructor.
Qed.

Lemma choice_invStatuses random k :
  unit_samples random -> (choice random Bonded invStatuses k).1 ∈ invStatuses.
Proof.
  intros Hr. unfold choice, bind, ret.
  pose proof (rand_range random 0 (Z.of_nat (length invStatuses) - 1) k Hr) as Hi.
  destruct (rand random 0 (Z.of_nat (length invStatuses) - 1) k) as [i k1].
  simpl in *.
  assert (Hc : i = 0 \/ i = 1 \/ i = 2 \/ i = 3) by lia.
  unfold invStatuses.
  destruct Hc as [-> | [-> | [-> | -> ]]]; simpl; rewrite !elem_of_cons; tauto.
Qed.

Lemma seed_snapshot_unfold base36 random c v n :
  seed_snapshot base36 random (c, v) n
  = let p := (if decide (tl_quantity v <= 0) then ret Dispatched
              else choice random Bonded invStatuses) (S n) in
    let q := numberBetween random (Qmax 0 (tl_weight_kg v - 50))
               (Qmax 0 (tl_weight_kg v + 50)) 1 p.2 in
    (mk_snapshot (uid base36 "inv" (random n)) c p.1 (Z.max 0 (tl_quantity v))
                 (Qmax 0 q.1) (tl_last_movement v), q.2).
Proof.
  unfold seed_snapshot, draw_uid, bind, Math_random, ret.
  destruct (decide (tl_quantity v <= 0)); cbv beta iota zeta.
  - cbn [fst snd]. by destruct (numberBetween random _ _ 1 (S n)).
  - destruct (choice random Bonded invStatuses (S n)) as [st k].
    cbn [fst snd]. by destruct (numberBetween random _ _ 1 k).
Qed.

Lemma seed_snapshot_spec base36 random e n :
  unit_samples random ->
  snapshot_of_tally e (fst (seed_snapshot base36 random e n)).
Proof.
  intros Hr. destruct e as [c v]. rewrite seed_snapshot_unfold.
  unfold snapshot_of_tally. cbv zeta.
  cbn [fst snd i_cargo_id i_quantity i_status i_weight_kg last_movement].
  set (p := (if decide (tl_quantity v <= 0) then ret Dispatched
             else choice random Bonded invStatuses) (S n)).
  set (a := Qmax 0 (tl_weight_kg v - 50)). set (b := Qmax 0 (tl_weight_kg v + 50)).
  assert (Ha : (0 <= a)%Q) by apply Q.le_max_l.
  assert (Hab : (a <= b)%Q).
  { subst a b. qmax_cases (tl_weight_kg v - 50)%Q;
      qmax_cases (tl_weight_kg v + 50)%Q. }
  destruct (numberBetween_range random a b p.2 Hr Ha Hab) as [Hlo Hhi].
  set (w := (numberBetween random a b 1 p.2).1) in *.
  clearbody w a b.
  split_and!; [done|done| |apply Q.le_max_l| | |done].
  - subst p. case_decide; [done|]. by apply choice_invStatuses.
  - qmax_cases w.
  - qmax_cases w.
Qed.

(** The generated inventory is [seed_snapshot] mapped over the [byCargo] of
    the generated receipts and dispatches. *)
Lemma seed_db_inventory base36 random now tz n :
  let db := (seed_db base36 random now tz n).1 in
  exists k,
    inventory_snapshot db
    = (for_each (seed_snapshot base36 random)
         (byCargo (warehouse_receipts db) (dispatches db)) k).1.
Proof.
  unfold seed_db, draw_uid, bind, Math_random, ret.
  destruct (times 10 (seed_vehicle base36 random) n) as [vs n1].
  destruct (times 50 (seed_receipt base36 random tz _ vs) n1) as [rs n2].
  destruct (times 20 (seed_dispatch base36 random tz _ rs) n2) as [ds n3].
  destruct (for_each (seed_snapshot base36 random) (byCargo rs ds) n3)
    as [inv n4] eqn:Hinv.
  destruct (times 30 (seed_trip base36 random tz _ vs) n4) as [ts n5].
  cbn [fst inventory_snapshot warehouse_receipts dispatches].
  exists n3. by rewrite Hinv.
Qed.

Lemma Forall2_fmap_eq {A B C : Type} (f : A -> C) (g : B -> C) l1 l2 :
  Forall2 (fun a b => g b = f a) l1 l2 -> g <$> l2 = f <$> l1.
Proof. induction 1; simpl; [done|]. by f_equal. Qed.

(** C7 (amended): a seed run on a store without a (non-empty) item stores a
    document whose inventory has exactly one snapshot per cargo id occurring
    in its receipts or dispatches; the snapshot's quantity is the sum of that
    id's receipts minus the sum of its dispatches, clamped at zero; its status
    is "Dispatched" when that net quantity is at most 0 and otherwise one of
    Bonded, FAK, On Site, In Transit; its weight is not the net weight [w]
    but a value drawn between [max(0, w - 50)] and [max(0, w + 50)] and
    rounded to one decimal, hence not negative. *)
Theorem seed_inventory_derivation base36 random now tz st :
  unit_samples random ->
  item_truthy (cc_seed_v1 st) = false ->
  exists db,
    cc_seed_v1 (seedIfNeeded base36 random now tz st) = Some (Json db)
    /\ NoDup (i_cargo_id <$> inventory_snapshot db)
    /\ (forall c, c ∈ i_cargo_id <$> inventory_snapshot db
                  <-> c ∈ r_cargo_id <$> warehouse_receipts db
                      \/ c ∈ d_cargo_id <$> dispatches db)
    /\ Forall (fun inv =>
         let q := net_quantity db (i_cargo_id inv) in
         let w := net_weight db (i_cargo_id inv) in
         i_quantity inv = Z.max 0 q
         /\ (if decide (q <= 0) then i_status inv = Dispatched
             else i_status inv ∈ invStatuses)
         /\ (0 <= i_weight_kg inv)%Q
         /\ (Qmax 0 (w - 50) - (1 # 20) <= i_weight_kg inv)%Q
         /\ (i_weight_kg inv <= Qmax 0 (w + 50) + (1 # 20))%Q)
        (inventory_snapshot db).
Proof.
  intros Hr Hst. exists (seed_db base36 random now tz 0%nat).1.
  split. { unfold seedIfNeeded. by rewrite Hst. }
  destruct (seed_db_inventory base36 random now tz 0%nat) as [k Hinv].
  set (db := (seed_db base36 random now tz 0%nat).1) in *.
  unfold net_quantity, net_weight.
  set (rs := warehouse_receipts db) in *. set (ds := dispatches db) in *.
  pose proof (for_each_Forall2 (seed_snapshot base36 random) snapshot_of_tally
                (byCargo rs ds)
                (fun e n => seed_snapshot_spec base36 random e n Hr) k) as HF.
  rewrite <- Hinv in HF. clearbody db rs ds. clear Hinv.
  assert (Hids : i_cargo_id <$> inventory_snapshot db = (byCargo rs ds).*1).
  { apply Forall2_fmap_eq. eapply Forall2_impl; [exact HF|].
    by intros e inv (? & _). }
  split_and!.
  - rewrite Hids. apply byCargo_NoDup.
  - intros c. rewrite Hids. apply byCargo_keys.
  - apply Forall_forall. intros inv Hin.
    apply (Forall2_flip) in HF.
    apply list_elem_of_lookup in Hin as [i Hi].
    destruct (Forall2_lookup_l _ _ _ i inv HF Hi) as ([c v] & He & Hs).
    destruct Hs as (Hc & Hq & Hstat & Hw0 & Hlo & Hhi & _). simpl in *.
    apply list_elem_of_lookup_2 in He.
    destruct (byCargo_totals rs ds c v He) as [Hvq Hvw].
    rewrite Hc. rewrite <- Hvq. split_and!; [done|done|done|..].
    + qmax_cases (tl_weight_kg v - 50)%Q;
        qmax_cases (receipts_weight c rs - dispatches_weight c ds - 50)%Q.
    + qmax_cases (tl_weight_kg v + 50)%Q;
        qmax_cases (receipts_weight c rs - dispatches_weight c ds + 50)%Q.
Qed.

(** C7, as stated, fails on the weight: with every sample equal to 0 the
    seed run makes fifty receipts and twenty dispatches of "CG-100"; the
    receipts weigh 250 kg, the dispatches 100 kg, and the one snapshot weighs
    100 kg rather than 150 kg. *)
Lemma seed_weight_counterexample :
  let random := fun _ : nat => 0%Q in
  let st := mk_storage None None in
  let db := (seed_db plain36 random 0 utc 0%nat).1 in
  unit_samples random
  /\ item_truthy (cc_seed_v1 st) = false
  /\ cc_seed_v1 (seedIfNeeded plain36 random 0 utc st) = Some (Json db)
  /\ exists inv,
       inventory_snapshot db = [inv]
       /\ i_cargo_id inv = "CG-100"
       /\ i_quantity inv = 30
       /\ (receipts_weight "CG-100" (warehouse_receipts db) == 250)%Q
       /\ (dispatches_weight "CG-100" (dispatches db) == 100)%Q
       /\ (net_weight db "CG-100" == 150)%Q
       /\ (i_weight_kg inv == 100)%Q
       /\ ~ (i_weight_kg inv == Qmax 0 (net_weight db "CG-100"))%Q.
Proof.
  intros random st db. split_and!.
  - intros n. split; [discriminate|reflexivity].
  - reflexivity.
  - reflexivity.
  - exists (default (mk_snapshot "" "" Bonded 0 0 0) (head (inventory_snapshot db))).
    split_and!; try (vm_compute; reflexivity).
    vm_compute. discriminate.
Qed.

(** A seed run with every sample equal to one half. *)
Lemma seed_inventory_derivation_witness :
  let random := fun _ : nat => (1 # 2)%Q in
  let st := mk_storage None None in
  unit_samples random
  /\ item_truthy (cc_seed_v1 st) = false
  /\ exists db,
       cc_seed_v1 (seedIfNeeded plain36 random 0 utc st) = Some (Json db)
       /\ NoDup (i_cargo_id <$> inventory_snapshot db)
       /\ (forall c, c ∈ i_cargo_id <$> inventory_snapshot db
                     <-> c ∈ r_cargo_id <$> warehouse_receipts db
                         \/ c ∈ d_cargo_id <$> dispatches db)
       /\ Forall (fun inv =>
            let q := net_quantity db (i_cargo_id inv) in
            let w := net_weight db (i_cargo_id inv) in
            i_quantity inv = Z.max 0 q
            /\ (if decide (q <= 0) then i_status inv = Dispatched
                else i_status inv ∈ invStatuses)
            /\ (0 <= i_weight_kg inv)%Q
            /\ (Qmax 0 (w - 50) - (1 # 20) <= i_weight_kg inv)%Q
            /\ (i_weight_kg inv <= Qmax 0 (w + 50) + (1 # 20))%Q)
           (inventory_snapshot db).
Proof.
  intros random st.
  assert (H1 : unit_samples random).
  { intros n. split; [discriminate|reflexivity]. }
  assert (H2 : item_truthy (cc_seed_v1 st) = false) by reflexivity.
  split; [exact H1|]. split; [exact H2|].
  exact (seed_inventory_derivation plain36 random 0 utc st H1 H2).
Defined.

(** ** CSV: the export read back *)

Lemma append_assoc_str (a b c : string) : (a +:+ b) +:+ c = a +:+ (b +:+ c).
Proof. induction a as [|x a IH]; simpl; [done|]. by f_equal. Qed.

Lemma append_empty_r (a : string) : a +:+ EmptyString = a.
Proof. induction a as [|x a IH]; simpl; [done|]. by f_equal. Qed.

Lemma csv_run_app st a b :
  csv_run st (a +:+ b) = csv_run (csv_run st a) b.
Proof. revert st. induction a as [|x a IH]; intros st; simpl; [done|]. apply IH. Qed.

Lemma needs_quotes_cons c s :
  needs_quotes (String c s) = false ->
  c <> comma /\ c <> quote /\ c <> newline /\ needs_quotes s = false.
Proof.
  unfold needs_quotes. simpl. intros H.
  destruct (decide (c = comma)); [done|].
  destruct (decide (c = quote)); [by rewrite orb_true_r in H|].
  destruct (decide (c = newline)); [by rewrite orb_true_r in H|]. done.
Qed.

Lemma csv_separator_other c st :
  c <> comma -> c <> newline -> csv_separator c st = None.
Proof. intros. unfold csv_separator. by rewrite !decide_False. Qed.

(** A text without comma, quote or line feed is taken as it is. *)
Lemma csv_run_plain s : forall st,
  plain s -> csv_at st = FieldStart \/ csv_at st = Unquoted ->
  csv_run st s
  = mk_csv_state (csv_rows st) (csv_row st) (csv_field st +:+ s)
                 (match s with EmptyString => csv_at st | String _ _ => Unquoted end).
Proof.
  induction s as [|c s IH]; intros st Hp Hm; simpl.
  - rewrite append_empty_r. by destruct st.
  - apply needs_quotes_cons in Hp as (Hc & Hq & Hn & Hp).
    assert (Hstep : csv_step st c = csv_put c Unquoted st).
    { unfold csv_step. destruct Hm as [-> | ->].
      - rewrite decide_False by done. by rewrite csv_separator_other.
      - by rewrite csv_separator_other. }
    rewrite Hstep, IH; [|done|by right]. simpl.
    rewrite append_assoc_str. simpl. by destruct s.
Qed.

Lemma csv_step_open st :
  csv_at st = FieldStart ->
  csv_step st quote
  = mk_csv_state (csv_rows st) (csv_row st) (csv_field st) Quoted.
Proof. intros Hm. unfold csv_step. rewrite Hm. by case_decide. Qed.

Lemma csv_step_close st :
  csv_at st = Quoted ->
  csv_step st quote
  = mk_csv_state (csv_rows st) (csv_row st) (csv_field st) QuoteSeen.
Proof. intros Hm. unfold csv_step. rewrite Hm. by case_decide. Qed.

Lemma csv_step_doubled st :
  csv_at st = QuoteSeen -> csv_step st quote = csv_put quote Quoted st.
Proof. intros Hm. unfold csv_step. rewrite Hm. by case_decide. Qed.

Lemma csv_step_inside st c :
  csv_at st = Quoted -> c <> quote -> csv_step st c = csv_put c Quoted st.
Proof. intros Hm Hc. unfold csv_step. rewrite Hm. by case_decide. Qed.

(** Inside quotes, a doubled quote is one quote and everything else is
    taken as it is. *)
Lemma csv_run_quoted s : forall st,
  csv_at st = Quoted ->
  csv_run st (double_quotes s)
  = mk_csv_state (csv_rows st) (csv_row st) (csv_field st +:+ s) Quoted.
Proof.
  induction s as [|c s IH]; intros st Hm.
  - simpl. rewrite append_empty_r. destruct st. simpl in *. by subst.
  - cbn [double_quotes]. destruct (decide (c = quote)) as [->|Hc]; cbn [csv_run].
    + rewrite (csv_step_close st Hm), csv_step_doubled by done.
      rewrite IH by done. unfold csv_put. cbn [csv_rows csv_row csv_field].
      by rewrite append_assoc_str.
    + rewrite (csv_step_inside st c Hm Hc). rewrite IH by done.
      unfold csv_put. cbn [csv_rows csv_row csv_field].
      by rewrite append_assoc_str.
Qed.

Lemma csvEscape_text v : csvEscape v = escape_text (csv_text v).
Proof. by destruct v. Qed.

Lemma escape_text_plain s : plain s -> escape_text s = s.
Proof. unfold plain, escape_text. by intros ->. Qed.

(** An escaped field, read from the start of a field, gives the field back
    and leaves the reader outside quotes. *)
Lemma csv_run_escaped s st :
  csv_at st = FieldStart -> csv_field st = EmptyString ->
  exists m,
    csv_run st (escape_text s) = mk_csv_state (csv_rows st) (csv_row st) s m
    /\ m <> Quoted.
Proof.
  intros Hm Hf. unfold escape_text. destruct (needs_quotes s) eqn:Hq.
  - exists QuoteSeen. split; [|done]. cbn [csv_run].
    rewrite (csv_step_open st Hm), csv_run_app, csv_run_quoted by done.
    cbn [csv_run]. rewrite csv_step_close by done.
    cbn [csv_rows csv_row csv_field]. by rewrite Hf.
  - eexists. rewrite csv_run_plain; [|done|by left]. rewrite Hf. simpl.
    split; [done|]. destruct s; [by rewrite Hm|done].
Qed.

Lemma csv_step_comma st :
  csv_at st <> Quoted -> csv_step st comma = csv_end_field st.
Proof. intros Hm. unfold csv_step. by destruct (csv_at st). Qed.

Lemma csv_step_newline st :
  csv_at st <> Quoted -> csv_step st newline = csv_end_row st.
Proof. intros Hm. unfold csv_step. by destruct (csv_at st). Qed.

Lemma join_one sep x : join sep [x] = x.
Proof. done. Qed.

Lemma join_more sep x y l :
  join sep (x :: y :: l) = x +:+ sep +:+ join sep (y :: l).
Proof. done. Qed.

Lemma csv_run_line_cons fs : forall f st,
  csv_at st = FieldStart -> csv_field st = EmptyString ->
  csv_rows (csv_run st (join "," (escape_text <$> f :: fs))) = csv_rows st
  /\ csv_row (csv_run st (join "," (escape_text <$> f :: fs)))
     ++ [csv_field (csv_run st (join "," (escape_text <$> f :: fs)))]
     = csv_row st ++ f :: fs
  /\ csv_at (csv_run st (join "," (escape_text <$> f :: fs))) <> Quoted.
Proof.
  induction fs as [|g fs IH]; intros f st Hm Hf.
  - rewrite fmap_cons, fmap_nil, join_one.
    by destruct (csv_run_escaped f st Hm Hf) as (m & -> & Hq).
  - rewrite fmap_cons, fmap_cons, join_more, <- fmap_cons, !csv_run_app.
    destruct (csv_run_escaped f st Hm Hf) as (m & -> & Hq).
    change (csv_run ?s ",") with (csv_step s comma).
    rewrite csv_step_comma by done.
    destruct (IH g (csv_end_field
                      (mk_csv_state (csv_rows st) (csv_row st) f m)))
      as (Hr & Hrow & Hat); [done..|].
    rewrite Hr, Hrow. cbn [csv_end_field csv_rows csv_row csv_field].
    by rewrite <- app_assoc.
Qed.

(** A line of escaped fields, read from the start of a field, adds its
    fields to the row. *)
Lemma csv_run_line fs st :
  csv_at st = FieldStart -> csv_field st = EmptyString ->
  csv_rows (csv_run st (line_text fs)) = csv_rows st
  /\ csv_row (csv_run st (line_text fs)) ++ [csv_field (csv_run st (line_text fs))]
     = csv_row st ++ csv_fields fs
  /\ csv_at (csv_run st (line_text fs)) <> Quoted.
Proof.
  intros Hm Hf. unfold line_text. destruct fs as [|f fs].
  - cbn [fmap list_fmap join csv_run csv_fields]. by rewrite Hf, Hm.
  - by apply csv_run_line_cons.
Qed.

(** A text of several lines reads back as the lines' fields. *)
Lemma csv_run_lines ls : forall l st,
  csv_at st = FieldStart -> csv_field st = EmptyString -> csv_row st = [] ->
  let st1 := csv_run st (join (String newline EmptyString)
                           (line_text <$> l :: ls)) in
  csv_rows st1 ++ [csv_row st1 ++ [csv_field st1]]
  = csv_rows st ++ (csv_fields <$> l :: ls).
Proof.
  induction ls as [|l1 ls IH]; intros l st Hm Hf Hr; cbv zeta.
  - rewrite fmap_cons, fmap_nil, join_one.
    destruct (csv_run_line l st Hm Hf) as (-> & -> & _). by rewrite Hr.
  - rewrite fmap_cons, fmap_cons, join_more, <- fmap_cons, !csv_run_app.
    destruct (csv_run_line l st Hm Hf) as (Hrows & Hrow & Hat).
    change (csv_run ?s (String newline EmptyString)) with (csv_step s newline).
    rewrite csv_step_newline by done.
    rewrite (IH l1 (csv_end_row _)) by done.
    cbn [csv_end_row csv_rows]. rewrite Hrows, Hrow, Hr.
    rewrite <- app_assoc. by rewrite (fmap_cons csv_fields l).
Qed.

Lemma parse_csv_lines l ls :
  parse_csv (join (String newline EmptyString) (line_text <$> l :: ls))
  = csv_fields <$> l :: ls.
Proof.
  unfold parse_csv.
  by rewrite (csv_run_lines ls l (mk_csv_state [] [] EmptyString FieldStart)).
Qed.

Lemma prop_keys r : NoDup (Object_keys r) -> prop r <$> Object_keys r = r.*2.
Proof.
  unfold Object_keys. induction r as [|[k v] r IH]; intros Hnd; [done|].
  apply NoDup_cons in Hnd as [Hk Hnd]. cbn [fmap list_fmap fst snd prop].
  rewrite decide_True by done. f_equal. rewrite <- IH by done.
  apply list_fmap_ext. intros i h Hh. rewrite decide_False; [done|].
  intros ->. apply Hk. by eapply list_elem_of_lookup_2.
Qed.

Lemma escape_plain_fields hs : Forall plain hs -> escape_text <$> hs = hs.
Proof.
  induction 1 as [|h hs Hh _ IH]; [done|].
  by rewrite fmap_cons, IH, escape_text_plain.
Qed.

(** C8: for [N >= 1] rows whose field names (those of the first row)
    contain no comma, double quote or line feed, the export is the header line
    and one line per row, joined by line feeds ([N+1] lines); a field is
    written in double quotes, with its double quotes doubled, exactly when its
    text contains a comma, a double quote or a line feed; and reading the
    export back gives [N+1] rows: the field names, then for every row the text
    of its field under each name, which for rows of the same shape are all the
    fields of the row.  The text of a field is [String(v)], and empty for
    [null] and [undefined]; a row without fields reads back as one empty
    field. *)
Theorem exportCSV_round_trip filename r0 rest :
  let rows := r0 :: rest in
  let headers := Object_keys r0 in
  Forall plain headers ->
  exists csv lines,
    exportCSV filename rows = Some (filename +:+ ".csv", csv)
    /\ csv = join (String newline EmptyString) lines
    /\ lines = join "," headers
               :: ((fun r => join "," ((fun h => csvEscape (prop r h)) <$> headers))
                     <$> rows)
    /\ length lines = S (length rows)
    /\ (forall v,
          csvEscape v
          = if needs_quotes (csv_text v)
            then String quote (double_quotes (csv_text v)
                               +:+ String quote EmptyString)
            else csv_text v)
    /\ parse_csv csv
       = csv_fields
           <$> headers :: ((fun r => (fun h => csv_text (prop r h)) <$> headers)
                             <$> rows)
    /\ length (parse_csv csv) = S (length rows)
    /\ (forall r, r ∈ rows -> Object_keys r = headers -> NoDup (Object_keys r) ->
          (fun h => csv_text (prop r h)) <$> headers = csv_text <$> r.*2).
Proof.
  intros rows headers Hplain.
  assert (Htexts :
    join "," headers
    :: ((fun r => join "," ((fun h => csvEscape (prop r h)) <$> headers)) <$> rows)
    = line_text
        <$> headers :: ((fun r => (fun h => csv_text (prop r h)) <$> headers)
                          <$> rows)).
  { rewrite fmap_cons. unfold line_text at 1.
    rewrite (escape_plain_fields headers Hplain). f_equal.
    rewrite <- list_fmap_compose. apply list_fmap_ext. intros i r _.
    unfold line_text, compose.
    rewrite <- (list_fmap_compose (fun h => csv_text (prop r h)) escape_text).
    f_equal. apply list_fmap_ext. intros j h _. apply csvEscape_text. }
  set (lines := join "," headers
    :: ((fun r => join "," ((fun h => csvEscape (prop r h)) <$> headers))
          <$> rows)) in *.
  exists (join (String newline EmptyString) lines), lines. split_and!.
  - reflexivity.
  - reflexivity.
  - reflexivity.
  - unfold lines. cbn [length]. by rewrite length_fmap.
  - intros v. by rewrite csvEscape_text.
  - rewrite Htexts. apply parse_csv_lines.
  - rewrite Htexts, parse_csv_lines.
    by rewrite !length_fmap, length_cons, length_fmap.
  - intros r _ Hk Hnd. rewrite <- (prop_keys r Hnd), Hk.
    by rewrite <- list_fmap_compose.
Qed.

(** The users table: a seeded user without temporary password and an
    invited one, whose name holds a comma and whose properties are in the
    order of the invitation form. *)
Lemma exportCSV_round_trip_witness :
  let r0 := user_object "usr_1" "admin@curiata.dev" "Admin" "Admin User" None in
  let r1 := [("id", JString "usr_2"); ("email", JString "new@curiata.dev");
             ("name", JString "Doe, Jo"); ("role", JString "Viewer");
             ("tempPassword", JString "Temp12345!")] in
  Forall plain (Object_keys r0)
  /\ exists csv,
       exportCSV "users" [r0; r1] = Some ("users.csv", csv)
       /\ parse_csv csv
          = [["id"; "email"; "role"; "name"; "tempPassword"];
             ["usr_1"; "admin@curiata.dev"; "Admin"; "Admin User"; ""];
             ["usr_2"; "new@curiata.dev"; "Viewer"; "Doe, Jo"; "Temp12345!"]].
Proof.
  intros r0 r1.
  assert (H : Forall plain (Object_keys r0)) by (repeat constructor).
  split; [exact H|].
  destruct (exportCSV_round_trip "users" r0 [r1] H)
    as (csv & lines & He & _ & _ & _ & _ & Hp & _).
  exists csv. split; [exact He|]. rewrite Hp. reflexivity.
Defined.

(** * Further properties *)

(** ** The reconciler on a ledger with several cargo ids *)

Lemma list_find_insert_other {A : Type} (P : A -> Prop) `{forall x, Decision (P x)}
  (l : list A) k x y :
  l !! k = Some x -> ~ P x -> ~ P y -> list_find P (<[k := y]> l) = list_find P l.
Proof.
  revert k. induction l as [|a l IH]; intros k Hk Hx Hy; [done|].
  destruct k as [|k]; simpl in *.
  - injection Hk as ->. by rewrite !decide_False by done.
  - destruct (decide (P a)); [done|]. by rewrite (IH k).
Qed.

Lemma list_find_snoc_other {A : Type} (P : A -> Prop) `{forall x, Decision (P x)}
  (l : list A) y :
  ~ P y -> list_find P (l ++ [y]) = list_find P l.
Proof.
  intros Hy. induction l as [|a l IH]; simpl.
  - by rewrite decide_False by done.
  - destruct (decide (P a)); [done|]. by rewrite IH.
Qed.

Lemma find_snapshot_lookup c l k inv :
  find_snapshot c l = Some (k, inv) -> l !! k = Some inv.
Proof. unfold find_snapshot. intros H. by apply list_find_Some in H as (? & _). Qed.

Lemma find_snapshot_None c l :
  find_snapshot c l = None <-> c ∉ i_cargo_id <$> l.
Proof.
  unfold find_snapshot. rewrite list_find_None, Forall_forall, list_elem_of_fmap.
  split.
  - intros Hall (inv & -> & Hin). by apply (Hall inv).
  - intros Hno inv Hin Hc. apply Hno. by exists inv.
Qed.

(** The column of cargo ids after a movement: unchanged, or one id more at
    the end when a receipt meets no snapshot. *)
Lemma apply_movement_cargo_ids base36 db m :
  i_cargo_id <$> inventory_snapshot (apply_movement base36 db m)
  = (i_cargo_id <$> inventory_snapshot db)
    ++ match m, find_snapshot (movement_cargo m) (inventory_snapshot db) with
       | Receive _ r, None => [r_cargo_id r]
       | _, _ => []
       end.
Proof.
  destruct m as [u r|d]; simpl.
  - unfold ReceiptPage_save. simpl.
    destruct (find_snapshot (r_cargo_id r) (inventory_snapshot db))
      as [[k inv]|] eqn:Hf; simpl.
    + rewrite list_fmap_insert. simpl. rewrite app_nil_r.
      apply list_insert_id. rewrite list_lookup_fmap.
      by rewrite (find_snapshot_lookup _ _ _ _ Hf).
    + rewrite list_fmap_insert, fmap_app. simpl.
      rewrite <- (length_fmap i_cargo_id).
      apply list_insert_id. by rewrite lookup_app_r, Nat.sub_diag by lia.
  - unfold DispatchPage_save. simpl.
    destruct (find_snapshot (d_cargo_id d) (inventory_snapshot db))
      as [[k inv]|] eqn:Hf; simpl; rewrite app_nil_r; [|done].
    rewrite list_fmap_insert. simpl.
    apply list_insert_id. rewrite list_lookup_fmap.
    by rewrite (find_snapshot_lookup _ _ _ _ Hf).
Qed.

Lemma ReceiptPage_save_other base36 u db newRec c :
  c <> r_cargo_id newRec ->
  find_snapshot c (inventory_snapshot (ReceiptPage_save base36 u db newRec))
  = find_snapshot c (inventory_snapshot db).
Proof.
  intros Hc. unfold ReceiptPage_save. simpl.
  destruct (find_snapshot (r_cargo_id newRec) (inventory_snapshot db))
    as [[k inv]|] eqn:Hf; simpl.
  - pose proof (find_snapshot_cargo _ _ _ _ Hf) as Hinv.
    unfold find_snapshot.
    apply (list_find_insert_other _ _ k inv);
      [by eapply find_snapshot_lookup|simpl; congruence..].
  - unfold find_snapshot.
    erewrite list_find_insert_other;
      [|by rewrite lookup_app_r, Nat.sub_diag by lia|simpl; congruence..].
    apply list_find_snoc_other. simpl. congruence.
Qed.

Lemma DispatchPage_save_other db newD c :
  c <> d_cargo_id newD ->
  find_snapshot c (inventory_snapshot (DispatchPage_save db newD))
  = find_snapshot c (inventory_snapshot db).
Proof.
  intros Hc. unfold DispatchPage_save. simpl.
  destruct (find_snapshot (d_cargo_id newD) (inventory_snapshot db))
    as [[k inv]|] eqn:Hf; simpl; [|done].
  pose proof (find_snapshot_cargo _ _ _ _ Hf) as Hinv.
  unfold find_snapshot.
  apply (list_find_insert_other _ _ k inv);
    [by eapply find_snapshot_lookup|simpl; congruence..].
Qed.

Lemma apply_movement_other base36 db m c :
  c <> movement_cargo m ->
  stock_of c (apply_movement base36 db m) = stock_of c db.
Proof.
  intros Hc. unfold stock_of. destruct m as [u r|d]; simpl in *.
  - by rewrite ReceiptPage_save_other.
  - by rewrite DispatchPage_save_other.
Qed.

(** X1: saving a receipt puts the record at the head of the receipts, leaves
    every other collection as it was, leaves the snapshot of every other cargo
    id as it was, and lengthens the inventory by one row exactly when the
    cargo id had no snapshot. *)
Theorem receipt_leaves_rest base36 u db newRec :
  let db1 := ReceiptPage_save base36 u db newRec in
  warehouse_receipts db1 = newRec :: warehouse_receipts db
  /\ dispatches db1 = dispatches db
  /\ transport_trips db1 = transport_trips db
  /\ vehicles db1 = vehicles db
  /\ users db1 = users db
  /\ passwords db1 = passwords db
  /\ (forall c, c <> r_cargo_id newRec ->
        find_snapshot c (inventory_snapshot db1)
        = find_snapshot c (inventory_snapshot db))
  /\ length (inventory_snapshot db1)
     = (length (inventory_snapshot db)
        + match find_snapshot (r_cargo_id newRec) (inventory_snapshot db) with
          | Some _ => 0
          | None => 1
          end)%nat.
Proof.
  intros db1. split_and!.
  1-6: subst db1; unfold ReceiptPage_save; simpl;
       by destruct (find_snapshot _ _) as [[??]|].
  - intros c Hc. by apply ReceiptPage_save_other.
  - rewrite <- !(length_fmap i_cargo_id). subst db1.
    pose proof (apply_movement_cargo_ids base36 db (Receive u newRec)) as H.
    simpl in H. rewrite H, length_app.
    by destruct (find_snapshot _ _).
Qed.

(** X2: saving a dispatch puts the record at the head of the dispatches and
    leaves every other collection as it was; in the inventory no row is added
    or removed, the rows keep their ids and cargo ids, and the snapshot of
    every other cargo id is as it was. *)
Theorem dispatch_leaves_rest db newD :
  let db1 := DispatchPage_save db newD in
  dispatches db1 = newD :: dispatches db
  /\ warehouse_receipts db1 = warehouse_receipts db
  /\ transport_trips db1 = transport_trips db
  /\ vehicles db1 = vehicles db
  /\ users db1 = users db
  /\ passwords db1 = passwords db
  /\ (forall c, c <> d_cargo_id newD ->
        find_snapshot c (inventory_snapshot db1)
        = find_snapshot c (inventory_snapshot db))
  /\ i_cargo_id <$> inventory_snapshot db1 = i_cargo_id <$> inventory_snapshot db
  /\ i_id <$> inventory_snapshot db1 = i_id <$> inventory_snapshot db.
Proof.
  intros db1. split_and!.
  1-6: subst db1; unfold DispatchPage_save; simpl;
       by destruct (find_snapshot _ _) as [[??]|].
  - intros c Hc. by apply DispatchPage_save_other.
  - subst db1.
    pose proof (apply_movement_cargo_ids (fun _ => EmptyString) db (Ship newD)) as H.
    simpl in H. by rewrite H, app_nil_r.
  - subst db1. unfold DispatchPage_save. simpl.
    destruct (find_snapshot (d_cargo_id newD) (inventory_snapshot db))
      as [[k inv]|] eqn:Hf; simpl; [|done].
    rewrite list_fmap_insert. simpl.
    apply list_insert_id. rewrite list_lookup_fmap.
    by rewrite (find_snapshot_lookup _ _ _ _ Hf).
Qed.

Lemma apply_movement_cargo_elem base36 db m c :
  c ∈ i_cargo_id <$> inventory_snapshot (apply_movement base36 db m)
  <-> c ∈ i_cargo_id <$> inventory_snapshot db
      \/ exists u r, m = Receive u r /\ r_cargo_id r = c.
Proof.
  rewrite apply_movement_cargo_ids, elem_of_app.
  destruct m as [u r|d]; simpl.
  - destruct (find_snapshot _ _) as [p|] eqn:Hf.
    + rewrite elem_of_nil. split; [tauto|]. intros [H|(u1 & r1 & [= _ <-] & <-)]; [tauto|].
      left. apply dec_stable. intros Hno. apply find_snapshot_None in Hno. congruence.
    + rewrite list_elem_of_singleton. split.
      * intros [H| ->]; [tauto|]. right. by exists u, r.
      * intros [H|(u1 & r1 & [= _ <-] & <-)]; tauto.
  - rewrite elem_of_nil. split; [tauto|]. intros [H|(u1 & r1 & [=] & _)]; tauto.
Qed.

Lemma apply_movement_NoDup base36 db m :
  NoDup (i_cargo_id <$> inventory_snapshot db) ->
  NoDup (i_cargo_id <$> inventory_snapshot (apply_movement base36 db m)).
Proof.
  intros Hnd. rewrite apply_movement_cargo_ids.
  destruct m as [u r|d]; simpl; [|by rewrite app_nil_r].
  destruct (find_snapshot _ _) eqn:Hf; [by rewrite app_nil_r|].
  apply NoDup_app. split_and!; [done| |apply NoDup_singleton].
  intros c Hc ->%list_elem_of_singleton. by apply find_snapshot_None in Hf.
Qed.

(** X3: the inventory keeps one row per cargo id.  If the cargo ids of the
    snapshot rows are distinct, they are still distinct after any sequence of
    saved receipts and dispatches, and the ids present afterwards are those
    present before and those of the receipts saved; a dispatch never adds
    one. *)
Theorem cargo_ids_stay_distinct base36 ms : forall db,
  NoDup (i_cargo_id <$> inventory_snapshot db) ->
  NoDup (i_cargo_id <$> inventory_snapshot (apply_movements base36 db ms))
  /\ forall c,
       c ∈ i_cargo_id <$> inventory_snapshot (apply_movements base36 db ms)
       <-> c ∈ i_cargo_id <$> inventory_snapshot db
           \/ exists u r, Receive u r ∈ ms /\ r_cargo_id r = c.
Proof.
  induction ms as [|m ms IH]; intros db Hnd.
  - split; [done|]. intros c. split; [tauto|].
    intros [H|(u & r & H & _)]; [done|]. by apply elem_of_nil in H.
  - unfold apply_movements in *. simpl.
    destruct (IH (apply_movement base36 db m)) as [Hnd1 Hin];
      [by apply apply_movement_NoDup|].
    split; [done|]. intros c. rewrite Hin, apply_movement_cargo_elem.
    split.
    + intros [[H|(u & r & -> & Hc)]|(u & r & H & Hc)]; [tauto| |].
      * right. exists u, r. split; [left|done].
      * right. exists u, r. split; [by right|done].
    + intros [H|(u & r & H & Hc)]; [tauto|].
      apply elem_of_cons in H as [<-|H].
      * left. right. by exists u, r.
      * right. by exists u, r.
Qed.

Lemma cargo_ids_stay_distinct_witness :
  let db := ReceiptPage_save plain36 0 empty_db (form_receipt "CG-1" 0 10 60) in
  let ms := [Ship (form_dispatch "CG-3" 1 5 30);
             Receive 0 (form_receipt "CG-2" 2 5 30);
             Receive 0 (form_receipt "CG-1" 3 5 30)] in
  NoDup (i_cargo_id <$> inventory_snapshot db)
  /\ i_cargo_id <$> inventory_snapshot (apply_movements plain36 db ms)
     = ["CG-1"; "CG-2"]
  /\ NoDup (i_cargo_id <$> inventory_snapshot (apply_movements plain36 db ms)).
Proof.
  intros db ms.
  assert (Hnd : NoDup (i_cargo_id <$> inventory_snapshot db)).
  { apply NoDup_singleton. }
  split; [exact Hnd|]. split; [reflexivity|].
  exact (proj1 (cargo_ids_stay_distinct plain36 ms db Hnd)).
Defined.

(** X4: movements of other cargo ids do not count.  After any sequence of
    saved receipts and dispatches, on any ledger, the stock of a cargo id is
    the running balance of the movements that name this id, taken in order
    from the stock it had before. *)
Theorem interleaved_movements_stock base36 c ms : forall db,
  stock_of c (apply_movements base36 db ms)
  = fold_left on_hand_step (filter (fun m => movement_cargo m = c) ms)
              (stock_of c db).
Proof.
  induction ms as [|m ms IH]; intros db; [done|].
  unfold apply_movements in *. simpl. rewrite IH, filter_cons.
  destruct (decide (movement_cargo m = c)) as [<-|Hne]; simpl.
  - by rewrite apply_movement_stock.
  - by rewrite apply_movement_other.
Qed.

Lemma apply_movement_ok base36 db m :
  nonnegative m ->
  Forall snapshot_ok (inventory_snapshot db) ->
  Forall snapshot_ok (inventory_snapshot (apply_movement base36 db m)).
Proof.
  intros Hm Hall. destruct m as [u r|d]; simpl in *.
  - destruct Hm as [Hq Hw]. unfold ReceiptPage_save. simpl.
    destruct (find_snapshot (r_cargo_id r) (inventory_snapshot db))
      as [[k inv]|] eqn:Hf; simpl.
    + pose proof (Forall_lookup_1 _ _ _ _ Hall (find_snapshot_lookup _ _ _ _ Hf))
        as (Hiq & Hiw & _).
      apply Forall_insert; [done|].
      split_and!; simpl; [lia|lra|done].
    + apply Forall_insert.
      * apply Forall_app. split; [done|].
        constructor; [|constructor]. split_and!; simpl; [lia|lra|done].
      * split_and!; simpl; [lia|lra|done].
  - destruct Hm as [Hq Hw]. unfold DispatchPage_save. simpl.
    destruct (find_snapshot (d_cargo_id d) (inventory_snapshot db))
      as [[k inv]|] eqn:Hf; simpl; [|done].
    pose proof (Forall_lookup_1 _ _ _ _ Hall (find_snapshot_lookup _ _ _ _ Hf))
      as (Hiq & Hiw & Hst).
    apply Forall_insert; [done|].
    split_and!; simpl; [lia|apply Q.le_max_l|].
    case_decide as Hz; [done|]. intros Hd. specialize (Hst Hd). lia.
Qed.

(** X5: the rows of the inventory stay well formed.  On a ledger in which no
    snapshot has a negative quantity or weight and every snapshot marked
    Dispatched has quantity 0, saving receipts and dispatches with
    non-negative amounts, in any number and order, keeps it so. *)
Theorem inventory_rows_stay_ok base36 ms : forall db,
  Forall nonnegative ms ->
  Forall snapshot_ok (inventory_snapshot db) ->
  Forall snapshot_ok (inventory_snapshot (apply_movements base36 db ms)).
Proof.
  induction ms as [|m ms IH]; intros db Hms Hall; [done|].
  apply Forall_cons in Hms as [Hm Hms].
  unfold apply_movements in *. simpl. apply IH; [done|].
  by apply apply_movement_ok.
Qed.

Lemma inventory_rows_stay_ok_witness :
  let ms := [Receive 0 (form_receipt "CG-1" 0 10 60);
             Ship (form_dispatch "CG-1" 1 25 100);
             Ship (form_dispatch "CG-1" 2 1 1)] in
  Forall nonnegative ms
  /\ Forall snapshot_ok (inventory_snapshot empty_db)
  /\ Forall snapshot_ok (inventory_snapshot (apply_movements plain36 empty_db ms)).
Proof.
  intros ms.
  assert (Hms : Forall nonnegative ms).
  { subst ms. repeat apply Forall_cons_2; try apply Forall_nil_2;
      simpl; (split; [lia|lra]). }
  assert (H0 : Forall snapshot_ok (inventory_snapshot empty_db)) by constructor.
  split; [exact Hms|]. split; [exact H0|].
  exact (inventory_rows_stay_ok plain36 ms empty_db Hms H0).
Defined.

(** ** The movement history against the totals *)

Lemma history_quantity_app l1 l2 :
  history_quantity (l1 ++ l2) = history_quantity l1 + history_quantity l2.
Proof. induction l1 as [|e l1 IH]; simpl; [done|]. rewrite IH. lia. Qed.

Lemma history_quantity_perm l1 l2 :
  l1 ≡ₚ l2 -> history_quantity l1 = history_quantity l2.
Proof. induction 1; simpl; lia. Qed.

Lemma receipt_rows_quantity db c :
  history_quantity (receipt_rows db c) = receipts_quantity c (warehouse_receipts db).
Proof.
  unfold receipt_rows, receipts_quantity.
  induction (filter _ (warehouse_receipts db)) as [|r l IH]; simpl; [done|].
  f_equal. exact IH.
Qed.

Lemma dispatch_rows_quantity db c :
  history_quantity (dispatch_rows db c) = - dispatches_quantity c (dispatches db).
Proof.
  unfold dispatch_rows, dispatches_quantity.
  induction (filter _ (dispatches db)) as [|d l IH]; simpl; [done|].
  rewrite Z.opp_add_distr. f_equal. exact IH.
Qed.

Lemma history_quantity_net db c :
  history_quantity (movement_rows db c) = net_quantity db c.
Proof.
  unfold movement_rows, net_quantity.
  rewrite (history_quantity_perm _ _ (Array_sort_perm m_date _)).
  rewrite history_quantity_app, receipt_rows_quantity, dispatch_rows_quantity. lia.
Qed.

Lemma filter_none {A : Type} (P : A -> Prop) `{forall x, Decision (P x)}
  (l : list A) :
  (forall x, x ∈ l -> ~ P x) -> filter P l = [].
Proof.
  intros Hl. induction l as [|a l IH]; [done|].
  rewrite filter_cons, decide_False by (apply Hl; left).
  apply IH. intros x Hx. apply Hl. by right.
Qed.

(** X6: the quantities listed in the movement history of a cargo id (receipts
    positive, dispatches negative) add up to the receipts minus the dispatches
    recorded for it; the history has one row per such record, and is empty
    exactly when no receipt and no dispatch names the cargo id. *)
Theorem history_sums_to_net db c :
  history_quantity (movement_rows db c) = net_quantity db c
  /\ length (movement_rows db c)
     = (length (filter (fun r => r_cargo_id r = c) (warehouse_receipts db))
        + length (filter (fun d => d_cargo_id d = c) (dispatches db)))%nat
  /\ (movement_rows db c = []
      <-> (c ∉ r_cargo_id <$> warehouse_receipts db)
          /\ (c ∉ d_cargo_id <$> dispatches db)).
Proof.
  assert (Hlen : length (movement_rows db c)
     = (length (filter (fun r => r_cargo_id r = c) (warehouse_receipts db))
        + length (filter (fun d => d_cargo_id d = c) (dispatches db)))%nat).
  { unfold movement_rows.
    rewrite (Permutation_length (Array_sort_perm m_date _)).
    unfold receipt_rows, dispatch_rows. by rewrite length_app, !length_fmap. }
  split_and!; [apply history_quantity_net|done|].
  rewrite <- length_zero_iff_nil, Hlen, !list_elem_of_fmap.
  split.
  - intros H0.
    assert (Hr : filter (fun r => r_cargo_id r = c) (warehouse_receipts db) = [])
      by (apply length_zero_iff_nil; lia).
    assert (Hd : filter (fun d => d_cargo_id d = c) (dispatches db) = [])
      by (apply length_zero_iff_nil; lia).
    split.
    + intros (r & -> & Hin).
      assert (Hx : r ∈ filter (fun r0 => r_cargo_id r0 = r_cargo_id r)
                         (warehouse_receipts db))
        by (by apply list_elem_of_filter).
      rewrite Hr in Hx. by apply elem_of_nil in Hx.
    + intros (d & -> & Hin).
      assert (Hx : d ∈ filter (fun d0 => d_cargo_id d0 = d_cargo_id d)
                         (dispatches db))
        by (by apply list_elem_of_filter).
      rewrite Hd in Hx. by apply elem_of_nil in Hx.
  - intros [Hr Hd].
    assert (Hr0 : filter (fun r => r_cargo_id r = c) (warehouse_receipts db) = []).
    { apply filter_none. intros r Hin Hc. apply Hr. by exists r. }
    assert (Hd0 : filter (fun d => d_cargo_id d = c) (dispatches db) = []).
    { apply filter_none. intros d Hin Hc. apply Hd. by exists d. }
    by rewrite Hr0, Hd0.
Qed.

Lemma net_quantity_receipt base36 u db r c :
  net_quantity (ReceiptPage_save base36 u db r) c
  = net_quantity db c + (if decide (r_cargo_id r = c) then quantity r else 0).
Proof.
  unfold net_quantity.
  replace (dispatches (ReceiptPage_save base36 u db r)) with (dispatches db)
    by (unfold ReceiptPage_save; simpl; by destruct (find_snapshot _ _) as [[??]|]).
  replace (warehouse_receipts (ReceiptPage_save base36 u db r))
    with (r :: warehouse_receipts db)
    by (unfold ReceiptPage_save; simpl; by destruct (find_snapshot _ _) as [[??]|]).
  unfold receipts_quantity. rewrite filter_cons.
  case_decide; simpl; lia.
Qed.

Lemma net_quantity_dispatch db d c :
  net_quantity (DispatchPage_save db d) c
  = net_quantity db c - (if decide (d_cargo_id d = c) then qty_packed d else 0).
Proof.
  unfold net_quantity.
  replace (warehouse_receipts (DispatchPage_save db d)) with (warehouse_receipts db)
    by (unfold DispatchPage_save; simpl; by destruct (find_snapshot _ _) as [[??]|]).
  replace (dispatches (DispatchPage_save db d)) with (d :: dispatches db)
    by (unfold DispatchPage_save; simpl; by destruct (find_snapshot _ _) as [[??]|]).
  unfold dispatches_quantity. rewrite filter_cons.
  case_decide; simpl; lia.
Qed.

(** X7: the inventory table agrees with the drawer.  If the quantity of a
    cargo id's snapshot (0 when there is none) equals the sum of the
    quantities listed in its movement history, it still does after saving any
    receipt, and after saving any dispatch that packs a non-negative quantity
    not above what its cargo id has on hand. *)
Theorem drawer_matches_snapshot base36 db m c :
  stock_quantity (stock_of c db) = history_quantity (movement_rows db c) ->
  match m with
  | Receive _ _ => True
  | Ship d => 0 <= qty_packed d <= stock_quantity (stock_of (d_cargo_id d) db)
  end ->
  stock_quantity (stock_of c (apply_movement base36 db m))
  = history_quantity (movement_rows (apply_movement base36 db m) c).
Proof.
  rewrite !history_quantity_net. intros Hinv Hm.
  destruct (decide (movement_cargo m = c)) as [<-|Hne].
  - rewrite apply_movement_stock.
    destruct m as [u r|d]; simpl in *.
    + rewrite net_quantity_receipt, decide_True by done. rewrite <- Hinv.
      by destruct (stock_of (r_cargo_id r) db) as [[q w]|].
    + rewrite net_quantity_dispatch, decide_True by done. rewrite <- Hinv.
      destruct (stock_of (d_cargo_id d) db) as [[q w]|];
        unfold stock_quantity in *; simpl in *; lia.
  - rewrite apply_movement_other by done.
    destruct m as [u r|d]; simpl in *.
    + rewrite net_quantity_receipt, decide_False by done. lia.
    + rewrite net_quantity_dispatch, decide_False by done. lia.
Qed.

Lemma drawer_matches_snapshot_witness :
  let db := ReceiptPage_save plain36 0 empty_db (form_receipt "CG-1" 0 10 60) in
  let m := Ship (form_dispatch "CG-1" 1 4 20) in
  stock_quantity (stock_of "CG-1" db) = history_quantity (movement_rows db "CG-1")
  /\ stock_quantity (stock_of "CG-1" (apply_movement plain36 db m)) = 6
  /\ history_quantity (movement_rows (apply_movement plain36 db m) "CG-1") = 6.
Proof.
  intros db m.
  assert (H0 : stock_quantity (stock_of "CG-1" db)
               = history_quantity (movement_rows db "CG-1")) by reflexivity.
  split; [exact H0|].
  pose proof (drawer_matches_snapshot plain36 db m "CG-1" H0) as H.
  split; [reflexivity|]. rewrite <- H; [reflexivity|]. simpl. split; [lia|].
  vm_compute. discriminate.
Defined.

(** ** The store settles after the first read *)

Lemma item_truthy_setDB db st : item_truthy (cc_seed_v1 (setDB db st)) = true.
Proof. reflexivity. Qed.

(** X8: reading the document settles the store.  Whatever the store holds,
    [getDB] never ends with the TypeError of a missing document; it leaves the
    session item alone; a second [seedIfNeeded] changes nothing, whatever the
    samples and the clock; and a second [getDB] ends as the first one did and
    leaves the store as the first one left it.  A document already stored is
    returned as it is. *)
Theorem getDB_settles base36 random now tz random1 now1 tz1 st :
  seedIfNeeded base36 random1 now1 tz1 (seedIfNeeded base36 random now tz st)
  = seedIfNeeded base36 random now tz st
  /\ getDB base36 random1 now1 tz1 (snd (getDB base36 random now tz st))
     = getDB base36 random now tz st
  /\ fst (getDB base36 random now tz st) <> Threw TypeError
  /\ cc_auth (snd (getDB base36 random now tz st)) = cc_auth st
  /\ (forall db, cc_seed_v1 st = Some (Json db) ->
        getDB base36 random now tz st = (Returned db, st)).
Proof.
  destruct (item_truthy (cc_seed_v1 st)) eqn:Ht.
  - rewrite (seedIfNeeded_truthy base36 random now tz st Ht).
    split; [by apply seedIfNeeded_truthy|].
    destruct (cc_seed_v1 st) as [[db|text]|] eqn:Hdoc; [| |done].
    + rewrite (getDB_present base36 random now tz st db Hdoc).
      split_and!; [by apply getDB_present|done|done|].
      by intros db1 [= <-].
    + assert (Htext : text <> EmptyString).
      { simpl in Ht. by destruct (decide (text = EmptyString)). }
      rewrite (getDB_unparseable base36 random now tz st text Hdoc Htext).
      split_and!; [by apply (getDB_unparseable _ _ _ _ _ text)|done|done|done].
  - pose proof (getDB_missing base36 random now tz st Ht) as Hg. cbv zeta in Hg.
    unfold seedIfNeeded at 2 3. rewrite Ht, Hg.
    set (db0 := fst (seed_db base36 random now tz 0%nat)). clearbody db0.
    split; [by apply seedIfNeeded_truthy|].
    split_and!; [by apply getDB_present|done|done|].
    intros db Hdoc. rewrite Hdoc in Ht. done.
Qed.

(** ** Sign-in, password reset and invitation *)

Lemma doLogin_present base36 random now tz st db e password :
  cc_seed_v1 st = Some (Json db) ->
  doLogin base36 random now tz st e password
  = match find_user e (users db) with
    | Some (k, u) =>
        if password_ok db e password then
          (Navigated "#/dashboard", setAuth (mk_auth e (role u) (name u)) st)
        else if temp_ok u password then
          (Navigated "#/dashboard",
           setAuth (mk_auth e (role u) (name u))
             (setDB (set_passwords (<[e := password]> (passwords db))
                       (set_users (<[k := clear_temp u]> (users db)) db)) st))
        else (ShowError "Invalid credentials", st)
    | None => (ShowError "Invalid credentials", st)
    end.
Proof.
  intros Hdoc. unfold doLogin.
  rewrite (getDB_present base36 random now tz st db Hdoc).
  by destruct (find_user e (users db)) as [[k u]|].
Qed.

Lemma password_ok_spec db e password :
  password_ok db e password = true
  <-> passwords db !! e = Some password /\ password <> EmptyString.
Proof.
  unfold password_ok. destruct (passwords db !! e) as [p|].
  - destruct (decide (p = EmptyString)) as [->|Hp].
    + split; [done|]. by intros [[= <-] Hne].
    + rewrite bool_decide_eq_true. split.
      * by intros ->.
      * by intros [[= ->] _].
  - split; [done|]. by intros [[=] _].
Qed.

Lemma temp_ok_spec u password :
  temp_ok u password = true <-> tempPassword u = Some password.
Proof. unfold temp_ok. by rewrite bool_decide_eq_true. Qed.

Lemma find_user_lookup e l k u : find_user e l = Some (k, u) -> l !! k = Some u.
Proof. unfold find_user. intros H. by apply list_find_Some in H as (? & _). Qed.

(** Replacing the row found by one with the same email does not change what
    [find] gives for other emails, and gives the new row for this one. *)
Lemma find_user_insert e l k u u1 e1 :
  find_user e l = Some (k, u) -> email u1 = e ->
  find_user e1 (<[k := u1]> l)
  = if decide (e1 = e) then Some (k, u1) else find_user e1 l.
Proof.
  intros Hf Hu1. pose proof (find_user_email _ _ _ _ Hf) as Hu.
  case_decide as He; [subst e1|].
  - unfold find_user in *. by apply (list_find_insert_same _ _ k u).
  - unfold find_user in *.
    apply (list_find_insert_other _ _ k u);
      [by eapply find_user_lookup|congruence..].
Qed.

Lemma rows_insert_same {A B : Type} (f : A -> B) (l : list A) k x y :
  l !! k = Some x -> f y = f x -> f <$> <[k := y]> l = f <$> l.
Proof.
  intros Hk Hf. rewrite list_fmap_insert, Hf.
  apply list_insert_id. by rewrite list_lookup_fmap, Hk.
Qed.

(** X9: a sign-in that navigates is backed by a credential.  On a stored
    document, if [doLogin] navigates then it navigates to the dashboard, a
    user row with the submitted email exists, the submitted password is that
    email's non-empty permanent password or the pending temporary password of
    the first such row, and the session it stores carries the email and the
    role and name of that row. *)
Theorem doLogin_sound base36 random now tz st db e password h st1 :
  cc_seed_v1 st = Some (Json db) ->
  doLogin base36 random now tz st e password = (Navigated h, st1) ->
  h = "#/dashboard"
  /\ exists k u,
       find_user e (users db) = Some (k, u)
       /\ email u = e
       /\ (passwords db !! e = Some password /\ password <> EmptyString
           \/ tempPassword u = Some password)
       /\ cc_auth st1 = Some (mk_auth e (role u) (name u)).
Proof.
  intros Hdoc. rewrite (doLogin_present _ _ _ _ _ db) by done.
  destruct (find_user e (users db)) as [[k u]|] eqn:Hf; [|done].
  destruct (password_ok db e password) eqn:Hp.
  - intros [= <- <-]. split; [done|]. exists k, u.
    split_and!; [done|by eapply find_user_email| |done].
    left. by apply password_ok_spec.
  - destruct (temp_ok u password) eqn:Ht; [|done].
    intros [= <- <-]. split; [done|]. exists k, u.
    split_and!; [done|by eapply find_user_email| |done].
    right. by apply temp_ok_spec.
Qed.

Lemma doLogin_sound_witness :
  let admin := mk_user "usr_x" "admin@curiata.dev" "Admin" "Admin User" None in
  let db := mk_DB [] [] [] [] [] [admin] seed_passwords in
  let st := mk_storage (Some (Json db)) None in
  let st1 := setAuth (mk_auth "admin@curiata.dev" "Admin" "Admin User") st in
  doLogin plain36 (fun _ => 0%Q) 0 utc st "admin@curiata.dev" "admin123"
  = (Navigated "#/dashboard", st1)
  /\ exists k u,
       find_user "admin@curiata.dev" (users db) = Some (k, u)
       /\ cc_auth st1 = Some (mk_auth "admin@curiata.dev" (role u) (name u)).
Proof.
  intros admin db st st1.
  assert (Hrun : doLogin plain36 (fun _ => 0%Q) 0 utc st "admin@curiata.dev" "admin123"
                 = (Navigated "#/dashboard", st1)) by reflexivity.
  split; [exact Hrun|].
  destruct (doLogin_sound plain36 (fun _ => 0%Q) 0 utc st db "admin@curiata.dev"
              "admin123" "#/dashboard" st1 eq_refl Hrun)
    as (_ & k & u & Hf & _ & _ & Ha).
  by exists k, u.
Defined.

(** X10: a failed sign-in says the same thing in every case and changes
    nothing.  On a stored document, when no user row has the submitted email,
    or when the submitted password is neither the email's non-empty permanent
    password nor the pending temporary password of the first row with that
    email, [doLogin] shows "Invalid credentials" and leaves the store as it
    was: no session is stored. *)
Theorem doLogin_rejects base36 random now tz st db e password :
  cc_seed_v1 st = Some (Json db) ->
  match find_user e (users db) with
  | None => True
  | Some (_, u) =>
      (passwords db !! e <> Some password \/ password = EmptyString)
      /\ tempPassword u <> Some password
  end ->
  doLogin base36 random now tz st e password = (ShowError "Invalid credentials", st).
Proof.
  intros Hdoc Hno. rewrite (doLogin_present _ _ _ _ _ db) by done.
  destruct (find_user e (users db)) as [[k u]|]; [|done].
  destruct Hno as [Hp Ht].
  destruct (password_ok db e password) eqn:Hok.
  { apply password_ok_spec in Hok. tauto. }
  destruct (temp_ok u password) eqn:Htok; [|done].
  apply temp_ok_spec in Htok. done.
Qed.

Lemma doLogin_rejects_witness :
  let admin := mk_user "usr_x" "admin@curiata.dev" "Admin" "Admin User" None in
  let db := mk_DB [] [] [] [] [] [admin] seed_passwords in
  let st := mk_storage (Some (Json db)) None in
  doLogin plain36 (fun _ => 0%Q) 0 utc st "admin@curiata.dev" "admin124"
  = (ShowError "Invalid credentials", st)
  /\ doLogin plain36 (fun _ => 0%Q) 0 utc st "nobody@curiata.dev" "admin123"
     = (ShowError "Invalid credentials", st).
Proof.
  intros admin db st. split.
  - apply (doLogin_rejects plain36 (fun _ => 0%Q) 0 utc st db); [reflexivity|].
    simpl. split; [left; vm_compute|]; discriminate.
  - reflexivity.
Defined.

(** X11: signing in touches nothing but the credentials of the email signed
    in.  On a stored document, whatever [doLogin] answers, the store holds a
    document afterwards whose receipts, dispatches, inventory, trips and
    vehicles are unchanged; the user rows are the same up to their temporary
    passwords; and for every other email the stored password and the row
    found are unchanged. *)
Theorem doLogin_frame base36 random now tz st db e password :
  cc_seed_v1 st = Some (Json db) ->
  exists db1,
    cc_seed_v1 (snd (doLogin base36 random now tz st e password)) = Some (Json db1)
    /\ warehouse_receipts db1 = warehouse_receipts db
    /\ dispatches db1 = dispatches db
    /\ inventory_snapshot db1 = inventory_snapshot db
    /\ transport_trips db1 = transport_trips db
    /\ vehicles db1 = vehicles db
    /\ clear_temp <$> users db1 = clear_temp <$> users db
    /\ (forall e1, e1 <> e ->
          passwords db1 !! e1 = passwords db !! e1
          /\ find_user e1 (users db1) = find_user e1 (users db)).
Proof.
  intros Hdoc. rewrite (doLogin_present _ _ _ _ _ db) by done.
  destruct (find_user e (users db)) as [[k u]|] eqn:Hf;
    [|exists db; by split_and!].
  destruct (password_ok db e password); [exists db; by split_and!|].
  destruct (temp_ok u password); [|exists db; by split_and!].
  eexists. split; [reflexivity|]. simpl. split_and!; try done.
  - apply (rows_insert_same _ _ _ u); [by eapply find_user_lookup|done].
  - intros e1 He1. split; [by rewrite lookup_insert_ne by congruence|].
    rewrite (find_user_insert e _ k u); [|done|exact (find_user_email _ _ _ _ Hf)].
    by rewrite decide_False.
Qed.

Lemma doLogin_frame_witness :
  let u := mk_user "usr_x" "admin@curiata.dev" "Admin" "Admin User"
                   (Some "Temp55000!") in
  let db := mk_DB [form_receipt "CG-1" 0 10 60] [] [] [] [] [u] seed_passwords in
  let st := mk_storage (Some (Json db)) None in
  exists db1,
    cc_seed_v1 (snd (doLogin plain36 (fun _ => 0%Q) 0 utc st "admin@curiata.dev"
                       "Temp55000!")) = Some (Json db1)
    /\ warehouse_receipts db1 = warehouse_receipts db
    /\ passwords db1 !! "viewer@curiata.dev" = Some "view123".
Proof.
  intros u db st.
  destruct (doLogin_frame plain36 (fun _ => 0%Q) 0 utc st db "admin@curiata.dev"
              "Temp55000!" eq_refl)
    as (db1 & H1 & H2 & _ & _ & _ & _ & _ & H3).
  exists db1. split; [exact H1|]. split; [exact H2|].
  destruct (H3 "viewer@curiata.dev") as [-> _]; [discriminate|]. reflexivity.
Defined.

Lemma forgot_present base36 random now tz u st db e :
  cc_seed_v1 st = Some (Json db) ->
  forgot base36 random now tz u st e
  = match find_user e (users db) with
    | None => (ShowError "Email not found", st)
    | Some (k, usr) =>
        (Toast ("Temporary password issued: " +:+ temp_of u),
         setDB (set_users
                  (<[k := mk_user (u_id usr) (email usr) (role usr) (name usr)
                                  (Some (temp_of u))]> (users db)) db) st)
    end.
Proof.
  intros Hdoc. unfold forgot.
  rewrite (getDB_present base36 random now tz st db Hdoc).
  by destruct (find_user e (users db)) as [[k usr]|].
Qed.

Lemma temp_of_range u :
  (0 <= u)%Q -> (u < 1)%Q ->
  exists n, 10000 <= n <= 99999 /\ temp_of u = "Temp" +:+ pretty n +:+ "!".
Proof.
  intros H0 H1.
  exists (Qfloor (u * inject_Z (99999 - 10000 + 1)) + 10000). split; [|done].
  pose proof (floor_sample_range u (99999 - 10000 + 1) H0 H1 ltac:(lia)). lia.
Qed.

Lemma temp_of_not_empty u : temp_of u <> EmptyString.
Proof. unfold temp_of. simpl. discriminate. Qed.

(** X12: what [forgot] does.  On a stored document and for a sample of the
    unit interval: for an email no user row has, it shows "Email not found"
    and changes nothing; for a known email it announces a temporary password
    of the form Temp, a number from 10000 to 99999, and an exclamation mark,
    stores it in the first row with that email, and leaves the other rows, all
    permanent passwords and the ledger as they were, so that the permanent
    password of that email still signs in. *)
Theorem forgot_issues_temp base36 random now tz u st db e :
  cc_seed_v1 st = Some (Json db) ->
  (0 <= u)%Q -> (u < 1)%Q ->
  match find_user e (users db) with
  | None =>
      forgot base36 random now tz u st e = (ShowError "Email not found", st)
  | Some (k, usr) =>
      exists n db1,
        10000 <= n <= 99999
        /\ temp_of u = "Temp" +:+ pretty n +:+ "!"
        /\ forgot base36 random now tz u st e
           = (Toast ("Temporary password issued: " +:+ temp_of u), setDB db1 st)
        /\ find_user e (users db1)
           = Some (k, mk_user (u_id usr) (email usr) (role usr) (name usr)
                              (Some (temp_of u)))
        /\ (forall e1, e1 <> e ->
              find_user e1 (users db1) = find_user e1 (users db))
        /\ passwords db1 = passwords db
        /\ warehouse_receipts db1 = warehouse_receipts db
        /\ dispatches db1 = dispatches db
        /\ inventory_snapshot db1 = inventory_snapshot db
        /\ (forall p, passwords db !! e = Some p -> p <> EmptyString ->
              fst (doLogin base36 random now tz (setDB db1 st) e p)
              = Navigated "#/dashboard")
  end.
Proof.
  intros Hdoc H0 H1. rewrite (forgot_present _ _ _ _ _ _ db) by done.
  destruct (find_user e (users db)) as [[k usr]|] eqn:Hf; [|done].
  destruct (temp_of_range u H0 H1) as (n & Hn & Htemp).
  pose proof (find_user_email _ _ _ _ Hf) as Hemail.
  set (usr1 := mk_user (u_id usr) (email usr) (role usr) (name usr)
                       (Some (temp_of u))).
  assert (Hfind : forall e1, find_user e1 (<[k := usr1]> (users db))
                  = if decide (e1 = e) then Some (k, usr1)
                    else find_user e1 (users db)).
  { intros e1. by apply (find_user_insert e _ k usr). }
  exists n. eexists. split; [exact Hn|]. split; [exact Htemp|].
  split; [reflexivity|]. simpl. split_and!; try done.
  - by rewrite Hfind, decide_True.
  - intros e1 He1. by rewrite Hfind, decide_False.
  - intros p Hp Hne.
    erewrite doLogin_permanent; [done|reflexivity| |exact Hp|exact Hne].
    simpl. by rewrite Hfind, decide_True.
Qed.

Lemma forgot_issues_temp_witness :
  let admin := mk_user "usr_x" "admin@curiata.dev" "Admin" "Admin User" None in
  let db := mk_DB [] [] [] [] [] [admin] seed_passwords in
  let st := mk_storage (Some (Json db)) None in
  exists n db1,
    10000 <= n <= 99999
    /\ temp_of (1 # 2) = "Temp" +:+ pretty n +:+ "!"
    /\ forgot plain36 (fun _ => 0%Q) 0 utc (1 # 2) st "admin@curiata.dev"
       = (Toast ("Temporary password issued: " +:+ temp_of (1 # 2)), setDB db1 st)
    /\ passwords db1 = passwords db.
Proof.
  intros admin db st.
  pose proof (forgot_issues_temp plain36 (fun _ => 0%Q) 0 utc (1 # 2) st db
                "admin@curiata.dev" eq_refl ltac:(lra) ltac:(lra)) as H.
  change (find_user "admin@curiata.dev" (users db)) with (Some (0%nat, admin)) in H.
  destruct H as (n & db1 & Hn & Ht & Hrun & _ & _ & Hp & _).
  exists n, db1. split; [exact Hn|]. by split_and!.
Defined.

(** X13: a second [forgot] replaces the first temporary password.  After
    two password resets for a known email that issued different temporary
    passwords, the first one no longer signs in (unless it is the permanent
    password), and the second one does. *)
Theorem forgot_overwrites base36 random now tz u1 u2 st db e k usr :
  cc_seed_v1 st = Some (Json db) ->
  find_user e (users db) = Some (k, usr) ->
  temp_of u1 <> temp_of u2 ->
  passwords db !! e <> Some (temp_of u1) ->
  let st1 := snd (forgot base36 random now tz u1 st e) in
  let st2 := snd (forgot base36 random now tz u2 st1 e) in
  doLogin base36 random now tz st2 e (temp_of u1)
  = (ShowError "Invalid credentials", st2)
  /\ fst (doLogin base36 random now tz st2 e (temp_of u2)) = Navigated "#/dashboard".
Proof.
  intros Hdoc Hf Hne Hp st1 st2.
  pose proof (find_user_email _ _ _ _ Hf) as Hemail.
  subst st2 st1.
  rewrite (forgot_present _ _ _ _ u1 _ db) by done. rewrite Hf. simpl.
  set (usr1 := mk_user (u_id usr) (email usr) (role usr) (name usr)
                       (Some (temp_of u1))).
  set (db1 := set_users (<[k := usr1]> (users db)) db).
  assert (Hf1 : find_user e (users db1) = Some (k, usr1)).
  { simpl. rewrite (find_user_insert e _ k usr) by done. by rewrite decide_True. }
  rewrite (forgot_present _ _ _ _ u2 _ db1) by done. rewrite Hf1. simpl.
  set (usr2 := mk_user (u_id usr) (email usr) (role usr) (name usr)
                       (Some (temp_of u2))).
  set (db2 := set_users (<[k := usr2]> (<[k := usr1]> (users db))) db1).
  assert (Hf2 : find_user e (users db2) = Some (k, usr2)).
  { simpl. rewrite (find_user_insert e _ k usr1) by done. by rewrite decide_True. }
  rewrite !(doLogin_present _ _ _ _ _ db2) by done. rewrite Hf2. split.
  - rewrite (password_ok_false db2) by done.
    unfold temp_ok. simpl. rewrite bool_decide_eq_false_2; [done|]. congruence.
  - destruct (password_ok db2 e (temp_of u2)); [done|].
    unfold temp_ok. simpl. by rewrite bool_decide_eq_true_2.
Qed.

Lemma forgot_overwrites_witness :
  let admin := mk_user "usr_x" "admin@curiata.dev" "Admin" "Admin User" None in
  let db := mk_DB [] [] [] [] [] [admin] seed_passwords in
  let st := mk_storage (Some (Json db)) None in
  let st1 := snd (forgot plain36 (fun _ => 0%Q) 0 utc 0 st "admin@curiata.dev") in
  let st2 := snd (forgot plain36 (fun _ => 0%Q) 0 utc (1 # 2) st1 "admin@curiata.dev") in
  temp_of 0 = "Temp10000!" /\ temp_of (1 # 2) = "Temp55000!"
  /\ doLogin plain36 (fun _ => 0%Q) 0 utc st2 "admin@curiata.dev" "Temp10000!"
     = (ShowError "Invalid credentials", st2)
  /\ fst (doLogin plain36 (fun _ => 0%Q) 0 utc st2 "admin@curiata.dev" "Temp55000!")
     = Navigated "#/dashboard".
Proof.
  intros admin db st st1 st2.
  split; [reflexivity|]. split; [reflexivity|].
  apply (forgot_overwrites plain36 (fun _ => 0%Q) 0 utc 0 (1 # 2) st db
           "admin@curiata.dev" 0%nat admin eq_refl eq_refl);
    vm_compute; discriminate.
Defined.

(** X14: inviting an email that already has an account resets that account.
    When a user row with the invited email exists, the invitation leaves that
    row the first one with the email and replaces the email's permanent
    password by the invitation's temporary password: this password signs in
    to the existing account, with the role and name of the existing row and
    not those of the invitation, and any other password that is not the
    pending temporary password of the existing row is refused. *)
Theorem invite_existing_email base36 random now tz st db f k u :
  find_user (f_email f) (users db) = Some (k, u) ->
  f_tempPassword f <> EmptyString ->
  cc_seed_v1 st = Some (Json (UsersPage_invite db f)) ->
  find_user (f_email f) (users (UsersPage_invite db f)) = Some (k, u)
  /\ doLogin base36 random now tz st (f_email f) (f_tempPassword f)
     = (Navigated "#/dashboard",
        setAuth (mk_auth (f_email f) (role u) (name u)) st)
  /\ (forall old,
        old <> f_tempPassword f -> tempPassword u <> Some old ->
        doLogin base36 random now tz st (f_email f) old
        = (ShowError "Invalid credentials", st)).
Proof.
  intros Hf Hne Hdoc.
  assert (Hf1 : find_user (f_email f) (users (UsersPage_invite db f)) = Some (k, u)).
  { unfold UsersPage_invite, find_user in *. simpl. by apply list_find_app_l. }
  assert (Hp : passwords (UsersPage_invite db f) !! f_email f
               = Some (f_tempPassword f)).
  { unfold UsersPage_invite. simpl. by rewrite lookup_insert_eq. }
  split_and!; [done| |].
  - by apply (doLogin_permanent _ _ _ _ _ (UsersPage_invite db f) _ _ k).
  - intros old Hold Htemp.
    rewrite (doLogin_present _ _ _ _ _ (UsersPage_invite db f)) by done.
    rewrite Hf1, (password_ok_false (UsersPage_invite db f)) by congruence.
    unfold temp_ok. by rewrite bool_decide_eq_false_2.
Qed.

Lemma invite_existing_email_witness :
  let admin := mk_user "usr_x" "admin@curiata.dev" "Admin" "Admin User" None in
  let db := mk_DB [] [] [] [] [] [admin] seed_passwords in
  let f := mk_invite_form "usr_y" "admin@curiata.dev" "Someone" "Viewer"
                          "Temp12345!" in
  let st := mk_storage (Some (Json (UsersPage_invite db f))) None in
  doLogin plain36 (fun _ => 0%Q) 0 utc st "admin@curiata.dev" "Temp12345!"
  = (Navigated "#/dashboard",
     setAuth (mk_auth "admin@curiata.dev" "Admin" "Admin User") st)
  /\ doLogin plain36 (fun _ => 0%Q) 0 utc st "admin@curiata.dev" "admin123"
     = (ShowError "Invalid credentials", st).
Proof.
  intros admin db f st.
  destruct (invite_existing_email plain36 (fun _ => 0%Q) 0 utc st db f 0%nat admin
              eq_refl ltac:(discriminate) eq_refl) as (_ & Hin & Hold).
  split; [exact Hin|]. apply Hold; discriminate.
Defined.

(** ** Sessions, routes and role guards *)

Lemma App_signed_in st a route :
  getAuth st = Some a -> route <> "/login" ->
  App st route
  = match page_of_route route with
    | Some p =>
        match page_allow p with
        | None => Page p
        | Some allow =>
            if decide (a_role a ∈ allow) then Page p else Denied p (a_role a)
        end
    | None => NotFound
    end.
Proof.
  intros Ha Hr. unfold App. rewrite Ha, decide_False by done.
  destruct (page_of_route route) as [p|]; [|done].
  unfold render_page, Guard. rewrite Ha.
  destruct (page_allow p) as [allow|]; [|done]. by case_decide.
Qed.

Lemma page_of_route_Some route p :
  page_of_route route = Some p ->
  route = match p with
          | DashboardPage => "/dashboard"
          | ReceiptPage => "/receipt"
          | DispatchPage => "/dispatch"
          | InventoryPage => "/inventory"
          | TransportPage => "/transport"
          | UsersPage => "/users"
          end.
Proof.
  unfold page_of_route. repeat case_decide; by intros [= <-].
Qed.

Lemma Sidebar_items st :
  Sidebar st
  = if decide (a_role <$> getAuth st = Some "Admin") then items
    else [mk_nav_item "/dashboard" "Dashboard" false;
          mk_nav_item "/receipt" "Stock Receipt" false;
          mk_nav_item "/dispatch" "Stock Dispatch" false;
          mk_nav_item "/inventory" "Inventory" false;
          mk_nav_item "/transport" "Transport Log" false].
Proof.
  unfold Sidebar, items. rewrite !filter_cons, filter_nil. simpl.
  destruct (decide (a_role <$> getAuth st = Some "Admin")) as [Hadmin|Hadmin].
  - rewrite decide_True; [done|]. by intros [_ H].
  - rewrite decide_False; [done|]. intros H. apply H. by split.
Qed.

(** X15: a successful sign-in lands on the dashboard.  Whatever the store
    held, if [doLogin] navigates, then the route read from the hash it sets,
    rendered against the store it leaves, is the dashboard page: a session is
    stored, so the router does not send the user back to the login page. *)
Theorem sign_in_lands_on_dashboard base36 random now tz st e password h st1 :
  doLogin base36 random now tz st e password = (Navigated h, st1) ->
  useHashRoute h = "/dashboard"
  /\ (exists a, getAuth st1 = Some a /\ a_email a = e)
  /\ App st1 (useHashRoute h) = Page DashboardPage.
Proof.
  unfold doLogin.
  destruct (getDB base36 random now tz st) as [[db|err] st0]; [|done].
  destruct (find_user e (users db)) as [[k u]|]; [|done].
  destruct (password_ok db e password).
  - intros [= <- <-]. split; [done|]. split; [by eexists|]. done.
  - destruct (temp_ok u password); [|done].
    intros [= <- <-]. split; [done|]. split; [by eexists|]. done.
Qed.

Lemma sign_in_lands_on_dashboard_witness :
  let admin := mk_user "usr_x" "admin@curiata.dev" "Admin" "Admin User" None in
  let db := mk_DB [] [] [] [] [] [admin] seed_passwords in
  let st := mk_storage (Some (Json db)) None in
  let st1 := setAuth (mk_auth "admin@curiata.dev" "Admin" "Admin User") st in
  doLogin plain36 (fun _ => 0%Q) 0 utc st "admin@curiata.dev" "admin123"
  = (Navigated "#/dashboard", st1)
  /\ App st1 (useHashRoute "#/dashboard") = Page DashboardPage.
Proof.
  intros admin db st st1.
  assert (Hrun : doLogin plain36 (fun _ => 0%Q) 0 utc st "admin@curiata.dev" "admin123"
                 = (Navigated "#/dashboard", st1)) by reflexivity.
  split; [exact Hrun|].
  exact (proj2 (proj2 (sign_in_lands_on_dashboard plain36 (fun _ => 0%Q) 0 utc st
                         "admin@curiata.dev" "admin123" "#/dashboard" st1 Hrun))).
Defined.

(** X16: signing out closes every page.  After [signOut] the session item is
    gone and the document is untouched; the hash it sets leads to the login
    page; every other route is sent to the login page; every [Guard] sends to
    the login page whatever its allow list; and the navigation lists no
    admin-only entry. *)
Theorem signOut_closes_session st :
  let st1 := fst (signOut st) in
  getAuth st1 = None
  /\ cc_seed_v1 st1 = cc_seed_v1 st
  /\ App st1 (useHashRoute (snd (signOut st))) = Login
  /\ (forall route, route <> "/login" -> App st1 route = RedirectToLogin)
  /\ (forall (allow : list string) (p : page), Guard st1 allow p = ToLogin)
  /\ (forall it, it ∈ Sidebar st1 -> adminOnly it = false).
Proof.
  intros st1. split_and!; try done.
  - intros route Hr. unfold App. simpl. by rewrite decide_False.
  - intros it. rewrite Sidebar_items. simpl.
    try rewrite decide_False by done.
    rewrite !elem_of_cons, elem_of_nil.
    intros [-> | [-> | [-> | [-> | [-> | [] ]]]]]; done.
Qed.

(** X17: what each role gets to see.  For a signed-in session: whatever the
    router shows a Viewer it shows a Supervisor, and whatever it shows a
    Supervisor it shows an Admin; an Admin is shown the page of every route of
    the table; the receipt and dispatch pages are shown to no role other than
    Admin and Supervisor, and the users page to no role other than Admin. *)
Theorem role_gating doc e n route :
  (forall p, App (session doc e "Viewer" n) route = Page p ->
             App (session doc e "Supervisor" n) route = Page p)
  /\ (forall p, App (session doc e "Supervisor" n) route = Page p ->
                App (session doc e "Admin" n) route = Page p)
  /\ (forall p, page_of_route route = Some p ->
                App (session doc e "Admin" n) route = Page p)
  /\ (forall r p, App (session doc e r n) route = Page p ->
                  p = ReceiptPage \/ p = DispatchPage ->
                  r = "Admin" \/ r = "Supervisor")
  /\ (forall r, App (session doc e r n) route = Page UsersPage -> r = "Admin").
Proof.
  destruct (decide (route = "/login")) as [->|Hr].
  { split_and!; try done. }
  assert (Happ : forall r, App (session doc e r n) route
    = match page_of_route route with
      | Some p =>
          match page_allow p with
          | None => Page p
          | Some allow => if decide (r ∈ allow) then Page p else Denied p r
          end
      | None => NotFound
      end).
  { intros r. by rewrite (App_signed_in _ (mk_auth e r n)). }
  rewrite !Happ. split_and!.
  - intros p. destruct (page_of_route route) as [[]|]; simpl; try done.
  - intros p. destruct (page_of_route route) as [[]|]; simpl; try done.
  - intros p ->. by destruct p.
  - intros r p. rewrite Happ.
    destruct (page_of_route route) as [[]|]; simpl; try done;
      try (case_decide as Hin; [|done]); intros [= <-] [Hp|Hp];
      try discriminate Hp;
      rewrite !elem_of_cons, elem_of_nil in Hin; tauto.
  - intros r. rewrite Happ.
    destruct (page_of_route route) as [[]|]; simpl; try done;
      try (case_decide; done).
    case_decide as Hin; [|done]. intros _.
    rewrite !elem_of_cons, elem_of_nil in Hin. tauto.
Qed.

(** X18: the navigation against the guards.  Every page the router shows
    has its entry in the navigation of [Sidebar]; the Users entry is listed
    exactly when the users page is shown; but the entries of the receipt and
    dispatch pages are listed for a Viewer, whom these pages deny. *)
Theorem sidebar_against_guards st route :
  (forall p, App st route = Page p ->
             exists it, it ∈ Sidebar st /\ n_to it = route)
  /\ ((exists it, it ∈ Sidebar st /\ n_to it = "/users")
      <-> App st "/users" = Page UsersPage)
  /\ (forall doc e n,
        let viewer := session doc e "Viewer" n in
        (exists it, it ∈ Sidebar viewer /\ n_to it = "/receipt")
        /\ App viewer "/receipt" = Denied ReceiptPage "Viewer"
        /\ (exists it, it ∈ Sidebar viewer /\ n_to it = "/dispatch")
        /\ App viewer "/dispatch" = Denied DispatchPage "Viewer").
Proof.
  split_and!.
  - intros p. destruct (getAuth st) as [a|] eqn:Ha.
    + destruct (decide (route = "/login")) as [->|Hr].
      { unfold App. by rewrite Ha. }
      rewrite (App_signed_in st a) by done.
      destruct (page_of_route route) as [p1|] eqn:Hp; [|done].
      apply page_of_route_Some in Hp.
      rewrite Sidebar_items, Ha. simpl.
      destruct p1; simpl.
      * intros _. exists (mk_nav_item "/dashboard" "Dashboard" false).
        split; [|done]. case_decide; unfold items; rewrite !elem_of_cons; tauto.
      * intros _. exists (mk_nav_item "/receipt" "Stock Receipt" false).
        split; [|done]. case_decide; unfold items; rewrite !elem_of_cons; tauto.
      * intros _. exists (mk_nav_item "/dispatch" "Stock Dispatch" false).
        split; [|done]. case_decide; unfold items; rewrite !elem_of_cons; tauto.
      * intros _. exists (mk_nav_item "/inventory" "Inventory" false).
        split; [|done]. case_decide; unfold items; rewrite !elem_of_cons; tauto.
      * intros _. exists (mk_nav_item "/transport" "Transport Log" false).
        split; [|done]. case_decide; unfold items; rewrite !elem_of_cons; tauto.
      * case_decide as Hin; [|done]. intros _.
        rewrite !elem_of_cons, elem_of_nil in Hin.
        exists (mk_nav_item "/users" "Users" true).
        split; [|done]. rewrite decide_True by (f_equal; tauto).
        unfold items. rewrite !elem_of_cons. tauto.
    + unfold App. rewrite Ha. by case_decide.
  - rewrite Sidebar_items. destruct (getAuth st) as [a|] eqn:Ha; simpl.
    + rewrite (App_signed_in st a) by done. simpl.
      destruct (decide (a_role a = "Admin")) as [Hadm|Hadm].
      * rewrite decide_True by (by f_equal).
        rewrite decide_True by (rewrite Hadm; left).
        split; [done|]. intros _. exists (mk_nav_item "/users" "Users" true).
        split; [|done]. unfold items. rewrite !elem_of_cons. tauto.
      * rewrite decide_False by congruence.
        rewrite decide_False
          by (rewrite !elem_of_cons, elem_of_nil; tauto).
        split; [|done]. intros (it & Hin & Hto).
        rewrite !elem_of_cons, elem_of_nil in Hin.
        destruct Hin as [-> | [-> | [-> | [-> | [-> | [] ]]]]]; done.
    + unfold App. rewrite Ha. simpl.
      split; [|done]. intros (it & Hin & Hto).
      rewrite !elem_of_cons, elem_of_nil in Hin.
      destruct Hin as [-> | [-> | [-> | [-> | [-> | [] ]]]]]; done.
  - intros doc e n viewer. split_and!.
    + exists (mk_nav_item "/receipt" "Stock Receipt" false). split; [|done].
      rewrite Sidebar_items. simpl. try rewrite decide_False by done.
      rewrite !elem_of_cons. tauto.
    + done.
    + exists (mk_nav_item "/dispatch" "Stock Dispatch" false). split; [|done].
      rewrite Sidebar_items. simpl. try rewrite decide_False by done.
      rewrite !elem_of_cons. tauto.
    + done.
Qed.

(** ** Inventory tabs and dashboard figures *)

Lemma status_name_inj s1 s2 : status_name s1 = status_name s2 -> s1 = s2.
Proof. by destruct s1, s2. Qed.

Lemma status_name_not_All s : status_name s <> "All".
Proof. by destruct s. Qed.

Lemma InventoryPage_rows_status db s :
  InventoryPage_rows db (status_name s)
  = filter (fun i => i_status i = s) (inventory_snapshot db).
Proof.
  unfold InventoryPage_rows. apply list_filter_iff. intros i. split.
  - intros [H|H]; [by apply status_name_not_All in H|by apply status_name_inj].
  - intros ->. by right.
Qed.

Lemma length_by_status (l : list snapshot) :
  length l
  = foldr (fun s n => (length (filter (fun i => i_status i = s) l) + n)%nat)
          0%nat statuses.
Proof.
  induction l as [|a l IH]; [done|].
  simpl in *. rewrite !filter_cons.
  destruct (i_status a); simpl; lia.
Qed.

(** X19: the status buttons of the inventory page partition the table.  The
    button All shows every snapshot; the button of a status shows exactly the
    snapshots of that status, in the order of the table; the five status tabs
    together hold as many rows as the table; and any other filter text shows
    nothing. *)
Theorem inventory_tabs_partition db :
  InventoryPage_rows db "All" = inventory_snapshot db
  /\ (forall s, InventoryPage_rows db (status_name s)
                = filter (fun i => i_status i = s) (inventory_snapshot db))
  /\ (forall s i, i ∈ InventoryPage_rows db (status_name s)
                  <-> i ∈ inventory_snapshot db /\ i_status i = s)
  /\ length (inventory_snapshot db)
     = foldr (fun s n => (length (InventoryPage_rows db (status_name s)) + n)%nat)
             0%nat statuses
  /\ (forall tab, tab <> "All" -> (forall s, status_name s <> tab) ->
        InventoryPage_rows db tab = []).
Proof.
  split_and!.
  - unfold InventoryPage_rows.
    induction (inventory_snapshot db) as [|a l IH]; [done|].
    rewrite filter_cons, decide_True by (by left). by rewrite IH.
  - apply InventoryPage_rows_status.
  - intros s i. rewrite InventoryPage_rows_status, list_elem_of_filter. tauto.
  - rewrite (length_by_status (inventory_snapshot db)).
    unfold statuses. cbn [foldr].
    by rewrite !InventoryPage_rows_status.
  - intros tab Hall Hs. unfold InventoryPage_rows. apply filter_none.
    intros i _ [H|H]; [done|]. by apply (Hs (i_status i)).
Qed.

Lemma Z_or_0_Some v : Z_or_0 (Some v) = v.
Proof. unfold Z_or_0. by case_decide. Qed.

Lemma Q_or_0_Some v : (Q_or_0 (Some v) == v)%Q.
Proof. unfold Q_or_0. destruct (Qeq_dec v 0) as [H|H]; [by rewrite H|reflexivity]. Qed.

Lemma total_quantity_app l1 l2 :
  total_quantity (l1 ++ l2) = total_quantity l1 + total_quantity l2.
Proof. induction l1 as [|a l1 IH]; simpl; [done|]. rewrite IH. lia. Qed.

Lemma fold_left_quantity l : forall a,
  fold_left (fun a b => a + Z_or_0 (Some (i_quantity b))) l a
  = a + total_quantity l.
Proof.
  induction l as [|i l IH]; intros a; [simpl; lia|].
  cbn [fold_left]. rewrite IH, Z_or_0_Some. simpl. lia.
Qed.

Lemma doughnut_fold l : forall b f o t d,
  fold_left (fun counts i =>
               assign (i_status i) (fun o => Z_or_0 o + i_quantity i) counts)
    l [(Bonded, b); (FAK, f); (OnSite, o); (InTransit, t); (Dispatched, d)]
  = [(Bonded, b + total_quantity (filter (fun i => i_status i = Bonded) l));
     (FAK, f + total_quantity (filter (fun i => i_status i = FAK) l));
     (OnSite, o + total_quantity (filter (fun i => i_status i = OnSite) l));
     (InTransit, t + total_quantity (filter (fun i => i_status i = InTransit) l));
     (Dispatched, d + total_quantity (filter (fun i => i_status i = Dispatched) l))].
Proof.
  induction l as [|a l IH]; intros b f o t d.
  - simpl. by rewrite !Z.add_0_r.
  - rewrite !filter_cons. simpl.
    destruct (i_status a); simpl; rewrite IH, Z_or_0_Some;
      by rewrite Z.add_assoc.
Qed.

Lemma total_quantity_by_status l :
  total_quantity l
  = foldr (fun s n => total_quantity (filter (fun i => i_status i = s) l) + n)
          0 statuses.
Proof.
  induction l as [|a l IH]; [done|].
  simpl in *. rewrite !filter_cons.
  destruct (i_status a); simpl; lia.
Qed.

(** X20: the doughnut of the dashboard.  It has one slice per status, in
    the order Bonded, FAK, On Site, In Transit, Dispatched; the value of a
    slice is the sum of the quantities of the snapshots of that status; the
    slices add up to the total quantity of the inventory; and the On Site
    figure of the dashboard is the value of the On Site slice. *)
Theorem doughnut_slices db :
  doughnutData db
  = (fun s => (s, total_quantity
                    (filter (fun i => i_status i = s) (inventory_snapshot db))))
      <$> statuses
  /\ chart_total (doughnutData db) = total_quantity (inventory_snapshot db)
  /\ entry OnSite (doughnutData db) = Some (onSite db).
Proof.
  assert (Hd : doughnutData db
    = (fun s => (s, total_quantity
                      (filter (fun i => i_status i = s) (inventory_snapshot db))))
        <$> statuses).
  { unfold doughnutData. simpl. by rewrite doughnut_fold. }
  split_and!; [done| |].
  - rewrite Hd, (total_quantity_by_status (inventory_snapshot db)).
    unfold chart_total. simpl. lia.
  - rewrite Hd. unfold onSite. rewrite fold_left_quantity. simpl. f_equal; lia.
Qed.

(** ** Fuel by vehicle *)

Lemma Set_add_cons_ne {A : Type} `{EqDecision A} (a x : A) (acc : list A) :
  a <> x -> Set_add (a :: acc) x = a :: Set_add acc x.
Proof.
  intros Hne. unfold Set_add.
  destruct (decide (x ∈ acc)) as [Hin|Hin].
  - rewrite decide_True; [done|]. by right.
  - rewrite decide_False; [done|].
    rewrite elem_of_cons. intros [->|?]; done.
Qed.

Lemma assign_keys {K V : Type} `{EqDecision K} (k : K) (f : option V -> V)
  (m : list (K * V)) :
  (assign k f m).*1 = Set_add m.*1 k.
Proof.
  induction m as [|[k1 v] m IH]; simpl; [done|].
  case_decide as Hk; simpl.
  - subst k1. unfold Set_add. rewrite decide_True; [done|]. left.
  - rewrite Set_add_cons_ne by done. f_equal. exact IH.
Qed.

Lemma entry_assign_eq {K V : Type} `{EqDecision K} (k : K) (f : option V -> V)
  (m : list (K * V)) :
  entry k (assign k f m) = Some (f (entry k m)).
Proof.
  induction m as [|[k1 v] m IH]; simpl.
  - by rewrite decide_True.
  - case_decide as Hk; simpl.
    + by rewrite decide_True.
    + by rewrite decide_False.
Qed.

Lemma entry_assign_ne {K V : Type} `{EqDecision K} (k k0 : K) (f : option V -> V)
  (m : list (K * V)) :
  k <> k0 -> entry k0 (assign k f m) = entry k0 m.
Proof.
  intros Hne. induction m as [|[k1 v] m IH]; simpl.
  - by rewrite decide_False.
  - case_decide as Hk; simpl.
    + subst k1. by rewrite !decide_False.
    + by rewrite IH.
Qed.

Lemma entry_elem {K V : Type} `{EqDecision K} (k : K) (v : V) (m : list (K * V)) :
  NoDup m.*1 -> (k, v) ∈ m -> entry k m = Some v.
Proof.
  induction m as [|[k1 v1] m IH]; simpl; intros Hnd Hin.
  - by apply elem_of_nil in Hin.
  - apply NoDup_cons in Hnd as [Hk1 Hnd].
    apply elem_of_cons in Hin as [[= <- <-]|Hin].
    + by rewrite decide_True.
    + rewrite decide_False; [by apply IH|].
      intros ->. apply Hk1. apply list_elem_of_fmap. by exists (k, v).
Qed.

Lemma Set_add_NoDup {A : Type} `{EqDecision A} (acc : list A) (x : A) :
  NoDup acc -> NoDup (Set_add acc x).
Proof.
  intros Hnd. unfold Set_add. case_decide as Hin; [done|].
  apply NoDup_app. split_and!; [done| |apply NoDup_singleton].
  by intros y Hy ->%list_elem_of_singleton.
Qed.

Lemma Set_add_elem {A : Type} `{EqDecision A} (acc : list A) (x y : A) :
  y ∈ Set_add acc x <-> y ∈ acc \/ y = x.
Proof.
  unfold Set_add. case_decide as Hin.
  - split; [tauto|]. by intros [?| ->].
  - by rewrite elem_of_app, list_elem_of_singleton.
Qed.

Lemma fold_Set_add_NoDup {A : Type} `{EqDecision A} (l : list A) : forall acc,
  NoDup acc -> NoDup (fold_left Set_add l acc).
Proof.
  induction l as [|x l IH]; intros acc Hnd; simpl; [done|].
  by apply IH, Set_add_NoDup.
Qed.

Lemma fold_Set_add_elem {A : Type} `{EqDecision A} (l : list A) : forall acc y,
  y ∈ fold_left Set_add l acc <-> y ∈ acc \/ y ∈ l.
Proof.
  induction l as [|x l IH]; intros acc y; simpl.
  - rewrite elem_of_nil. tauto.
  - rewrite IH, Set_add_elem, elem_of_cons. tauto.
Qed.

Lemma fuelByVehicle_keys l : forall m,
  (fold_left (fun m t =>
                assign (t_vehicle_reg t)
                  (fun o => (Q_or_0 o + Q_or_0 (Some (fuel_used_l t)))%Q) m)
             l m).*1
  = fold_left Set_add (t_vehicle_reg <$> l) m.*1.
Proof.
  induction l as [|t l IH]; intros m; simpl; [done|].
  by rewrite IH, assign_keys.
Qed.

(** The bar of a vehicle is touched by the trips of that vehicle only, one
    after the other. *)
Lemma fuelByVehicle_entry v l : forall m,
  entry v (fold_left (fun m t =>
                        assign (t_vehicle_reg t)
                          (fun o => (Q_or_0 o + Q_or_0 (Some (fuel_used_l t)))%Q) m)
                     l m)
  = fold_left (fun o t => Some (Q_or_0 o + Q_or_0 (Some (fuel_used_l t)))%Q)
              (filter (fun t => t_vehicle_reg t = v) l) (entry v m).
Proof.
  induction l as [|t l IH]; intros m; simpl; [done|].
  rewrite IH, filter_cons.
  destruct (decide (t_vehicle_reg t = v)) as [<-|Hne].
  - by rewrite entry_assign_eq.
  - by rewrite entry_assign_ne.
Qed.

Lemma Q_or_0_nonneg o :
  match o with Some x => (0 <= x)%Q | None => True end -> (0 <= Q_or_0 o)%Q.
Proof.
  destruct o as [x|]; intros Hx.
  - by rewrite Q_or_0_Some.
  - change (Q_or_0 None) with 0%Q. lra.
Qed.

Lemma running_fuel_nonneg l : forall o x,
  Forall (fun t => (0 <= fuel_used_l t)%Q) l ->
  match o with Some y => (0 <= y)%Q | None => True end ->
  fold_left (fun o t => Some (Q_or_0 o + Q_or_0 (Some (fuel_used_l t)))%Q) l o
  = Some x ->
  (0 <= x)%Q.
Proof.
  induction l as [|t l IH]; intros o x Hl Ho; simpl.
  - intros ->. exact Ho.
  - apply Forall_cons in Hl as [Ht Hl]. apply IH; [done|].
    pose proof (Q_or_0_nonneg o Ho) as H1.
    pose proof (Q_or_0_nonneg (Some (fuel_used_l t)) Ht) as H2. lra.
Qed.

(** X21: fuel by vehicle.  The chart has one bar per distinct vehicle
    registration of the trips, that is, one bar per vehicle card (stated up
    to the order of the bars, which for a JavaScript object depends on the
    form of the keys); the value of the bar of a vehicle is the running total
    of the fuel of that vehicle's trips, added one after the other in the
    order of the document, the trips of the other vehicles having no part in
    it; and no bar is negative when no trip has a negative fuel use. *)
Theorem fuelByVehicle_bars db :
  (fuelByVehicle db).*1 ≡ₚ Set_from (t_vehicle_reg <$> transport_trips db)
  /\ (fuelByVehicle db).*1 ≡ₚ c_vehicle_reg <$> VehicleStatusCards db
  /\ NoDup (fuelByVehicle db).*1
  /\ (forall v, v ∈ (fuelByVehicle db).*1
                <-> v ∈ t_vehicle_reg <$> transport_trips db)
  /\ (forall v,
        entry v (fuelByVehicle db)
        = running_fuel (filter (fun t => t_vehicle_reg t = v)
                               (transport_trips db)))
  /\ (Forall (fun t => (0 <= fuel_used_l t)%Q) (transport_trips db) ->
      forall v x, (v, x) ∈ fuelByVehicle db -> (0 <= x)%Q).
Proof.
  pose proof (fuelByVehicle_keys (transport_trips db) []) as Hk.
  fold (fuelByVehicle db) in Hk. simpl in Hk.
  assert (Hnd : NoDup (fuelByVehicle db).*1).
  { rewrite Hk. apply fold_Set_add_NoDup, NoDup_nil_2. }
  assert (He : forall v,
             entry v (fuelByVehicle db)
             = running_fuel (filter (fun t => t_vehicle_reg t = v)
                                    (transport_trips db))).
  { intros v. apply (fuelByVehicle_entry v (transport_trips db) []). }
  split_and!; [by rewrite Hk| |done| |done|].
  - rewrite Hk. unfold VehicleStatusCards.
    rewrite <- list_fmap_compose. simpl.
    by rewrite list_fmap_id.
  - intros v. rewrite Hk, fold_Set_add_elem, elem_of_nil. tauto.
  - intros Hall v x Hin.
    pose proof (entry_elem v x _ Hnd Hin) as Hx. rewrite He in Hx.
    apply (running_fuel_nonneg
             (filter (fun t => t_vehicle_reg t = v) (transport_trips db)) None x);
      [|done|exact Hx].
    apply Forall_forall. intros t Ht.
    apply list_elem_of_filter in Ht as [_ Ht].
    by eapply Forall_forall in Hall.
Qed.

(** ** Trips of a vehicle: the rows and the table *)

Lemma sort_insert_ext {A : Type} (cmp1 cmp2 : A -> A -> Z) x l :
  (forall a b, cmp1 a b = cmp2 a b) ->
  sort_insert cmp1 x l = sort_insert cmp2 x l.
Proof.
  intros Hc. induction l as [|y l IH]; simpl; [done|].
  rewrite Hc, IH. done.
Qed.

Lemma Array_sort_ext {A : Type} (cmp1 cmp2 : A -> A -> Z) l :
  (forall a b, cmp1 a b = cmp2 a b) ->
  Array_sort cmp1 l = Array_sort cmp2 l.
Proof.
  intros Hc. induction l as [|x l IH]; simpl; [done|].
  by rewrite IH, (sort_insert_ext cmp1 cmp2).
Qed.

(** Sorting by descending start time is sorting by the negated start time. *)
Lemma TripHistoryModal_rows_by_key db vehicle :
  TripHistoryModal_rows db vehicle
  = Array_sort (fun a b => (fun t => - start_time t) a - (fun t => - start_time t) b)
      (filter (fun t => t_vehicle_reg t = vehicle) (transport_trips db)).
Proof.
  unfold TripHistoryModal_rows. apply Array_sort_ext. intros a b. lia.
Qed.

Lemma TripHistoryModal_rows_perm db vehicle :
  TripHistoryModal_rows db vehicle
  ≡ₚ filter (fun t => t_vehicle_reg t = vehicle) (transport_trips db).
Proof.
  rewrite TripHistoryModal_rows_by_key.
  apply (Array_sort_perm (fun t => - start_time t)).
Qed.

Lemma TripHistoryModal_rows_sorted db vehicle (i j : nat) a b :
  (i < j)%nat ->
  TripHistoryModal_rows db vehicle !! i = Some a ->
  TripHistoryModal_rows db vehicle !! j = Some b ->
  start_time b <= start_time a.
Proof.
  rewrite TripHistoryModal_rows_by_key. intros Hij Hi Hj.
  pose proof (StronglySorted_lookup
                (fun a b : trip => - start_time a <= - start_time b) _
                (Array_sort_sorted (fun t => - start_time t) _) i j a b Hij Hi Hj)
    as Hs.
  simpl in Hs. lia.
Qed.

Lemma TripHistoryModal_rows_stable db vehicle s :
  filter (fun t => start_time t = s) (TripHistoryModal_rows db vehicle)
  = filter (fun t => start_time t = s)
      (filter (fun t => t_vehicle_reg t = vehicle) (transport_trips db)).
Proof.
  rewrite TripHistoryModal_rows_by_key.
  rewrite (list_filter_iff (fun t => start_time t = s)
             (fun t => - start_time t = - s)) by (intros t; lia).
  rewrite (Array_sort_stable (fun t => - start_time t)).
  apply list_filter_iff. intros t. lia.
Qed.

Lemma TripHistoryModal_rows_elem db vehicle t :
  t ∈ TripHistoryModal_rows db vehicle
  <-> t ∈ transport_trips db /\ t_vehicle_reg t = vehicle.
Proof.
  rewrite TripHistoryModal_rows_perm, list_elem_of_filter. tauto.
Qed.

Lemma sort_insert_sign {A : Type} (cmp1 cmp2 : A -> A -> Z) x l :
  (forall a b, cmp1 a b <= 0 <-> cmp2 a b <= 0) ->
  sort_insert cmp1 x l = sort_insert cmp2 x l.
Proof.
  intros Hc. induction l as [|y l IH]; simpl; [done|].
  rewrite IH. destruct (decide (cmp1 x y <= 0)) as [H1|H1].
  - by rewrite decide_True by (by apply Hc).
  - rewrite decide_False; [done|]. intros H2. by apply H1, Hc.
Qed.

Lemma Array_sort_sign {A : Type} (cmp1 cmp2 : A -> A -> Z) l :
  (forall a b, cmp1 a b <= 0 <-> cmp2 a b <= 0) ->
  Array_sort cmp1 l = Array_sort cmp2 l.
Proof.
  intros Hc. induction l as [|x l IH]; simpl; [done|].
  by rewrite IH, (sort_insert_sign cmp1 cmp2).
Qed.

(** The comparator of the table puts rows in the order of their keys, or of
    the negated keys. *)
Lemma DataTable_filtered_asc {A : Type} (key : A -> Z) rows :
  DataTable_filtered key asc rows = Array_sort (fun a b => key a - key b) rows.
Proof.
  apply Array_sort_sign. intros a b. unfold DataTable_compare. simpl.
  repeat case_decide; lia.
Qed.

Lemma DataTable_filtered_desc {A : Type} (key : A -> Z) rows :
  DataTable_filtered key desc rows
  = Array_sort (fun a b => (fun t => - key t) a - (fun t => - key t) b) rows.
Proof.
  apply Array_sort_sign. intros a b. unfold DataTable_compare. simpl.
  repeat case_decide; lia.
Qed.

(** X22: the trip history of a vehicle, as the table of the modal lists it.
    When the modal opens the table is sorted on its first column, the start
    time, ascending: the rows listed are exactly the trips of that vehicle,
    each once, ordered by start time with the earliest first; trips with the
    same start time keep the order they have in the document; and there is
    no row exactly when the vehicle has no trip.  After one click on the
    header of the start time the same trips are listed with the latest
    first, equal start times again in the order of the document. *)
Theorem trip_history_oldest_first db vehicle :
  let trips := filter (fun t => t_vehicle_reg t = vehicle) (transport_trips db) in
  let listed := TripHistoryModal_listed db vehicle asc in
  let clicked := TripHistoryModal_listed db vehicle (toggle asc) in
  listed ≡ₚ trips
  /\ (forall t, t ∈ listed <-> t ∈ transport_trips db /\ t_vehicle_reg t = vehicle)
  /\ (forall (i j : nat) a b, (i < j)%nat ->
        listed !! i = Some a -> listed !! j = Some b ->
        start_time a <= start_time b)
  /\ (forall s,
        filter (fun t => start_time t = s) listed
        = filter (fun t => start_time t = s) trips)
  /\ (listed = [] <-> vehicle ∉ t_vehicle_reg <$> transport_trips db)
  /\ clicked ≡ₚ trips
  /\ (forall (i j : nat) a b, (i < j)%nat ->
        clicked !! i = Some a -> clicked !! j = Some b ->
        start_time b <= start_time a)
  /\ (forall s,
        filter (fun t => start_time t = s) clicked
        = filter (fun t => start_time t = s) trips).
Proof.
  intros trips listed clicked.
  assert (Hperm : listed ≡ₚ trips).
  { subst listed trips. unfold TripHistoryModal_listed.
    rewrite DataTable_filtered_asc, (Array_sort_perm start_time).
    apply TripHistoryModal_rows_perm. }
  assert (Helem : forall t,
             t ∈ listed <-> t ∈ transport_trips db /\ t_vehicle_reg t = vehicle).
  { intros t. rewrite Hperm. subst trips. rewrite list_elem_of_filter. tauto. }
  split_and!; [done|done| | | | | |].
  - subst listed. unfold TripHistoryModal_listed.
    rewrite DataTable_filtered_asc.
    apply (StronglySorted_lookup (fun a b => start_time a <= start_time b)).
    apply (Array_sort_sorted start_time).
  - intros s. subst listed trips. unfold TripHistoryModal_listed.
    rewrite DataTable_filtered_asc, (Array_sort_stable start_time).
    apply TripHistoryModal_rows_stable.
  - split.
    + intros Hnil Hin. apply list_elem_of_fmap in Hin as (t & -> & Hin).
      assert (Ht : t ∈ TripHistoryModal_listed db (t_vehicle_reg t) asc).
      { apply Helem. by split. }
      fold listed in Ht. rewrite Hnil in Ht. by apply elem_of_nil in Ht.
    + intros Hno. destruct listed as [|t l] eqn:Hrows; [done|].
      exfalso. apply Hno.
      assert (Ht : t ∈ t :: l) by left.
      apply Helem in Ht as [Hin <-].
      apply list_elem_of_fmap. by exists t.
  - subst clicked trips. unfold TripHistoryModal_listed. simpl.
    rewrite DataTable_filtered_desc, (Array_sort_perm (fun t => - start_time t)).
    apply TripHistoryModal_rows_perm.
  - subst clicked. unfold TripHistoryModal_listed. simpl.
    rewrite DataTable_filtered_desc. intros i j a b Hij Hi Hj.
    pose proof (StronglySorted_lookup
                  (fun a b : trip => - start_time a <= - start_time b) _
                  (Array_sort_sorted (fun t => - start_time t) _) i j a b Hij Hi Hj)
      as Hs.
    simpl in Hs. lia.
  - intros s. subst clicked trips. unfold TripHistoryModal_listed. simpl.
    rewrite DataTable_filtered_desc.
    rewrite (list_filter_iff (fun t => start_time t = s)
               (fun t => - start_time t = - s)) by (intros t; lia).
    rewrite (Array_sort_stable (fun t => - start_time t)).
    rewrite <- (list_filter_iff (fun t => start_time t = s)
                  (fun t => - start_time t = - s)) by (intros t; lia).
    apply TripHistoryModal_rows_stable.
Qed.

(** The first row for a vehicle that has trips: a trip of the vehicle with
    the latest start time, the first such trip of the document. *)
Lemma latest_trip db v :
  v ∈ t_vehicle_reg <$> transport_trips db ->
  exists t,
    head (TripHistoryModal_rows db v) = Some t
    /\ t ∈ transport_trips db
    /\ t_vehicle_reg t = v
    /\ (forall t1, t1 ∈ transport_trips db -> t_vehicle_reg t1 = v ->
          start_time t1 <= start_time t)
    /\ head (filter (fun t1 => start_time t1 = start_time t)
               (filter (fun t1 => t_vehicle_reg t1 = v) (transport_trips db)))
       = Some t.
Proof.
  intros Hv. apply list_elem_of_fmap in Hv as (t0 & -> & Hin0).
  assert (H0 : t0 ∈ TripHistoryModal_rows db (t_vehicle_reg t0))
    by (by apply TripHistoryModal_rows_elem).
  destruct (TripHistoryModal_rows db (t_vehicle_reg t0)) as [|t l] eqn:Hrows.
  { by apply elem_of_nil in H0. }
  assert (Ht : t ∈ TripHistoryModal_rows db (t_vehicle_reg t0))
    by (rewrite Hrows; left).
  apply TripHistoryModal_rows_elem in Ht as [Hin Hveh].
  exists t. split_and!; [done|done|done| |].
  - intros t1 Hin1 Hv1.
    assert (H1 : t1 ∈ TripHistoryModal_rows db (t_vehicle_reg t0))
      by (by apply TripHistoryModal_rows_elem).
    rewrite Hrows in H1. apply elem_of_cons in H1 as [->|H1]; [lia|].
    apply list_elem_of_lookup_1 in H1 as [j Hj].
    apply (TripHistoryModal_rows_sorted db (t_vehicle_reg t0) 0 (S j));
      [lia|by rewrite Hrows|by rewrite Hrows].
  - rewrite <- TripHistoryModal_rows_stable, Hrows, filter_cons.
    by rewrite decide_True.
Qed.

(** X23: the vehicle cards.  There is one card per distinct vehicle
    registration of the trips, in the order of first occurrence; each card
    shows the status and the driver (a dash when the name is empty) of a trip
    of its vehicle whose start time is the latest of that vehicle's trips,
    namely the first such trip of the document; the fallback status for a
    vehicle without trips is never needed. *)
Theorem vehicle_cards_latest db :
  c_vehicle_reg <$> VehicleStatusCards db
  = Set_from (t_vehicle_reg <$> transport_trips db)
  /\ NoDup (c_vehicle_reg <$> VehicleStatusCards db)
  /\ (forall v, v ∈ c_vehicle_reg <$> VehicleStatusCards db
                <-> v ∈ t_vehicle_reg <$> transport_trips db)
  /\ (forall card, card ∈ VehicleStatusCards db ->
        exists t,
          t ∈ transport_trips db
          /\ t_vehicle_reg t = c_vehicle_reg card
          /\ c_status card = t_trip_status t
          /\ c_driver card
             = (if decide (t_driver_name t = EmptyString) then "-"
                else t_driver_name t)
          /\ (forall t1, t1 ∈ transport_trips db ->
                t_vehicle_reg t1 = c_vehicle_reg card ->
                start_time t1 <= start_time t)
          /\ head (filter (fun t1 => start_time t1 = start_time t)
                     (filter (fun t1 => t_vehicle_reg t1 = c_vehicle_reg card)
                             (transport_trips db)))
             = Some t).
Proof.
  assert (Hregs : c_vehicle_reg <$> VehicleStatusCards db
                  = Set_from (t_vehicle_reg <$> transport_trips db)).
  { unfold VehicleStatusCards. rewrite <- list_fmap_compose. simpl.
    by rewrite list_fmap_id. }
  assert (Helem : forall v, v ∈ Set_from (t_vehicle_reg <$> transport_trips db)
                            <-> v ∈ t_vehicle_reg <$> transport_trips db).
  { intros v. unfold Set_from. rewrite fold_Set_add_elem, elem_of_nil. tauto. }
  split_and!; [done| | |].
  - rewrite Hregs. apply fold_Set_add_NoDup, NoDup_nil_2.
  - intros v. by rewrite Hregs.
  - intros card Hcard. unfold VehicleStatusCards in Hcard.
    apply list_elem_of_fmap in Hcard as (v & -> & Hv).
    apply Helem in Hv.
    destruct (latest_trip db v Hv) as (t & Hhead & Hin & Hveh & Hmax & Hfirst).
    exists t. unfold latest_card. rewrite Hhead. simpl. by split_and!.
Qed.

(** ** The transport log: generated trips and the cron *)

Lemma choice_elem {A : Type} random (d : A) (arr : list A) n :
  unit_samples random -> arr <> [] -> fst (choice random d arr n) ∈ arr.
Proof.
  intros Hr Harr. unfold choice, bind, ret.
  assert (Hlen : (0 < length arr)%nat) by (destruct arr; [done|simpl; lia]).
  pose proof (rand_range random 0 (Z.of_nat (length arr) - 1) n Hr ltac:(lia)) as Hi.
  destruct (rand random 0 (Z.of_nat (length arr) - 1) n) as [i k]. simpl in *.
  destruct (lookup_lt_is_Some_2 arr (Z.to_nat i) ltac:(lia)) as [x Hx].
  rewrite (nth_lookup_Some _ _ _ _ Hx). by eapply list_elem_of_lookup_2.
Qed.









(** ** The seed run: sizes, accounts and rows *)

Lemma times_length {A : Type} (c : Rand A) n : forall k,
  length (fst (times n c k)) = n.
Proof.
  induction n as [|n IH]; intros k; simpl; [done|].
  unfold bind, ret. destruct (c k) as [x k1]. specialize (IH k1).
  destruct (times n c k1) as [xs k2]. simpl in *. by rewrite IH.
Qed.

Lemma times_Forall {A : Type} (c : Rand A) (P : A -> Prop) n :
  (forall k, P (fst (c k))) -> forall k, Forall P (fst (times n c k)).
Proof.
  intros Hc. induction n as [|n IH]; intros k; simpl; [constructor|].
  unfold bind, ret. specialize (Hc k). destruct (c k) as [x k1].
  specialize (IH k1). destruct (times n c k1) as [xs k2]. simpl in *.
  by constructor.
Qed.

(** The collections of the generated document, each as the generator that
    made it. *)
Lemma seed_db_shape base36 random now tz n :
  let db := fst (seed_db base36 random now tz n) in
  let start := addDays tz now (-14) in
  exists n1 n2 n4 i1 i2 i3,
    vehicles db = fst (times 10 (seed_vehicle base36 random) n)
    /\ warehouse_receipts db
       = fst (times 50 (seed_receipt base36 random tz start (vehicles db)) n1)
    /\ dispatches db
       = fst (times 20 (seed_dispatch base36 random tz start (warehouse_receipts db)) n2)
    /\ transport_trips db
       = fst (times 30 (seed_trip base36 random tz start (vehicles db)) n4)
    /\ users db
       = [mk_user i1 "admin@curiata.dev" "Admin" "Admin User" None;
          mk_user i2 "supervisor@curiata.dev" "Supervisor" "Ops Supervisor" None;
          mk_user i3 "viewer@curiata.dev" "Viewer" "Read Only" None]
    /\ passwords db = seed_passwords.
Proof.
  unfold seed_db, draw_uid, bind, Math_random, ret.
  destruct (times 10 (seed_vehicle base36 random) n) as [vs n1] eqn:Hvs.
  destruct (times 50 (seed_receipt base36 random tz _ vs) n1) as [rs n2] eqn:Hrs.
  destruct (times 20 (seed_dispatch base36 random tz _ rs) n2) as [ds n3] eqn:Hds.
  destruct (for_each (seed_snapshot base36 random) (byCargo rs ds) n3)
    as [inv n4].
  destruct (times 30 (seed_trip base36 random tz _ vs) n4) as [ts n5] eqn:Hts.
  cbn [fst vehicles warehouse_receipts dispatches transport_trips users passwords].
  exists n1, n2, n4. do 3 eexists.
  rewrite Hrs, Hds, Hts. by split_and!.
Qed.

(** X26: the first sign-in on an empty store.  When the store holds no
    (non-empty) document, signing in with one of the three demo credentials
    seeds the store and succeeds: the document stored has 10 vehicles, 50
    receipts, 20 dispatches, 30 trips and 3 users, and the session stored
    carries the role Admin, Supervisor or Viewer of the account, whatever the
    samples and the clock. *)
Theorem first_sign_in_seeds base36 random now tz st :
  item_truthy (cc_seed_v1 st) = false ->
  exists db,
    cc_seed_v1 (seedIfNeeded base36 random now tz st) = Some (Json db)
    /\ length (vehicles db) = 10%nat
    /\ length (warehouse_receipts db) = 50%nat
    /\ length (dispatches db) = 20%nat
    /\ length (transport_trips db) = 30%nat
    /\ length (users db) = 3%nat
    /\ doLogin base36 random now tz st "admin@curiata.dev" "admin123"
       = (Navigated "#/dashboard",
          setAuth (mk_auth "admin@curiata.dev" "Admin" "Admin User") (setDB db st))
    /\ doLogin base36 random now tz st "supervisor@curiata.dev" "super123"
       = (Navigated "#/dashboard",
          setAuth (mk_auth "supervisor@curiata.dev" "Supervisor" "Ops Supervisor")
                  (setDB db st))
    /\ doLogin base36 random now tz st "viewer@curiata.dev" "view123"
       = (Navigated "#/dashboard",
          setAuth (mk_auth "viewer@curiata.dev" "Viewer" "Read Only") (setDB db st)).
Proof.
  intros Ht.
  pose proof (getDB_missing base36 random now tz st Ht) as Hg. cbv zeta in Hg.
  destruct (seed_db_shape base36 random now tz 0)
    as (n1 & n2 & n4 & i1 & i2 & i3 & Hv & Hr & Hd & Htr & Hu & Hp).
  cbv zeta in Hv, Hr, Hd, Htr, Hu, Hp.
  unfold seedIfNeeded, doLogin. rewrite Ht, Hg.
  set (db := fst (seed_db base36 random now tz 0%nat)) in *. clearbody db.
  exists db. split; [done|].
  rewrite Hv, Hr, Hd, Htr, !times_length.
  unfold password_ok. rewrite Hu, Hp. by split_and!.
Qed.

Lemma first_sign_in_seeds_witness :
  let st := mk_storage None None in
  exists db,
    cc_seed_v1 (seedIfNeeded plain36 (fun _ => 0%Q) 0 utc st) = Some (Json db)
    /\ length (warehouse_receipts db) = 50%nat
    /\ cc_auth (snd (doLogin plain36 (fun _ => 0%Q) 0 utc st
                       "viewer@curiata.dev" "view123"))
       = Some (mk_auth "viewer@curiata.dev" "Viewer" "Read Only").
Proof.
  intros st.
  destruct (first_sign_in_seeds plain36 (fun _ => 0%Q) 0 utc st eq_refl)
    as (db & Hdoc & _ & Hlen & _ & _ & _ & _ & _ & Hviewer).
  exists db. split; [exact Hdoc|]. split; [exact Hlen|].
  by rewrite Hviewer.
Defined.

Lemma inject_Z_nonneg z : 0 <= z -> (0 <= inject_Z z)%Q.
Proof. intros Hz. change 0%Q with (inject_Z 0). by rewrite <- Zle_Qle. Qed.

Lemma seed_receipt_spec base36 random tz start vs n :
  unit_samples random -> vs <> [] ->
  let r := fst (seed_receipt base36 random tz start vs n) in
  1 <= quantity r <= 200
  /\ total_qty r = quantity r
  /\ (inject_Z (quantity r * 5) - (1 # 20) <= weight_kg r)%Q
  /\ (weight_kg r <= inject_Z (quantity r * 10) + (1 # 20))%Q
  /\ (exists k, 0 <= k <= 14 /\ date_in r = addDays tz start k)
  /\ (exists e, 10 <= e <= 60 /\ expiry_date r = addDays tz (date_in r) e)
  /\ (exists i, 0 <= i <= 3 /\ inspection_date r = addDays tz (date_in r) i)
  /\ (exists c, 100 <= c <= 999 /\ r_cargo_id r = "CG-" +:+ pretty c)
  /\ r_vehicle_reg r ∈ v_vehicle_reg <$> vs
  /\ r_driver_name r ∈ drivers.
Proof.
  intros Hr Hvs. unfold seed_receipt, draw_uid, bind, Math_random, ret.
  pose proof (rand_range random 0 14 n Hr ltac:(lia)) as Hk.
  destruct (rand random 0 14 n) as [k n1].
  pose proof (rand_range random 1 200 n1 Hr ltac:(lia)) as Hq.
  destruct (rand random 1 200 n1) as [q n2]. cbn [fst] in Hk, Hq.
  assert (Hw := numberBetween_range random (inject_Z (q * 5)) (inject_Z (q * 10)) n2
                  Hr (inject_Z_nonneg (q * 5) ltac:(lia))).
  rewrite <- Zle_Qle in Hw. specialize (Hw ltac:(lia)). cbv zeta in Hw.
  destruct (numberBetween random (inject_Z (q * 5)) (inject_Z (q * 10)) 1 n2)
    as [w n3].
  pose proof (rand_range random 100 999 n3 Hr ltac:(lia)) as Hc.
  destruct (rand random 100 999 n3) as [c n4].
  destruct (rand random 10000 99999 (S n4)) as [indent n5].
  destruct (choice random EmptyString marks n5) as [mn n6].
  pose proof (choice_elem random no_vehicle vs n6 Hr Hvs) as Hv.
  destruct (choice random no_vehicle vs n6) as [v n7].
  pose proof (choice_elem random EmptyString drivers n7 Hr ltac:(done)) as Hdn.
  destruct (choice random EmptyString drivers n7) as [dn n8].
  pose proof (rand_range random 10 60 n8 Hr ltac:(lia)) as He.
  destruct (rand random 10 60 n8) as [e n9].
  pose proof (rand_range random 0 3 n9 Hr ltac:(lia)) as Hi.
  destruct (rand random 0 3 n9) as [i n10].
  cbn [fst quantity total_qty weight_kg date_in expiry_date inspection_date
       r_cargo_id r_vehicle_reg r_driver_name] in *.
  split_and!; try lia; try tauto; try done.
  - by exists k.
  - by exists e.
  - by exists i.
  - by exists c.
  - apply list_elem_of_fmap. by exists v.
Qed.

Lemma seed_dispatch_spec base36 random tz start rs n :
  unit_samples random -> rs <> [] ->
  let d := fst (seed_dispatch base36 random tz start rs n) in
  1 <= qty_packed d <= 150
  /\ (inject_Z (qty_packed d * 5) - (1 # 20) <= total_weight_kg d)%Q
  /\ (total_weight_kg d <= inject_Z (qty_packed d * 10) + (1 # 20))%Q
  /\ (exists k, 0 <= k <= 14 /\ date_packed d = addDays tz start k)
  /\ (exists j, 0 <= j <= 2 /\ date_dispatched d = addDays tz (date_packed d) j)
  /\ d_cargo_id d ∈ r_cargo_id <$> rs
  /\ d_driver_name d ∈ drivers.
Proof.
  intros Hr Hrs. unfold seed_dispatch, draw_uid, bind, Math_random, ret.
  pose proof (rand_range random 0 14 n Hr ltac:(lia)) as Hk.
  destruct (rand random 0 14 n) as [k n1].
  pose proof (rand_range random 0 2 n1 Hr ltac:(lia)) as Hj.
  destruct (rand random 0 2 n1) as [j n2].
  pose proof (rand_range random 1 150 n2 Hr ltac:(lia)) as Hq.
  destruct (rand random 1 150 n2) as [q n3]. cbn [fst] in Hk, Hj, Hq.
  pose proof (choice_elem random no_receipt rs n3 Hr Hrs) as Hrc.
  destruct (choice random no_receipt rs n3) as [r n4].
  destruct (rand random 1000000 9999999 (S n4)) as [cn n5].
  destruct (rand random 100000 999999 n5) as [s1 n6].
  destruct (rand random 100000 999999 n6) as [s2 n7].
  destruct (rand random 1000 9999 n7) as [tr n8].
  pose proof (choice_elem random EmptyString drivers n8 Hr ltac:(done)) as Hdn.
  destruct (choice random EmptyString drivers n8) as [dn n9].
  destruct (choice random EmptyString marks n9) as [mn n10].
  assert (Hw := numberBetween_range random (inject_Z (q * 5)) (inject_Z (q * 10)) n10
                  Hr (inject_Z_nonneg (q * 5) ltac:(lia))).
  rewrite <- Zle_Qle in Hw. specialize (Hw ltac:(lia)). cbv zeta in Hw.
  destruct (numberBetween random (inject_Z (q * 5)) (inject_Z (q * 10)) 1 n10)
    as [w n11].
  cbn [fst qty_packed total_weight_kg date_packed date_dispatched d_cargo_id
       d_driver_name] in *.
  split_and!; try lia; try tauto; try done.
  - by exists k.
  - by exists j.
  - apply list_elem_of_fmap. by exists r.
Qed.

Lemma seed_trip_spec base36 random tz start vs n :
  unit_samples random -> vs <> [] ->
  let t := fst (seed_trip base36 random tz start vs n) in
  (exists k, 0 <= k <= 14 /\ start_time t = addDays tz start k)
  /\ (exists h, 1 <= h <= 8
                /\ end_time t = setHours tz (addDays tz (start_time t) 0)
                                         (getHours tz (start_time t) + h))
  /\ t_vehicle_reg t ∈ v_vehicle_reg <$> vs
  /\ (10 - (1 # 20) <= distance_km t)%Q /\ (distance_km t <= 600 + (1 # 20))%Q
  /\ (2 - (1 # 20) <= fuel_used_l t)%Q /\ (fuel_used_l t <= 120 + (1 # 20))%Q
  /\ t_driver_name t ∈ drivers.
Proof.
  intros Hr Hvs. unfold seed_trip, draw_uid, bind, Math_random, ret.
  pose proof (rand_range random 0 14 n Hr ltac:(lia)) as Hk.
  destruct (rand random 0 14 n) as [k n1].
  pose proof (rand_range random 1 8 n1 Hr ltac:(lia)) as Hh.
  destruct (rand random 1 8 n1) as [h n2].
  pose proof (choice_elem random no_vehicle vs (S n2) Hr Hvs) as Hv.
  destruct (choice random no_vehicle vs (S n2)) as [v n3].
  pose proof (numberBetween_range random 10 600 n3 Hr ltac:(lra) ltac:(lra)) as Hd.
  destruct (numberBetween random 10 600 1 n3) as [dist n4].
  pose proof (numberBetween_range random 2 120 n4 Hr ltac:(lra) ltac:(lra)) as Hf.
  destruct (numberBetween random 2 120 1 n4) as [fuel n5].
  destruct (rand random 1000000 9999999 n5) as [cn n6].
  pose proof (choice_elem random EmptyString drivers n6 Hr ltac:(done)) as Hdn.
  destruct (choice random EmptyString drivers n6) as [dn n7].
  destruct (choice random Idle [Idle; Active; Completed] n7) as [ts n8].
  cbn [fst start_time end_time t_vehicle_reg distance_km fuel_used_l
       t_driver_name] in *.
  split_and!; try lia; try tauto; try done.
  - by exists k.
  - by exists h.
  - apply list_elem_of_fmap. by exists v.
Qed.

Lemma addDays_fixed tz d n :
  fixed_offset tz -> addDays tz d n = d + n * 86400000.
Proof. intros (Hday & _). apply Hday. Qed.

Lemma utc_fixed_offset : fixed_offset utc.
Proof. split_and!; intros d n; simpl; lia. Qed.

Lemma nonempty_of_length {A : Type} (l : list A) n :
  length l = S n -> l <> [].
Proof. by destruct l. Qed.

Lemma Forall2_Forall_right {A B : Type} (R : A -> B -> Prop) (P : B -> Prop) l1 l2 :
  (forall a b, R a b -> P b) -> Forall2 R l1 l2 -> Forall P l2.
Proof. intros HRP. induction 1; constructor; eauto. Qed.

Lemma snapshot_of_tally_ok e inv : snapshot_of_tally e inv -> snapshot_ok inv.
Proof.
  intros (_ & Hq & Hst & Hw & _). split_and!; [lia|done|].
  intros Hd. case_decide as Hle; [lia|].
  rewrite Hd in Hst. unfold invStatuses in Hst.
  rewrite !elem_of_cons, elem_of_nil in Hst.
  destruct Hst as [H|[H|[H|[H|[]]]]]; discriminate H.
Qed.

(** X27: the ledger the seed generates.  With samples of the unit
    interval: every receipt has a quantity from 1 to 200 (also its total
    quantity), a weight between 5 and 10 times the quantity up to the rounding
    to one decimal, a cargo id CG- and a number from 100 to 999, the
    registration of a generated vehicle, and a date that is [addDays] of the
    start (itself [addDays] of now by -14) by 0 to 14 days, with the expiry
    10 to 60 and the inspection 0 to 3 days on from that date; every dispatch
    packs 1 to 150, weighs between 5 and 10 times that, is packed 0 to 14 days
    on from the start and dispatched 0 to 2 days on from that, and names the
    cargo id of a generated receipt; so the inventory has a snapshot exactly
    for the cargo ids of the receipts, and every snapshot is well formed.  On
    a host without daylight saving the days are days of 24 hours: the dates
    of the receipts lie within the 14 days before now. *)
Theorem seed_ledger_rows base36 random now tz n :
  unit_samples random ->
  let db := fst (seed_db base36 random now tz n) in
  let start := addDays tz now (-14) in
  Forall (fun r =>
            1 <= quantity r <= 200
            /\ total_qty r = quantity r
            /\ (inject_Z (quantity r * 5) - (1 # 20) <= weight_kg r)%Q
            /\ (weight_kg r <= inject_Z (quantity r * 10) + (1 # 20))%Q
            /\ (exists k, 0 <= k <= 14 /\ date_in r = addDays tz start k)
            /\ (exists e, 10 <= e <= 60
                          /\ expiry_date r = addDays tz (date_in r) e)
            /\ (exists i, 0 <= i <= 3
                          /\ inspection_date r = addDays tz (date_in r) i)
            /\ (exists c, 100 <= c <= 999 /\ r_cargo_id r = "CG-" +:+ pretty c)
            /\ r_vehicle_reg r ∈ v_vehicle_reg <$> vehicles db
            /\ (fixed_offset tz ->
                now - 14 * 86400000 <= date_in r <= now
                /\ date_in r + 10 * 86400000 <= expiry_date r
                   <= date_in r + 60 * 86400000
                /\ date_in r <= inspection_date r
                   <= date_in r + 3 * 86400000))
         (warehouse_receipts db)
  /\ Forall (fun d =>
               1 <= qty_packed d <= 150
               /\ (inject_Z (qty_packed d * 5) - (1 # 20) <= total_weight_kg d)%Q
               /\ (total_weight_kg d <= inject_Z (qty_packed d * 10) + (1 # 20))%Q
               /\ (exists k, 0 <= k <= 14 /\ date_packed d = addDays tz start k)
               /\ (exists j, 0 <= j <= 2
                             /\ date_dispatched d = addDays tz (date_packed d) j)
               /\ d_cargo_id d ∈ r_cargo_id <$> warehouse_receipts db
               /\ (fixed_offset tz ->
                   now - 14 * 86400000 <= date_packed d <= now
                   /\ date_packed d <= date_dispatched d
                      <= date_packed d + 2 * 86400000))
            (dispatches db)
  /\ (forall c, c ∈ i_cargo_id <$> inventory_snapshot db
                <-> c ∈ r_cargo_id <$> warehouse_receipts db)
  /\ Forall snapshot_ok (inventory_snapshot db).
Proof.
  intros Hr db start.
  destruct (seed_db_shape base36 random now tz n)
    as (n1 & n2 & n4 & i1 & i2 & i3 & Hv & Hrs & Hds & _).
  destruct (seed_db_inventory base36 random now tz n) as (k & Hinv).
  fold db in Hv, Hrs, Hds, Hinv. cbv zeta in Hrs, Hds.
  fold start in Hrs, Hds. clearbody db.
  assert (Hvs : vehicles db <> []).
  { apply (nonempty_of_length _ 9). rewrite Hv. apply times_length. }
  assert (Hrne : warehouse_receipts db <> []).
  { apply (nonempty_of_length _ 49). rewrite Hrs. apply times_length. }
  assert (Hdisp : Forall (fun d =>
               1 <= qty_packed d <= 150
               /\ (inject_Z (qty_packed d * 5) - (1 # 20) <= total_weight_kg d)%Q
               /\ (total_weight_kg d <= inject_Z (qty_packed d * 10) + (1 # 20))%Q
               /\ (exists k, 0 <= k <= 14 /\ date_packed d = addDays tz start k)
               /\ (exists j, 0 <= j <= 2
                             /\ date_dispatched d = addDays tz (date_packed d) j)
               /\ d_cargo_id d ∈ r_cargo_id <$> warehouse_receipts db
               /\ (fixed_offset tz ->
                   now - 14 * 86400000 <= date_packed d <= now
                   /\ date_packed d <= date_dispatched d
                      <= date_packed d + 2 * 86400000))
            (dispatches db)).
  { rewrite Hds. apply times_Forall. intros m.
    destruct (seed_dispatch_spec base36 random tz start (warehouse_receipts db) m
                Hr Hrne)
      as (H1 & H2 & H3 & (k1 & Hk1 & H4) & (j1 & Hj1 & H5) & H6 & _).
    split_and!; try done; try lia; [by exists k1|by exists j1|].
    intros Hfix. rewrite H5, H4. subst start.
    rewrite !(addDays_fixed tz) by done. lia. }
  pose proof (for_each_Forall2 (seed_snapshot base36 random) snapshot_of_tally
                (byCargo (warehouse_receipts db) (dispatches db))
                (fun e m => seed_snapshot_spec base36 random e m Hr) k) as Hall.
  rewrite <- Hinv in Hall.
  split_and!; [|done| |].
  - rewrite Hrs at 1. apply times_Forall. intros m.
    destruct (seed_receipt_spec base36 random tz start (vehicles db) m Hr Hvs)
      as (H1 & H2 & H3 & H4 & (k1 & Hk1 & H5) & (e1 & He1 & H6)
          & (j1 & Hj1 & H7) & H8 & H9 & _).
    split_and!; try done; try lia;
      [by exists k1|by exists e1|by exists j1|].
    intros Hfix. rewrite H6, H7, H5. subst start.
    rewrite !(addDays_fixed tz) by done. lia.
  - intros c.
    assert (Hids : i_cargo_id <$> inventory_snapshot db
                   = (byCargo (warehouse_receipts db) (dispatches db)).*1).
    { apply Forall2_fmap_eq. eapply Forall2_impl; [exact Hall|].
      by intros e inv (Hc & _). }
    rewrite Hids, byCargo_keys. split; [|tauto].
    intros [H|H]; [done|].
    apply list_elem_of_fmap in H as (d & -> & Hd).
    eapply Forall_forall in Hdisp; [|exact Hd]. tauto.
  - eapply Forall2_Forall_right; [|exact Hall]. apply snapshot_of_tally_ok.
Qed.

Lemma seed_ledger_rows_witness :
  let random := fun _ : nat => (1 # 2)%Q in
  let db := fst (seed_db plain36 random 0 utc 0%nat) in
  unit_samples random
  /\ Forall snapshot_ok (inventory_snapshot db)
  /\ (forall c, c ∈ i_cargo_id <$> inventory_snapshot db
                <-> c ∈ r_cargo_id <$> warehouse_receipts db).
Proof.
  intros random db.
  assert (Hr : unit_samples random).
  { intros n. split; [discriminate|reflexivity]. }
  split; [exact Hr|].
  destruct (seed_ledger_rows plain36 random 0 utc 0%nat Hr) as (_ & _ & Hids & Hok).
  split; [exact Hok|exact Hids].
Defined.

Lemma seed_vehicle_spec base36 random n :
  unit_samples random ->
  let v := fst (seed_vehicle base36 random n) in
  (exists k, 1000 <= k <= 9999 /\ v_vehicle_reg v = "ND " +:+ pretty k)
  /\ v_driver_name v ∈ drivers.
Proof.
  intros Hr. unfold seed_vehicle, draw_uid, bind, Math_random, ret.
  pose proof (rand_range random 1000 9999 (S n) Hr ltac:(lia)) as Hk.
  destruct (rand random 1000 9999 (S n)) as [k n1].
  pose proof (choice_elem random EmptyString drivers n1 Hr ltac:(done)) as Hdn.
  destruct (choice random EmptyString drivers n1) as [dn n2].
  simpl in *. split; [by exists k|done].
Qed.

(** X28: the fleet the seed generates.  With samples of the unit interval:
    every vehicle has the registration ND and a number from 1000 to 9999 and
    one of the seven drivers; every trip is made by a generated vehicle, has
    a distance between 10 and 600 and a fuel use between 2 and 120 up to the
    rounding to one decimal, starts [addDays] of the start by 0 to 14 days,
    and ends at its start with the local hour moved on by a number from 1 to
    8.  On a host without daylight saving this is 1 to 8 hours after the
    start, so never before it, and the start lies within the 14 days before
    now. *)
Theorem seed_transport_rows base36 random now tz n :
  unit_samples random ->
  let db := fst (seed_db base36 random now tz n) in
  let start := addDays tz now (-14) in
  Forall (fun v =>
            (exists k, 1000 <= k <= 9999 /\ v_vehicle_reg v = "ND " +:+ pretty k)
            /\ v_driver_name v ∈ drivers)
         (vehicles db)
  /\ Forall (fun t =>
               (exists k, 0 <= k <= 14 /\ start_time t = addDays tz start k)
               /\ (exists h, 1 <= h <= 8
                             /\ end_time t
                                = setHours tz (addDays tz (start_time t) 0)
                                              (getHours tz (start_time t) + h))
               /\ t_vehicle_reg t ∈ v_vehicle_reg <$> vehicles db
               /\ (10 - (1 # 20) <= distance_km t)%Q
               /\ (distance_km t <= 600 + (1 # 20))%Q
               /\ (2 - (1 # 20) <= fuel_used_l t)%Q
               /\ (fuel_used_l t <= 120 + (1 # 20))%Q
               /\ t_driver_name t ∈ drivers
               /\ (fixed_offset tz ->
                   now - 14 * 86400000 <= start_time t <= now
                   /\ start_time t + 3600000 <= end_time t
                      <= start_time t + 8 * 3600000
                   /\ start_time t < end_time t))
            (transport_trips db).
Proof.
  intros Hr db start.
  destruct (seed_db_shape base36 random now tz n)
    as (n1 & n2 & n4 & i1 & i2 & i3 & Hv & _ & _ & Hts & _).
  fold db in Hv, Hts. cbv zeta in Hts. fold start in Hts. clearbody db.
  assert (Hvs : vehicles db <> []).
  { apply (nonempty_of_length _ 9). rewrite Hv. apply times_length. }
  split.
  - rewrite Hv. apply times_Forall. intros m. by apply seed_vehicle_spec.
  - rewrite Hts at 1. apply times_Forall. intros m.
    destruct (seed_trip_spec base36 random tz start (vehicles db) m Hr Hvs)
      as ((k1 & Hk1 & H1) & (h1 & Hh1 & H2) & H3 & H4 & H5 & H6 & H7 & H8).
    split_and!; try done; [by exists k1|by exists h1|].
    intros Hfix. rewrite H2, H1. subst start.
    rewrite !(addDays_fixed tz) by done.
    destruct Hfix as (_ & Hhour & _).
    rewrite Z.mul_0_l, Z.add_0_r, Hhour. lia.
Qed.

Lemma seed_transport_rows_witness :
  let random := fun _ : nat => (1 # 2)%Q in
  let db := fst (seed_db plain36 random 0 utc 0%nat) in
  unit_samples random
  /\ fixed_offset utc
  /\ Forall (fun t => start_time t < end_time t) (transport_trips db).
Proof.
  intros random db.
  assert (Hr : unit_samples random).
  { intros n. split; [discriminate|reflexivity]. }
  split; [exact Hr|]. split; [exact utc_fixed_offset|].
  destruct (seed_transport_rows plain36 random 0 utc 0%nat Hr) as (_ & Hts).
  eapply Forall_impl; [exact Hts|].
  intros t (_ & _ & _ & _ & _ & _ & _ & _ & Hfix).
  destruct (Hfix utc_fixed_offset) as (_ & _ & Hlt). exact Hlt.
Defined.

(** X29: the random helpers stay in range.  With samples of the unit
    interval: [rand(min, max)] is an integer from [min] to [max] when [min] is
    at most [max], and draws one sample; [choice(arr)] is an element of a
    non-empty array, and the undefined of indexing an empty one; and
    [numberBetween(a, b, 1)] for 0 <= a <= b lies between [a] and [b] up to the
    rounding to one decimal. *)
Theorem random_helpers_in_range random :
  unit_samples random ->
  (forall min max n, min <= max ->
     min <= fst (rand random min max n) <= max
     /\ snd (rand random min max n) = S n)
  /\ (forall (A : Type) (d : A) (arr : list A) n,
        arr <> [] -> fst (choice random d arr n) ∈ arr)
  /\ (forall (A : Type) (d : A) n, fst (choice random d [] n) = d)
  /\ (forall (a b : Q) n, (0 <= a)%Q -> (a <= b)%Q ->
        (a - (1 # 20) <= fst (numberBetween random a b 1 n))%Q
        /\ (fst (numberBetween random a b 1 n) <= b + (1 # 20))%Q).
Proof.
  intros Hr. split_and!.
  - intros min max n Hmm. split; [by apply rand_range|done].
  - intros A d arr n Harr. by apply choice_elem.
  - intros A d n. unfold choice, bind, ret.
    destruct (rand random 0 (Z.of_nat (length (@nil A)) - 1) n) as [i k].
    simpl. by destruct (Z.to_nat i).
  - intros a b n Ha Hab. by apply numberBetween_range.
Qed.

Lemma random_helpers_in_range_witness :
  let random := fun _ : nat => (1 # 2)%Q in
  unit_samples random
  /\ 1 <= fst (rand random 1 200 0%nat) <= 200
  /\ fst (choice random EmptyString drivers 0%nat) ∈ drivers.
Proof.
  intros random.
  assert (Hr : unit_samples random).
  { intros n. split; [discriminate|reflexivity]. }
  split; [exact Hr|].
  destruct (random_helpers_in_range random Hr) as (Hrand & Hchoice & _).
  split; [apply Hrand; lia|apply Hchoice; discriminate].
Defined.

(** ** CSV: what the escaping keeps apart *)

Lemma escape_text_inj s1 s2 : escape_text s1 = escape_text s2 -> s1 = s2.
Proof.
  intros Heq.
  set (st := mk_csv_state [] [] EmptyString FieldStart).
  destruct (csv_run_escaped s1 st eq_refl eq_refl) as (m1 & H1 & _).
  destruct (csv_run_escaped s2 st eq_refl eq_refl) as (m2 & H2 & _).
  rewrite Heq, H2 in H1. by injection H1.
Qed.

Lemma prop_missing r h : h ∉ Object_keys r -> prop r h = JUndefined.
Proof.
  unfold Object_keys. induction r as [|[k v] r IH]; simpl; [done|].
  intros Hno. rewrite decide_False.
  - apply IH. intros Hin. apply Hno. by right.
  - intros ->. apply Hno. left.
Qed.

(** X30: what [csvEscape] keeps apart.  Two values are written alike
    exactly when they have the same text, the text of [null] and [undefined]
    being empty: no two different texts share a rendering, while [null],
    [undefined] and the empty string cannot be told apart in the export.  A
    column that a row lacks is written as an empty field for that row, a text
    without comma, double quote and line feed is written as it is, and
    [exportCSV] offers no file when there are no rows. *)
Theorem csvEscape_unambiguous :
  (forall v1 v2, csvEscape v1 = csvEscape v2 <-> csv_text v1 = csv_text v2)
  /\ csvEscape JNull = csvEscape (JString EmptyString)
  /\ csvEscape JUndefined = csvEscape (JString EmptyString)
  /\ (forall r h, h ∉ Object_keys r -> csvEscape (prop r h) = EmptyString)
  /\ (forall v, needs_quotes (csv_text v) = false -> csvEscape v = csv_text v)
  /\ (forall filename, exportCSV filename [] = None).
Proof.
  split_and!; try done.
  - intros v1 v2. rewrite !csvEscape_text. split.
    + apply escape_text_inj.
    + by intros ->.
  - intros r h Hno. by rewrite prop_missing.
  - intros v Hv. rewrite csvEscape_text. by apply escape_text_plain.
Qed.
